(** * koatty_graphql: schema model extraction and declaration rendering

    A shallow embedding of the GraphQL-SDL-to-TypeScript generator
    (parseOperations, parseTypeDefinitions, parseExtendedTypes, getTypeName,
    the scalar registry, the per-kind renderers and generateAll), followed
    by the properties established about it.

    Conventions of the embedding:
    - a JS object whose keys are GraphQL names is an insertion-ordered
      association list ([JsObj]) of its own properties: assigning to an
      existing key keeps its position, assigning to a new key appends,
      assigning to [__proto__] runs the inherited setter and creates no own
      property, and Object.keys / values / entries enumerate the own
      properties in insertion order (a GraphQL name never looks like an
      array index, which would be enumerated first);
    - the process-wide scalar map is a [gmap string string] of its own
      properties; a read [typeMap[name]] that finds no own property goes on
      to Object.prototype and finds its members ([constructor], [toString],
      ...), so a read gives a [JsValue]: a string or an inherited member;
    - a call of a string method on a value that is not a string throws a
      TypeError: fallible functions return a [Result];
    - an optional property ([x?: T]) is an [option];
    - the module-level [typeMap] constant is passed explicitly (pure
      functions take the current map as [tm]); the [Registry] module models
      the object store in which it lives. *)

From Stdlib Require Import String Ascii List Bool Arith Lia.
From stdpp Require Import base strings gmap list.
Import ListNotations.

Local Open Scope list_scope.
Local Open Scope string_scope.

(** ** Values and exceptions *)

(** What a property read can give where the source expects a string: a
    string, or the member of Object.prototype with the given name. *)
Inductive JsValue : Type :=
| JsString (s : string)
| JsInherited (name : string).

Coercion JsString : string >-> JsValue.

(** The exception of a call [callee(...)] where [callee] is undefined. *)
Inductive JsError : Type :=
| NotAFunction (callee : string).

Inductive Result (A : Type) : Type :=
| Ok (a : A)
| Err (e : JsError).

Arguments Ok {A} a.
Arguments Err {A} e.

Definition bind {A B : Type} (r : Result A) (k : A -> Result B) : Result B :=
  match r with
  | Ok a => k a
  | Err e => Err e
  end.

Notation "'let!' x ':=' c 'in' k" := (bind c (fun x => k))
  (at level 10, x name, c at level 100, k at level 200, only parsing).

(** [l.map(f)] where [f] may throw: the first exception ends the call. *)
Fixpoint mapM {A B : Type} (f : A -> Result B) (l : list A) : Result (list B) :=
  match l with
  | [] => Ok []
  | x :: l' =>
      let! y := f x in
      let! ys := mapM f l' in
      Ok (y :: ys)
  end.

(** ** Object.prototype *)

Module Proto.

(** The property names every plain object inherits. *)
Definition names : list string :=
  ["constructor"; "__defineGetter__"; "__defineSetter__"; "hasOwnProperty";
   "__lookupGetter__"; "__lookupSetter__"; "isPrototypeOf";
   "propertyIsEnumerable"; "toString"; "valueOf"; "__proto__";
   "toLocaleString"].

Definition has (name : string) : bool :=
  existsb (String.eqb name) names.

(** [String(Object.prototype[name])]: [__proto__] reads Object.prototype
    itself, [constructor] is the function Object, every other member is a
    native function carrying its property name. *)
Definition text (name : string) : string :=
  if String.eqb name "__proto__" then "[object Object]"
  else "function " ++ (if String.eqb name "constructor" then "Object" else name)
         ++ "() { [native code] }".

End Proto.

(** ** JavaScript primitives used by the source *)

Module Js.

(** [a || b] on strings: the empty string is falsy. *)
Definition truthy (s : string) : bool := negb (String.eqb s "").

(** [o[k] || d] where [o[k]] may be undefined. *)
Definition or_else (v : option string) (d : string) : string :=
  match v with
  | Some s => if truthy s then s else d
  | None => d
  end.

(** [s.endsWith(suffix)] *)
Definition endsWith (s suffix : string) : bool :=
  let n := String.length s in
  let k := String.length suffix in
  (k <=? n)%nat && String.eqb (substring (n - k) k s) suffix.

(** [s.slice(0, -k)] *)
Definition slice_end (s : string) (k : nat) : string :=
  substring 0 (String.length s - k) s.

(** [s.includes(needle)] *)
Definition includes (s needle : string) : bool :=
  match index 0 needle s with
  | Some _ => true
  | None => false
  end.

(** [l.join(sep)] *)
Definition join (sep : string) (l : list string) : string :=
  String.concat sep l.

(** [xs || []] for an optional array: an array, even empty, is truthy. *)
Definition orEmpty {A : Type} (xs : option (list A)) : list A :=
  match xs with
  | Some l => l
  | None => []
  end.

(** [xs?.map(f) || []] *)
Definition mapOrEmpty {A B : Type} (f : A -> B) (xs : option (list A)) : list B :=
  orEmpty (option_map (List.map f) xs).

(** [b ? ... : ...] on an optional boolean: undefined is falsy. *)
Definition truthyb (b : option bool) : bool :=
  match b with
  | Some true => true
  | _ => false
  end.

(** The text of a value in a template literal. *)
Definition toString (v : JsValue) : string :=
  match v with
  | JsString s => s
  | JsInherited name => Proto.text name
  end.

(** [o[k]] for a plain object with the own string properties [o]: an own
    property wins, a name without one is looked up in Object.prototype. *)
Definition get (o : gmap string string) (k : string) : option JsValue :=
  match o !! k with
  | Some v => Some (JsString v)
  | None => if Proto.has k then Some (JsInherited k) else None
  end.

(** [v || d]: an inherited member is an object, hence truthy. *)
Definition or_value (v : option JsValue) (d : string) : JsValue :=
  match v with
  | Some (JsString s) => if truthy s then JsString s else JsString d
  | Some (JsInherited name) => JsInherited name
  | None => JsString d
  end.

(** [v.includes(needle)]: only a string has the method. *)
Definition includesOf (callee : string) (v : JsValue) (needle : string)
  : Result bool :=
  match v with
  | JsString s => Ok (includes s needle)
  | JsInherited _ => Err (NotAFunction callee)
  end.

End Js.

(** ** Insertion-ordered objects keyed by name *)

Section JsObject.
Context {V : Type}.

Definition JsObj : Type := list (string * V).

(** The own property [k] of [o]. *)
Fixpoint obj_get (o : JsObj) (k : string) : option V :=
  match o with
  | [] => None
  | (k', v) :: o' => if String.eqb k' k then Some v else obj_get o' k
  end.

(** Defining or overwriting the own property [k]. *)
Fixpoint obj_define (o : JsObj) (k : string) (v : V) : JsObj :=
  match o with
  | [] => [(k, v)]
  | (k', v') :: o' =>
      if String.eqb k' k then (k', v) :: o' else (k', v') :: obj_define o' k v
  end.

(** [o[k] = v]: for [__proto__] the assignment reaches the setter inherited
    from Object.prototype, which changes the prototype of [o] and none of
    its own properties. *)
Definition obj_set (o : JsObj) (k : string) (v : V) : JsObj :=
  if String.eqb k "__proto__" then o else obj_define o k v.

Definition obj_keys (o : JsObj) : list string := List.map fst o.
Definition obj_values (o : JsObj) : list V := List.map snd o.
Definition obj_entries (o : JsObj) : list (string * V) := o.
End JsObject.

Arguments JsObj V : clear implicits.

(** ** The GraphQL syntax tree (the part of graphql-js the source reads) *)

Module Kind.
Definition NAMED_TYPE := "NamedType".
Definition LIST_TYPE := "ListType".
Definition NON_NULL_TYPE := "NonNullType".
Definition OBJECT_TYPE_DEFINITION := "ObjectTypeDefinition".
Definition INPUT_OBJECT_TYPE_DEFINITION := "InputObjectTypeDefinition".
Definition SCALAR_TYPE_DEFINITION := "ScalarTypeDefinition".
Definition ENUM_TYPE_DEFINITION := "EnumTypeDefinition".
Definition INTERFACE_TYPE_DEFINITION := "InterfaceTypeDefinition".
Definition UNION_TYPE_DEFINITION := "UnionTypeDefinition".
End Kind.

(** TypeNode = NamedTypeNode | ListTypeNode | NonNullTypeNode *)
Inductive TypeNode : Type :=
| NamedType (name : string)
| ListType (type : TypeNode)
| NonNullType (type : TypeNode).

Record InputValueDefinitionNode : Type := {
  iv_name : string;
  iv_type : TypeNode;
  iv_description : option string
}.

Record FieldDefinitionNode : Type := {
  fd_name : string;
  fd_arguments : option (list InputValueDefinitionNode);
  fd_type : TypeNode;
  fd_description : option string
}.

(** Top-level definitions.  [OtherDefinition] stands for every kind the
    generator has no case for (schema and directive definitions, type
    extensions, executable definitions); only its kind tag is read. *)
Inductive DefinitionNode : Type :=
| ObjectTypeDefinition (name : string)
    (fields : option (list FieldDefinitionNode)) (description : option string)
| InputObjectTypeDefinition (name : string)
    (fields : option (list InputValueDefinitionNode)) (description : option string)
| ScalarTypeDefinition (name : string) (description : option string)
| EnumTypeDefinition (name : string)
    (values : option (list string)) (description : option string)
| InterfaceTypeDefinition (name : string)
    (fields : option (list FieldDefinitionNode)) (description : option string)
| UnionTypeDefinition (name : string)
    (types : option (list string)) (description : option string)
| OtherDefinition (kind : string).

Definition DocumentNode : Type := list DefinitionNode.

(** ** Exported constants and the scalar map *)

Definition baseTypes : list string := ["string"; "number"; "boolean"; "ID"].
Definition operationTypes : list string := ["Query"; "Mutation"; "Subscription"].

(** The initial value of the module-level [typeMap]. *)
Definition typeMap : gmap string string :=
  <["ID" := "string"]> (<["String" := "string"]> (<["Int" := "number"]>
  (<["Float" := "number"]> (<["Boolean" := "boolean"]> ∅)))).

(** ** getTypeName *)

(** A non-null or list wrapper builds a template literal, which is a
    string; a named type returns [typeMap[typeName] || typeName] as it is. *)
Fixpoint getTypeName (tm : gmap string string) (type : TypeNode) : JsValue :=
  match type with
  | NonNullType t => JsString (Js.toString (getTypeName tm t))
  | ListType t => JsString (Js.toString (getTypeName tm t) ++ "[]")
  | NamedType typeName => Js.or_value (Js.get tm typeName) typeName
  end.

(** ** The normalized model

    The [type] and [returnType] properties hold what getTypeName
    returned. *)

Record OperationArg : Type := {
  arg_name : string;
  arg_type : JsValue
}.

Record OperationField : Type := {
  op_name : string;
  op_args : list OperationArg;
  op_returnType : JsValue
}.

(** OperationsMap: an object with the keys Query, Mutation, Subscription. *)
Definition OperationsMap : Type := JsObj (list OperationField).

Record FieldInfo : Type := {
  fi_kind : string;
  fi_name : string;
  fi_type : JsValue;
  fi_description : option string
}.

Record TypeDefinitionInfo : Type := {
  td_kind : string;
  td_name : string;
  td_fields : list FieldInfo;
  td_description : option string
}.

Record EnumTypeInfo : Type := {
  en_kind : string;
  en_name : string;
  en_values : list string;
  en_description : option string
}.

Record InterfaceTypeInfo : Type := {
  if_kind : string;
  if_name : string;
  if_fields : list FieldInfo;
  if_description : option string
}.

Record UnionTypeInfo : Type := {
  un_kind : string;
  un_name : string;
  un_types : list string;
  un_description : option string
}.

Record ExtendedTypeMap : Type := {
  objects : JsObj TypeDefinitionInfo;
  inputs : JsObj TypeDefinitionInfo;
  scalars : JsObj TypeDefinitionInfo;
  enums : JsObj EnumTypeInfo;
  interfaces : JsObj InterfaceTypeInfo;
  unions : JsObj UnionTypeInfo
}.

(** ** parseOperations *)

Definition emptyOperations : OperationsMap :=
  [("Query", []); ("Mutation", []); ("Subscription", [])].

(** [operations[k].push(x)]: the array held under the own key [k] grows in
    place.  The caller's guard admits only the three keys of
    [emptyOperations], which are never removed, so the array is always
    there (lemma [parseOperations_keys]); the [None] branch is not reached. *)
Definition obj_push (operations : OperationsMap) (k : string) (x : OperationField)
  : OperationsMap :=
  match obj_get operations k with
  | Some l => obj_define operations k (l ++ [x])%list
  | None => operations
  end.

Definition argOf (tm : gmap string string) (arg : InputValueDefinitionNode)
  : OperationArg :=
  {| arg_name := iv_name arg; arg_type := getTypeName tm (iv_type arg) |}.

Definition operationFieldOf (tm : gmap string string) (field : FieldDefinitionNode)
  : OperationField :=
  {| op_name := fd_name field;
     op_args := Js.mapOrEmpty (argOf tm) (fd_arguments field);
     op_returnType := getTypeName tm (fd_type field) |}.

(** [operationTypes.includes(name)] *)
Definition isOperationType (name : string) : bool :=
  existsb (String.eqb name) operationTypes.

(** The body of the loop over [document.definitions]. *)
Definition parseOperations_def (tm : gmap string string)
    (operations : OperationsMap) (def : DefinitionNode) : OperationsMap :=
  match def with
  | ObjectTypeDefinition name fields _ =>
      if isOperationType name then
        fold_left (fun ops field => obj_push ops name (operationFieldOf tm field))
                  (Js.orEmpty fields) operations
      else operations
  | _ => operations
  end.

Definition parseOperations (tm : gmap string string) (document : DocumentNode)
  : OperationsMap :=
  fold_left (parseOperations_def tm) document emptyOperations.

(** ** parseTypeDefinitions *)

(** The body of the loop: object, input and scalar definitions are written
    into one object keyed by name; a scalar node has no [fields], so its
    field list is empty. *)
Definition parseTypeDefinitions_def (tm : gmap string string)
    (typeMaps : JsObj TypeDefinitionInfo) (def : DefinitionNode)
  : JsObj TypeDefinitionInfo :=
  match def with
  | ObjectTypeDefinition name fields description =>
      let fields :=
        Js.mapOrEmpty
          (fun f => {| fi_kind := Kind.OBJECT_TYPE_DEFINITION; fi_name := fd_name f;
                       fi_type := getTypeName tm (fd_type f);
                       fi_description := fd_description f |}) fields in
      obj_set typeMaps name
        {| td_kind := Kind.OBJECT_TYPE_DEFINITION; td_name := name;
           td_fields := fields; td_description := description |}
  | InputObjectTypeDefinition name fields description =>
      let fields :=
        Js.mapOrEmpty
          (fun f => {| fi_kind := Kind.INPUT_OBJECT_TYPE_DEFINITION;
                       fi_name := iv_name f;
                       fi_type := getTypeName tm (iv_type f);
                       fi_description := iv_description f |}) fields in
      obj_set typeMaps name
        {| td_kind := Kind.INPUT_OBJECT_TYPE_DEFINITION; td_name := name;
           td_fields := fields; td_description := description |}
  | ScalarTypeDefinition name description =>
      obj_set typeMaps name
        {| td_kind := Kind.SCALAR_TYPE_DEFINITION; td_name := name;
           td_fields := []; td_description := description |}
  | _ => typeMaps
  end.

Definition parseTypeDefinitions (tm : gmap string string) (document : DocumentNode)
  : JsObj TypeDefinitionInfo :=
  fold_left (parseTypeDefinitions_def tm) document [].

(** ** parseExtendedTypes *)

Definition emptyExtendedTypeMap : ExtendedTypeMap :=
  {| objects := []; inputs := []; scalars := [];
     enums := []; interfaces := []; unions := [] |}.

Definition fieldInfoOf (tm : gmap string string) (kind : string)
    (f : FieldDefinitionNode) : FieldInfo :=
  {| fi_kind := kind; fi_name := fd_name f;
     fi_type := getTypeName tm (fd_type f);
     fi_description := fd_description f |}.

Definition inputFieldInfoOf (tm : gmap string string) (kind : string)
    (f : InputValueDefinitionNode) : FieldInfo :=
  {| fi_kind := kind; fi_name := iv_name f;
     fi_type := getTypeName tm (iv_type f);
     fi_description := iv_description f |}.

(** The body of the [switch (def.kind)]. *)
Definition parseExtendedTypes_def (tm : gmap string string)
    (result : ExtendedTypeMap) (def : DefinitionNode) : ExtendedTypeMap :=
  match def with
  | ObjectTypeDefinition name fields description =>
      let fields :=
        Js.mapOrEmpty (fieldInfoOf tm Kind.OBJECT_TYPE_DEFINITION) fields in
      {| objects := obj_set (objects result) name
           {| td_kind := Kind.OBJECT_TYPE_DEFINITION; td_name := name;
              td_fields := fields; td_description := description |};
         inputs := inputs result; scalars := scalars result;
         enums := enums result; interfaces := interfaces result;
         unions := unions result |}
  | InputObjectTypeDefinition name fields description =>
      let fields :=
        Js.mapOrEmpty (inputFieldInfoOf tm Kind.INPUT_OBJECT_TYPE_DEFINITION) fields in
      {| objects := objects result;
         inputs := obj_set (inputs result) name
           {| td_kind := Kind.INPUT_OBJECT_TYPE_DEFINITION; td_name := name;
              td_fields := fields; td_description := description |};
         scalars := scalars result;
         enums := enums result; interfaces := interfaces result;
         unions := unions result |}
  | ScalarTypeDefinition name description =>
      {| objects := objects result; inputs := inputs result;
         scalars := obj_set (scalars result) name
           {| td_kind := Kind.SCALAR_TYPE_DEFINITION; td_name := name;
              td_fields := []; td_description := description |};
         enums := enums result; interfaces := interfaces result;
         unions := unions result |}
  | EnumTypeDefinition name values description =>
      {| objects := objects result; inputs := inputs result;
         scalars := scalars result;
         enums := obj_set (enums result) name
           {| en_kind := Kind.ENUM_TYPE_DEFINITION; en_name := name;
              en_values := Js.orEmpty values; en_description := description |};
         interfaces := interfaces result;
         unions := unions result |}
  | InterfaceTypeDefinition name fields description =>
      let fields :=
        Js.mapOrEmpty (fieldInfoOf tm Kind.INTERFACE_TYPE_DEFINITION) fields in
      {| objects := objects result; inputs := inputs result;
         scalars := scalars result; enums := enums result;
         interfaces := obj_set (interfaces result) name
           {| if_kind := Kind.INTERFACE_TYPE_DEFINITION; if_name := name;
              if_fields := fields; if_description := description |};
         unions := unions result |}
  | UnionTypeDefinition name types description =>
      {| objects := objects result; inputs := inputs result;
         scalars := scalars result; enums := enums result;
         interfaces := interfaces result;
         unions := obj_set (unions result) name
           {| un_kind := Kind.UNION_TYPE_DEFINITION; un_name := name;
              un_types := Js.orEmpty types; un_description := description |} |}
  | OtherDefinition _ => result
  end.

Definition parseExtendedTypes (tm : gmap string string) (document : DocumentNode)
  : ExtendedTypeMap :=
  fold_left (parseExtendedTypes_def tm) document emptyExtendedTypeMap.

(** ** Generation options and name formatting *)

Record GenerateOptions : Type := {
  prefix : option string;
  suffix : option string;
  useEnumType : option bool;
  useInterfaceType : option bool;
  outputDir : option string;
  strictNullChecks : option bool
}.

(** The default argument [options = {}]. *)
Definition noOptions : GenerateOptions :=
  {| prefix := None; suffix := None; useEnumType := None;
     useInterfaceType := None; outputDir := None; strictNullChecks := None |}.

(** [{ ...defaults, ...options }]: a property present in [options] wins. *)
Definition spread (defaults options : GenerateOptions) : GenerateOptions :=
  let pick {A} (o d : option A) := match o with Some v => Some v | None => d end in
  {| prefix := pick (prefix options) (prefix defaults);
     suffix := pick (suffix options) (suffix defaults);
     useEnumType := pick (useEnumType options) (useEnumType defaults);
     useInterfaceType := pick (useInterfaceType options) (useInterfaceType defaults);
     outputDir := pick (outputDir options) (outputDir defaults);
     strictNullChecks := pick (strictNullChecks options) (strictNullChecks defaults) |}.

Definition formatTypeName (name : string) (options : GenerateOptions) : string :=
  let prefix := Js.or_else (prefix options) "" in
  let suffix := Js.or_else (suffix options) "" in
  prefix ++ name ++ suffix.

(** [getTypeScriptType] recurses on [type.slice(0, -2)], a strictly shorter
    string; the recursion is bounded by the length of [type]
    (lemma [getTypeScriptType_eq] is the source's defining equation).
    [scalarMap] is the snapshot [getScalarTypeMap()] takes of the live map
    [tm]: a plain object with the same own properties.  The list branch
    builds a template literal; the other branch returns [scalarMap[type]]
    as it is when it is truthy. *)
Fixpoint getTypeScriptType_rec (fuel : nat) (tm : gmap string string)
    (type : string) (options : GenerateOptions) : JsValue :=
  match fuel with
  | O => JsString ""
  | S fuel' =>
      if Js.endsWith type "[]" then
        let innerType := Js.slice_end type 2 in
        JsString (Js.toString (getTypeScriptType_rec fuel' tm innerType options)
                  ++ "[]")
      else
        let formattedName := formatTypeName type options in
        let scalarMap := tm in
        Js.or_value (Js.get scalarMap type) formattedName
  end.

(** [type.endsWith] exists only when [type] is a string. *)
Definition getTypeScriptType (tm : gmap string string) (type : JsValue)
    (options : GenerateOptions) : Result JsValue :=
  match type with
  | JsString s => Ok (getTypeScriptType_rec (S (String.length s)) tm s options)
  | JsInherited _ => Err (NotAFunction "type.endsWith")
  end.

(** ** Declaration renderers *)

(** The line feed of the template literals. *)
Definition nl : string := String (ascii_of_nat 10) EmptyString.

Definition generateFieldDeclaration (tm : gmap string string)
    (field : FieldInfo) (options : GenerateOptions) : Result string :=
  let! tsType := getTypeScriptType tm (fi_type field) options in
  let! hasMark := Js.includesOf "field.type.includes" (fi_type field) "!" in
  let optional :=
    if negb hasMark && Js.truthyb (strictNullChecks options)
    then "?" else "" in
  Ok ("  " ++ fi_name field ++ optional ++ ": " ++ Js.toString tsType ++ ";").

Definition generateTypeDefinition (tm : gmap string string)
    (info : TypeDefinitionInfo) (options : GenerateOptions) : Result string :=
  let typeName := formatTypeName (td_name info) options in
  let! fields :=
    mapM (fun f => generateFieldDeclaration tm f options) (td_fields info) in
  let fields := Js.join nl fields in
  if String.eqb (td_kind info) Kind.SCALAR_TYPE_DEFINITION then
    Ok ("export type " ++ typeName ++ " = string;")
  else
    Ok ("export interface " ++ typeName ++ " {" ++ nl ++ fields ++ nl ++ "}").

Definition generateEnumDeclaration (info : EnumTypeInfo)
    (options : GenerateOptions) : string :=
  let enumName := formatTypeName (en_name info) options in
  let values :=
    Js.join ("," ++ nl)
      (List.map (fun v => "  " ++ v ++ " = '" ++ v ++ "'") (en_values info)) in
  if Js.truthyb (useEnumType options) then
    "export const " ++ enumName ++ " = {" ++ nl ++ values ++ nl ++ "} as const;"
      ++ nl ++ nl ++ "export type " ++ enumName ++ " = typeof " ++ enumName
      ++ "[keyof typeof " ++ enumName ++ "];"
  else
    "export enum " ++ enumName ++ " {" ++ nl ++ values ++ nl ++ "}".

Definition generateInterfaceDeclaration (tm : gmap string string)
    (info : InterfaceTypeInfo) (options : GenerateOptions) : Result string :=
  let interfaceName := formatTypeName (if_name info) options in
  let! fields :=
    mapM (fun f => generateFieldDeclaration tm f options) (if_fields info) in
  let fields := Js.join nl fields in
  if Js.truthyb (useInterfaceType options) then
    Ok ("export interface " ++ interfaceName ++ " {" ++ nl ++ fields ++ nl ++ "}")
  else
    Ok ("export type " ++ interfaceName ++ " = {" ++ nl ++ fields ++ nl ++ "};").

Definition generateUnionDeclaration (info : UnionTypeInfo)
    (options : GenerateOptions) : string :=
  let unionName := formatTypeName (un_name info) options in
  let types :=
    Js.join " | " (List.map (fun t => formatTypeName t options) (un_types info)) in
  "export type " ++ unionName ++ " = " ++ types ++ ";".

(** ** Per-category aggregates *)

Definition banner (title : string) : list string :=
  ["/* Auto-generated by koatty-graphql */"; ""; title; ""].

(** [for (const info of Object.values(defs)) { lines.push(render(info));
    lines.push('') }]: the banner, then each declaration and a blank
    line. *)
Definition pushed (title : string) (declarations : list string) : list string :=
  (banner title ++ flat_map (fun d => [d; ""]) declarations)%list.

(** The lines of a category whose renderer may throw. *)
Definition categoryLines {V : Type} (title : string) (render : V -> Result string)
    (defs : JsObj V) : Result (list string) :=
  let! declarations := mapM render (obj_values defs) in
  Ok (pushed title declarations).

(** The lines joined by [lines.join('\n')]. *)
Definition renderCategory {V : Type} (title : string) (render : V -> Result string)
    (defs : JsObj V) : Result string :=
  let! lines := categoryLines title render defs in
  Ok (Js.join nl lines).

(** The same for a renderer that cannot throw. *)
Definition renderPureCategory {V : Type} (title : string) (render : V -> string)
    (defs : JsObj V) : string :=
  Js.join nl (pushed title (List.map render (obj_values defs))).

(** The defaults [generateTypeScriptTypes] spreads the caller's options over. *)
Definition typesDefaults : GenerateOptions :=
  {| prefix := Some ""; suffix := Some ""; useEnumType := Some false;
     useInterfaceType := Some false; outputDir := None;
     strictNullChecks := Some false |}.

Definition generateTypeScriptTypes (tm : gmap string string)
    (typeDefinitions : JsObj TypeDefinitionInfo) (options : GenerateOptions)
  : Result string :=
  let defaultOptions := spread typesDefaults options in
  renderCategory "// Type Definitions"
    (fun info => generateTypeDefinition tm info defaultOptions) typeDefinitions.

(** The defaults [generateInputTypes] spreads the caller's options over. *)
Definition inputsDefaults : GenerateOptions :=
  {| prefix := Some ""; suffix := Some ""; useEnumType := None;
     useInterfaceType := None; outputDir := None;
     strictNullChecks := Some false |}.

Definition generateInputTypes (tm : gmap string string)
    (inputDefinitions : JsObj TypeDefinitionInfo) (options : GenerateOptions)
  : Result string :=
  let defaultOptions := spread inputsDefaults options in
  renderCategory "// Input Types"
    (fun info => generateTypeDefinition tm info defaultOptions) inputDefinitions.

Definition generateEnums (enumDefinitions : JsObj EnumTypeInfo)
    (options : GenerateOptions) : string :=
  let defaultOptions :=
    spread {| prefix := None; suffix := None; useEnumType := Some false;
              useInterfaceType := None; outputDir := None;
              strictNullChecks := None |} options in
  renderPureCategory "// Enum Types"
    (fun info => generateEnumDeclaration info defaultOptions) enumDefinitions.

Definition generateInterfaces (tm : gmap string string)
    (interfaceDefinitions : JsObj InterfaceTypeInfo) (options : GenerateOptions)
  : Result string :=
  let defaultOptions :=
    spread {| prefix := None; suffix := None; useEnumType := None;
              useInterfaceType := Some false; outputDir := None;
              strictNullChecks := None |} options in
  renderCategory "// Interface Types"
    (fun info => generateInterfaceDeclaration tm info defaultOptions)
    interfaceDefinitions.

Definition generateUnions (unionDefinitions : JsObj UnionTypeInfo)
    (options : GenerateOptions) : string :=
  let defaultOptions := spread noOptions options in
  renderPureCategory "// Union Types"
    (fun info => generateUnionDeclaration info defaultOptions) unionDefinitions.

(** One argument of a method signature. *)
Definition operationArgument (tm : gmap string string)
    (defaultOptions : GenerateOptions) (a : OperationArg) : Result string :=
  let! type := getTypeScriptType tm (arg_type a) defaultOptions in
  Ok (arg_name a ++ ": " ++ Js.toString type).

(** One method signature of an operations interface: the arguments are
    rendered first, then the return type. *)
Definition operationLine (tm : gmap string string) (defaultOptions : GenerateOptions)
    (f : OperationField) : Result string :=
  let! args := mapM (operationArgument tm defaultOptions) (op_args f) in
  let args := Js.join ", " args in
  let! returnType := getTypeScriptType tm (op_returnType f) defaultOptions in
  Ok ("  " ++ op_name f ++ "(" ++ args ++ "): " ++ Js.toString returnType ++ ";").

(** The four lines pushed for one entry of [Object.entries(operations)]. *)
Definition operationBlock (tm : gmap string string) (defaultOptions : GenerateOptions)
    (entry : string * list OperationField) : Result (list string) :=
  let '(operationType, fields) := entry in
  let interfaceName := formatTypeName operationType defaultOptions in
  let! fieldLines := mapM (operationLine tm defaultOptions) fields in
  let fieldLines := Js.join nl fieldLines in
  Ok ["export interface " ++ interfaceName ++ " {"; fieldLines; "}"; ""].

(** The defaults [generateOperations] spreads the caller's options over. *)
Definition operationsDefaults : GenerateOptions :=
  {| prefix := Some ""; suffix := Some ""; useEnumType := None;
     useInterfaceType := None; outputDir := None; strictNullChecks := None |}.

Definition generateOperations_lines (tm : gmap string string)
    (operations : OperationsMap) (options : GenerateOptions)
  : Result (list string) :=
  let defaultOptions := spread operationsDefaults options in
  let! blocks := mapM (operationBlock tm defaultOptions) (obj_entries operations) in
  Ok (banner "// Operations" ++ List.concat blocks)%list.

Definition generateOperations (tm : gmap string string)
    (operations : OperationsMap) (options : GenerateOptions) : Result string :=
  let! lines := generateOperations_lines tm operations options in
  Ok (Js.join nl lines).

(** ** generateAll *)

Record GenerateResult : Type := {
  filename : string;
  content : string
}.

(** [Object.keys(o).length > 0] *)
Definition hasKeys {V : Type} (o : JsObj V) : bool :=
  (0 <? List.length (obj_keys o))%nat.

(** [Object.keys(operations).some(key => operations[key].length > 0)] *)
Definition hasOperations (operations : OperationsMap) : bool :=
  existsb (fun key =>
             match obj_get operations key with
             | Some fields => (0 <? List.length fields)%nat
             | None => false
             end)
          (obj_keys operations).

(** [if (cond) results.push({ filename, content })]: the content is
    computed only when [cond] holds, and an exception in it ends the
    call. *)
Definition pushIf (cond : bool) (filename : string) (content : Result string)
    (results : list GenerateResult) : Result (list GenerateResult) :=
  if cond then
    let! content := content in
    Ok (results ++ [ {| filename := filename; content := content |} ])%list
  else Ok results.

Definition generateAll (tm : gmap string string) (document : DocumentNode)
    (options : GenerateOptions) : Result (list GenerateResult) :=
  let extendedTypes := parseExtendedTypes tm document in
  let operations := parseOperations tm document in
  let results := [] in
  let! results :=
    pushIf (hasKeys (objects extendedTypes)) "types.ts"
      (generateTypeScriptTypes tm (objects extendedTypes) options) results in
  let! results :=
    pushIf (hasKeys (inputs extendedTypes)) "inputs.ts"
      (generateInputTypes tm (inputs extendedTypes) options) results in
  let! results :=
    pushIf (hasKeys (enums extendedTypes)) "enums.ts"
      (Ok (generateEnums (enums extendedTypes) options)) results in
  let! results :=
    pushIf (hasKeys (interfaces extendedTypes)) "interfaces.ts"
      (generateInterfaces tm (interfaces extendedTypes) options) results in
  let! results :=
    pushIf (hasKeys (unions extendedTypes)) "unions.ts"
      (Ok (generateUnions (unions extendedTypes) options)) results in
  let! results :=
    pushIf (hasOperations operations) "operations.ts"
      (generateOperations tm operations options) results in
  Ok results.

(** ** The scalar registry as a shared object

    [typeMap] is one object of the store, reachable only through this
    module; [getScalarTypeMap] allocates a second, frozen object.  A caller
    can act on a returned reference by assignment, deletion or
    Object.assign; module code is strict, so a write to a frozen object
    raises TypeError and leaves the object as it was.  Overrides are
    string-valued properties. *)

Module Registry.

Record JsObject : Type := {
  props : gmap string string;
  frozen : bool
}.

Definition Ref : Type := nat.
Abbreviation Store := (list JsObject).

Inductive Outcome : Type := Done | TypeError.

(** The module-level constant is the first object allocated. *)
Definition typeMapRef : Ref := 0.

Definition initial : Store := [ {| props := typeMap; frozen := false |} ].

Definition read (st : Store) (r : Ref) : gmap string string :=
  match st !! r with
  | Some o => props o
  | None => ∅
  end.

Definition liveMap (st : Store) : gmap string string := read st typeMapRef.

(** A write that changes the properties of the object at [r] to [f props]. *)
Definition write (st : Store) (r : Ref)
    (f : gmap string string -> gmap string string) : Store * Outcome :=
  match st !! r with
  | Some o =>
      if frozen o then (st, TypeError)
      else (<[r := {| props := f (props o); frozen := false |}]> st, Done)
  | None => (st, TypeError)
  end.

(** The properties of [source] an assignment [target[k] = source[k]]
    turns into own properties of the target: for [__proto__] the assignment
    reaches the setter inherited from Object.prototype, which ignores a
    string and raises nothing, also on a frozen object. *)
Definition assignable (source : gmap string string) : gmap string string :=
  delete "__proto__" source.

(** [Object.assign(target, source)]: every own property of [source] is
    assigned to [target]; nothing is written when no property is left to
    write. *)
Definition assign (st : Store) (r : Ref) (source : gmap string string)
  : Store * Outcome :=
  if decide (assignable source = ∅) then (st, Done)
  else write st r (fun p => assignable source ∪ p).

(** [Object.freeze({ ...typeMap })]: a new frozen object holding a copy of
    the live properties; its reference is returned. *)
Definition getScalarTypeMap (st : Store) : Ref * Store :=
  (List.length st, (st ++ [ {| props := liveMap st; frozen := true |} ])%list).

(** [Object.assign(typeMap, map)] *)
Definition updateScalarTypeMap (map : gmap string string) (st : Store)
  : Store * Outcome :=
  assign st typeMapRef map.

(** [getTypeName] reading the live map. *)
Definition getTypeNameIn (st : Store) (type : TypeNode) : JsValue :=
  getTypeName (liveMap st) type.

(** What a caller can try on a reference it holds. *)
Inductive Mutation : Type :=
| SetProp (k v : string)
| DeleteProp (k : string)
| AssignProps (source : gmap string string).

Definition mutate (st : Store) (r : Ref) (m : Mutation) : Store :=
  match m with
  | SetProp k v =>
      if String.eqb k "__proto__" then st
      else fst (write st r (fun p => <[k := v]> p))
  | DeleteProp k => fst (write st r (fun p => delete k p))
  | AssignProps source => fst (assign st r source)
  end.

Definition mutateAll (st : Store) (r : Ref) (ms : list Mutation) : Store :=
  fold_left (fun st m => mutate st r m) ms st.

(** The store always holds the unfrozen [typeMap]. *)
Definition wf (st : Store) : Prop :=
  exists o, st !! typeMapRef = Some o /\ frozen o = false.

End Registry.

(** ** Loading a schema file

    The file system and the SDL parser are collaborators: [existsSync],
    [readFileSync] and [parse] are parameters, each call is logged, and a
    failing call yields the value it throws. *)

Module Loader.

Inductive Event : Type :=
| ExistsCall (path : string)
| ReadCall (path : string)
| ParseCall (source : string).

(** Thrown values: an Error raised by a collaborator (a file-system error,
    a GraphQLError), this module's GraphQLParseError with its optional
    cause, or a value that is not an Error. *)
#[warnings="-register-all"]
Inductive Thrown : Type :=
| ErrorValue (name message : string)
| GraphQLParseError (message : string) (cause : option Thrown)
| OtherValue (v : string).

Definition isGraphQLParseError (e : Thrown) : bool :=
  match e with
  | GraphQLParseError _ _ => true
  | _ => false
  end.

Definition isError (e : Thrown) : bool :=
  match e with
  | OtherValue _ => false
  | _ => true
  end.

(** Computations that log collaborator calls and may throw. *)
Definition M (A : Type) : Type := list Event * (Thrown + A).

Definition throw {A : Type} (e : Thrown) : M A := ([], inl e).

Definition bind {A B : Type} (c : M A) (k : A -> M B) : M B :=
  match c with
  | (log, inr a) => let '(log', r) := k a in ((log ++ log')%list, r)
  | (log, inl e) => (log, inl e)
  end.

Definition tryCatch {A : Type} (body : M A) (handler : Thrown -> M A) : M A :=
  match body with
  | (log, inr a) => (log, inr a)
  | (log, inl e) => let '(log', r) := handler e in ((log ++ log')%list, r)
  end.

Notation "'let*' x ':=' c 'in' k" := (bind c (fun x => k))
  (at level 10, x name, c at level 100, k at level 200, only parsing).

Definition parseAttempts (log : list Event) : nat :=
  List.length (List.filter (fun ev => match ev with ParseCall _ => true | _ => false end) log).

Section Collaborators.
Variable existsSync : string -> bool.
Variable readFileSync : string -> Thrown + string.
Variable parse : string -> Thrown + DocumentNode.

Definition callExistsSync (path : string) : M bool :=
  ([ExistsCall path], inr (existsSync path)).
Definition callReadFileSync (path : string) : M string :=
  ([ReadCall path], readFileSync path).
Definition callParse (source : string) : M DocumentNode :=
  ([ParseCall source], parse source).

Definition parseGraphqlDocument (schemaFile : string) : M DocumentNode :=
  let* found := callExistsSync schemaFile in
  if negb found then
    throw (GraphQLParseError ("Schema file not found: " ++ schemaFile) None)
  else
    tryCatch
      (let* source := callReadFileSync schemaFile in
       callParse source)
      (fun error =>
         if isGraphQLParseError error then throw error
         else
           throw (GraphQLParseError
                    ("Failed to parse schema file: " ++ schemaFile)
                    (if isError error then Some error else None))).
End Collaborators.

End Loader.

(** ** Measures on type references used to state the resolver's result *)

(** The name at the bottom of the wrappers. *)
Fixpoint baseName (type : TypeNode) : string :=
  match type with
  | NamedType name => name
  | ListType t => baseName t
  | NonNullType t => baseName t
  end.

(** The number of list wrappers. *)
Fixpoint listWrappers (type : TypeNode) : nat :=
  match type with
  | NamedType _ => 0
  | ListType t => S (listWrappers t)
  | NonNullType t => listWrappers t
  end.

(** [n] copies of the two characters of a list suffix. *)
Fixpoint brackets (n : nat) : string :=
  match n with
  | O => ""
  | S n' => "[]" ++ brackets n'
  end.

(** The scalar substitution read literally: the entry whenever there is one. *)
Definition scalarEntryOr (tm : gmap string string) (name : string) : string :=
  match tm !! name with
  | Some v => v
  | None => name
  end.

(** The read [typeMap[name]] finds no own property and ends at a member of
    Object.prototype. *)
Definition reachesPrototype (tm : gmap string string) (name : string) : bool :=
  match tm !! name with
  | Some _ => false
  | None => Proto.has name
  end.

(** A value that is a string. *)
Definition isString (v : JsValue) : bool :=
  match v with
  | JsString _ => true
  | JsInherited _ => false
  end.

(** ** Sample documents and options *)

(** The document of [type A { tags: [String!]! }]. *)
Definition tagsDocument : DocumentNode :=
  [ ObjectTypeDefinition "A"
      (Some [ {| fd_name := "tags"; fd_arguments := Some [];
                 fd_type := NonNullType (ListType (NonNullType (NamedType "String")));
                 fd_description := None |} ])
      None ].

Definition strictOptions : GenerateOptions :=
  {| prefix := None; suffix := None; useEnumType := None;
     useInterfaceType := None; outputDir := None;
     strictNullChecks := Some true |}.

(** The document of [type User { name: String }]. *)
Definition userDocument : DocumentNode :=
  [ ObjectTypeDefinition "User"
      (Some [ {| fd_name := "name"; fd_arguments := Some [];
                 fd_type := NamedType "String"; fd_description := None |} ])
      None ].

Definition prefixOptions (p : string) : GenerateOptions :=
  {| prefix := Some p; suffix := None; useEnumType := None;
     useInterfaceType := None; outputDir := None; strictNullChecks := None |}.

(** ** The extractor's result in the words of its contract *)

(** The operation fields one definition contributes to the root [root]:
    those of an object definition named exactly [root], nothing otherwise. *)
Definition rootFieldsOf (tm : gmap string string) (root : string)
    (def : DefinitionNode) : list OperationField :=
  match def with
  | ObjectTypeDefinition name fields _ =>
      if String.eqb name root
      then List.map (operationFieldOf tm) (Js.orEmpty fields)
      else []
  | _ => []
  end.

(** All contributions to [root], in document order. *)
Definition rootFields (tm : gmap string string) (root : string)
    (document : DocumentNode) : list OperationField :=
  flat_map (rootFieldsOf tm root) document.

(** An operations object with the three root sequences [q], [m], [s]. *)
Definition operationsOf (q m s : list OperationField) : OperationsMap :=
  [("Query", q); ("Mutation", m); ("Subscription", s)].

(** The fixed order of the output units. *)
Definition categoryFiles : list string :=
  ["types.ts"; "inputs.ts"; "enums.ts"; "interfaces.ts"; "unions.ts";
   "operations.ts"].

(** [if (cond) results.push(unit)] as the list of units it contributes. *)
Definition unitIf (cond : bool) (unit : GenerateResult) : list GenerateResult :=
  if cond then [unit] else [].

(** Two Query definitions around a Mutation and an ordinary object:
    [type Query { a: Int }  type Mutation { m(x: ID!): Boolean }
     type Query { b: String }  type Other { c: Int }]. *)
Definition twoQueriesDocument : DocumentNode :=
  [ ObjectTypeDefinition "Query"
      (Some [ {| fd_name := "a"; fd_arguments := Some [];
                 fd_type := NamedType "Int"; fd_description := None |} ]) None;
    ObjectTypeDefinition "Mutation"
      (Some [ {| fd_name := "m";
                 fd_arguments :=
                   Some [ {| iv_name := "x"; iv_type := NonNullType (NamedType "ID");
                             iv_description := None |} ];
                 fd_type := NamedType "Boolean"; fd_description := None |} ]) None;
    ObjectTypeDefinition "Query"
      (Some [ {| fd_name := "b"; fd_arguments := None;
                 fd_type := NamedType "String"; fd_description := None |} ]) None;
    ObjectTypeDefinition "Other"
      (Some [ {| fd_name := "c"; fd_arguments := Some [];
                 fd_type := NamedType "Int"; fd_description := None |} ]) None ].

(** A pushed line that opens an interface declaration. *)
Definition isInterfaceHeader (line : string) : bool :=
  String.prefix "export interface " line.

(** ** The six buckets seen uniformly *)

Inductive Bucket : Type :=
| Objects | Inputs | Scalars | Enums | Interfaces | Unions.

#[global] Instance Bucket_eq_dec : EqDecision Bucket.
Proof. solve_decision. Defined.

(** A value stored in some bucket. *)
Inductive Entry : Type :=
| TypeEntry (info : TypeDefinitionInfo)
| EnumEntry (info : EnumTypeInfo)
| InterfaceEntry (info : InterfaceTypeInfo)
| UnionEntry (info : UnionTypeInfo).

(** The own property [name] of [result.<bucket>]. *)
Definition bucket_get (m : ExtendedTypeMap) (b : Bucket) (name : string)
  : option Entry :=
  match b with
  | Objects => option_map TypeEntry (obj_get (objects m) name)
  | Inputs => option_map TypeEntry (obj_get (inputs m) name)
  | Scalars => option_map TypeEntry (obj_get (scalars m) name)
  | Enums => option_map EnumEntry (obj_get (enums m) name)
  | Interfaces => option_map InterfaceEntry (obj_get (interfaces m) name)
  | Unions => option_map UnionEntry (obj_get (unions m) name)
  end.

(** The bucket and key the [switch] assigns for a definition; none for the
    kinds without a case. *)
Definition target (def : DefinitionNode) : option (Bucket * string) :=
  match def with
  | ObjectTypeDefinition name _ _ => Some (Objects, name)
  | InputObjectTypeDefinition name _ _ => Some (Inputs, name)
  | ScalarTypeDefinition name _ => Some (Scalars, name)
  | EnumTypeDefinition name _ _ => Some (Enums, name)
  | InterfaceTypeDefinition name _ _ => Some (Interfaces, name)
  | UnionTypeDefinition name _ _ => Some (Unions, name)
  | OtherDefinition _ => None
  end.

(** The bucket and own key a definition ends under: the assignment to the
    key [__proto__] creates no own property. *)
Definition assigned (def : DefinitionNode) : option (Bucket * string) :=
  match target def with
  | Some (b, n) => if String.eqb n "__proto__" then None else Some (b, n)
  | None => None
  end.

(** The value the [switch] assigns for a definition. *)
Definition entryOf (tm : gmap string string) (def : DefinitionNode) : option Entry :=
  match def with
  | ObjectTypeDefinition name fields description =>
      Some (TypeEntry
        {| td_kind := Kind.OBJECT_TYPE_DEFINITION; td_name := name;
           td_fields := Js.mapOrEmpty (fieldInfoOf tm Kind.OBJECT_TYPE_DEFINITION) fields;
           td_description := description |})
  | InputObjectTypeDefinition name fields description =>
      Some (TypeEntry
        {| td_kind := Kind.INPUT_OBJECT_TYPE_DEFINITION; td_name := name;
           td_fields :=
             Js.mapOrEmpty (inputFieldInfoOf tm Kind.INPUT_OBJECT_TYPE_DEFINITION) fields;
           td_description := description |})
  | ScalarTypeDefinition name description =>
      Some (TypeEntry
        {| td_kind := Kind.SCALAR_TYPE_DEFINITION; td_name := name;
           td_fields := []; td_description := description |})
  | EnumTypeDefinition name values description =>
      Some (EnumEntry
        {| en_kind := Kind.ENUM_TYPE_DEFINITION; en_name := name;
           en_values := Js.orEmpty values; en_description := description |})
  | InterfaceTypeDefinition name fields description =>
      Some (InterfaceEntry
        {| if_kind := Kind.INTERFACE_TYPE_DEFINITION; if_name := name;
           if_fields :=
             Js.mapOrEmpty (fieldInfoOf tm Kind.INTERFACE_TYPE_DEFINITION) fields;
           if_description := description |})
  | UnionTypeDefinition name types description =>
      Some (UnionEntry
        {| un_kind := Kind.UNION_TYPE_DEFINITION; un_name := name;
           un_types := Js.orEmpty types; un_description := description |})
  | OtherDefinition _ => None
  end.

(** The bucket an entry belongs to, read off its constructor and kind tag. *)
Definition bucketOfEntry (e : Entry) : Bucket :=
  match e with
  | TypeEntry info =>
      if String.eqb (td_kind info) Kind.OBJECT_TYPE_DEFINITION then Objects
      else if String.eqb (td_kind info) Kind.INPUT_OBJECT_TYPE_DEFINITION then Inputs
      else Scalars
  | EnumEntry _ => Enums
  | InterfaceEntry _ => Interfaces
  | UnionEntry _ => Unions
  end.

(** A definition of one of the six kinds. *)
Definition recognized (def : DefinitionNode) : bool :=
  match target def with
  | Some _ => true
  | None => false
  end.

(** [type A { x: Int }  type A { y: Int }]: the name A is defined twice. *)
Definition firstA : DefinitionNode :=
  ObjectTypeDefinition "A"
    (Some [ {| fd_name := "x"; fd_arguments := Some [];
               fd_type := NamedType "Int"; fd_description := None |} ]) None.

Definition secondA : DefinitionNode :=
  ObjectTypeDefinition "A"
    (Some [ {| fd_name := "y"; fd_arguments := Some [];
               fd_type := NamedType "Int"; fd_description := None |} ]) None.

Definition duplicateDocument : DocumentNode := [firstA; secondA].

(** [schema { query: Query }  enum Role { ADMIN USER }  directive @d on FIELD
    type A { y: Int }  union U = A]. *)
Definition mixedDocument : DocumentNode :=
  [ OtherDefinition "SchemaDefinition";
    EnumTypeDefinition "Role" (Some ["ADMIN"; "USER"]) None;
    OtherDefinition "DirectiveDefinition";
    secondA;
    UnionTypeDefinition "U" (Some ["A"]) None ].

(** [type Query]: a root object type without fields. *)
Definition bareQueryDocument : DocumentNode :=
  [ ObjectTypeDefinition "Query" (Some []) None ].

(** ** Sample collaborators for the loader *)

(** A file system holding only [schema.graphql], whose text is [type {]. *)
Definition onlySchemaExists (path : string) : bool :=
  String.eqb path "schema.graphql".

Definition readBrokenSchema (path : string) : Loader.Thrown + string :=
  if String.eqb path "schema.graphql" then inr "type {"
  else inl (Loader.ErrorValue "Error" "ENOENT: no such file or directory").

(** A parser that rejects [type {] with a GraphQLError and accepts the
    empty text. *)
Definition rejectingParse (source : string) : Loader.Thrown + DocumentNode :=
  if String.eqb source "" then inr []
  else inl (Loader.ErrorValue "GraphQLError" "Syntax Error: Expected Name, found {.").

(** A scalar map in which a mapped name is itself a key:
    [updateScalarTypeMap({ Stamp: 'Date', Date: 'string' })] on an empty
    map. *)
Definition chainedMap : gmap string string :=
  <["Stamp" := "Date"]> (<["Date" := "string"]> ∅).

(** ** Observations on bucket entries and keys *)

(** The kind tag the [switch] writes into the entries of a bucket. *)
Definition bucketKind (b : Bucket) : string :=
  match b with
  | Objects => Kind.OBJECT_TYPE_DEFINITION
  | Inputs => Kind.INPUT_OBJECT_TYPE_DEFINITION
  | Scalars => Kind.SCALAR_TYPE_DEFINITION
  | Enums => Kind.ENUM_TYPE_DEFINITION
  | Interfaces => Kind.INTERFACE_TYPE_DEFINITION
  | Unions => Kind.UNION_TYPE_DEFINITION
  end.

(** The [name], [kind] and [fields] properties of an entry (enum and union
    entries have no [fields]). *)
Definition entryName (e : Entry) : string :=
  match e with
  | TypeEntry info => td_name info
  | EnumEntry info => en_name info
  | InterfaceEntry info => if_name info
  | UnionEntry info => un_name info
  end.

Definition entryKind (e : Entry) : string :=
  match e with
  | TypeEntry info => td_kind info
  | EnumEntry info => en_kind info
  | InterfaceEntry info => if_kind info
  | UnionEntry info => un_kind info
  end.

Definition entryFields (e : Entry) : list FieldInfo :=
  match e with
  | TypeEntry info => td_fields info
  | InterfaceEntry info => if_fields info
  | EnumEntry _ | UnionEntry _ => []
  end.

(** [Object.keys(result.<bucket>)] *)
Definition bucket_keys (m : ExtendedTypeMap) (b : Bucket) : list string :=
  match b with
  | Objects => obj_keys (objects m)
  | Inputs => obj_keys (inputs m)
  | Scalars => obj_keys (scalars m)
  | Enums => obj_keys (enums m)
  | Interfaces => obj_keys (interfaces m)
  | Unions => obj_keys (unions m)
  end.

(** The names, in document order and with repetitions, of the definitions
    that leave an own key in bucket [b]. *)
Definition namesFor (b : Bucket) (document : DocumentNode) : list string :=
  flat_map (fun def =>
              match assigned def with
              | Some (b', n) => if decide (b' = b) then [n] else []
              | None => []
              end) document.

(** A list without the later repetitions of its elements. *)
Fixpoint firstOccurrences (l : list string) : list string :=
  match l with
  | [] => []
  | x :: l' => x :: List.filter (fun y => negb (String.eqb x y)) (firstOccurrences l')
  end.

(** [keys.includes(k)] *)
Definition hasKey (keys : list string) (k : string) : bool :=
  existsb (fun k' => String.eqb k' k) keys.

(** The key list after an assignment to [k]. *)
Definition addKey (keys : list string) (k : string) : list string :=
  if hasKey keys k then keys else (keys ++ [k])%list.

(** A definition generateAll has a unit for: every recognized kind but the
    scalar one. *)
Definition rendered (def : DefinitionNode) : bool :=
  match target def with
  | Some (Scalars, _) => false
  | Some _ => true
  | None => false
  end.

(** Agreement on the five buckets generateAll renders. *)
Definition sameRendered (m m' : ExtendedTypeMap) : Prop :=
  objects m = objects m' /\ inputs m = inputs m' /\ enums m = enums m'
  /\ interfaces m = interfaces m' /\ unions m = unions m'.

(** A file system in which every path exists and no file can be read. *)
Definition everythingExists (path : string) : bool := true.

Definition readDenied (path : string) : Loader.Thrown + string :=
  inl (Loader.ErrorValue "Error" "EACCES: permission denied").

(** The own key and the value parseTypeDefinitions leaves for a definition;
    none for the kinds it skips. *)
Definition typeDefinitionOf (tm : gmap string string) (def : DefinitionNode)
  : option (string * TypeDefinitionInfo) :=
  match assigned def, entryOf tm def with
  | Some (Objects, n), Some (TypeEntry info)
  | Some (Inputs, n), Some (TypeEntry info)
  | Some (Scalars, n), Some (TypeEntry info) => Some (n, info)
  | _, _ => None
  end.

(** The three buckets parseTypeDefinitions merges into one object. *)
Definition isTypeBucket (b : Bucket) : bool :=
  match b with
  | Objects | Inputs | Scalars => true
  | _ => false
  end.

(** [type A { y: Int }  scalar A]: an object and a scalar share a name. *)
Definition sharedNameDocument : DocumentNode :=
  [ secondA; ScalarTypeDefinition "A" None ].

(** What the single map and the six buckets have in common after the same
    definitions. *)
Definition typeMapsAgree (typeMaps : JsObj TypeDefinitionInfo)
    (m : ExtendedTypeMap) : Prop :=
  forall n : string,
    match obj_get typeMaps n with
    | Some info =>
        bucket_get m (bucketOfEntry (TypeEntry info)) n = Some (TypeEntry info)
        /\ isTypeBucket (bucketOfEntry (TypeEntry info)) = true
    | None =>
        forall b, isTypeBucket b = true -> bucket_get m b n = None
    end.

(** ** The first release of the extractor

    The earlier index.ts reads [def?.fields.forEach(...)] and
    [selection?.arguments.map(...)] without a fallback: an absent field
    list or argument list is a TypeError, which ends the call.  [None] is
    that exception. *)

Module V1.

Definition operationOf (tm : gmap string string) (selection : FieldDefinitionNode)
  : option OperationField :=
  match fd_arguments selection with
  | Some arguments =>
      Some {| op_name := fd_name selection;
              op_args := List.map (argOf tm) arguments;
              op_returnType := getTypeName tm (fd_type selection) |}
  | None => None
  end.

(** One step of [fields.forEach]. *)
Definition pushSelection (tm : gmap string string) (operationType : string)
    (acc : option OperationsMap) (selection : FieldDefinitionNode)
  : option OperationsMap :=
  match acc with
  | Some operations =>
      match operationOf tm selection with
      | Some field => Some (obj_push operations operationType field)
      | None => None
      end
  | None => None
  end.

(** One step of [document.definitions.forEach]. *)
Definition parseOperations_def (tm : gmap string string)
    (acc : option OperationsMap) (def : DefinitionNode) : option OperationsMap :=
  match acc with
  | Some operations =>
      match def with
      | ObjectTypeDefinition name fields _ =>
          if isOperationType name then
            match fields with
            | Some fs => fold_left (pushSelection tm name) fs (Some operations)
            | None => None
            end
          else Some operations
      | _ => Some operations
      end
  | None => None
  end.

Definition parseOperations (tm : gmap string string) (document : DocumentNode)
  : option OperationsMap :=
  fold_left (parseOperations_def tm) document (Some emptyOperations).

End V1.

(** A root definition the first release cannot process: its field list or
    the argument list of one of its fields is absent. *)
Definition lacksArguments (f : FieldDefinitionNode) : bool :=
  match fd_arguments f with
  | Some _ => false
  | None => true
  end.

Definition incompleteRoot (def : DefinitionNode) : bool :=
  match def with
  | ObjectTypeDefinition name fields _ =>
      isOperationType name
      && match fields with
         | Some fs => existsb lacksArguments fs
         | None => true
         end
  | _ => false
  end.

(** ** Documents that reach Object.prototype *)

(** [type A { x: constructor }]: the field type is a name every object
    inherits. *)
Definition constructorDocument : DocumentNode :=
  [ ObjectTypeDefinition "A"
      (Some [ {| fd_name := "x"; fd_arguments := Some [];
                 fd_type := NamedType "constructor"; fd_description := None |} ])
      None ].

(** [type __proto__ { x: Int }] *)
Definition protoDocument : DocumentNode :=
  [ ObjectTypeDefinition "__proto__"
      (Some [ {| fd_name := "x"; fd_arguments := Some [];
                 fd_type := NamedType "Int"; fd_description := None |} ])
      None ].

(** A definition that leaves an own key in one of the five buckets
    generateAll renders. *)
Definition emitting (def : DefinitionNode) : bool :=
  match assigned def with
  | Some (Scalars, _) => false
  | Some _ => true
  | None => false
  end.

(** Every type generateAll passes to getTypeScriptType is a string: the
    field types kept in the object, input and interface buckets, and the
    argument and return types of the root fields. *)
Definition stringFields (fields : list FieldInfo) : bool :=
  forallb (fun f => isString (fi_type f)) fields.

Definition stringSignature (f : OperationField) : bool :=
  forallb (fun a => isString (arg_type a)) (op_args f)
  && isString (op_returnType f).

Definition stringTyped (tm : gmap string string) (document : DocumentNode) : bool :=
  let extendedTypes := parseExtendedTypes tm document in
  let operations := parseOperations tm document in
  forallb (fun info => stringFields (td_fields info))
          (obj_values (objects extendedTypes))
  && forallb (fun info => stringFields (td_fields info))
             (obj_values (inputs extendedTypes))
  && forallb (fun info => stringFields (if_fields info))
             (obj_values (interfaces extendedTypes))
  && forallb (fun entry => forallb stringSignature (snd entry))
             (obj_entries operations).

(** ** Lines of an emitted text *)

(** [text.split('\n')] *)
Fixpoint splitLines (text : string) : list string :=
  match text with
  | EmptyString => [""]
  | String c rest =>
      if Ascii.eqb c (ascii_of_nat 10) then "" :: splitLines rest
      else match splitLines rest with
           | line :: lines => String c line :: lines
           | [] => [String c ""]
           end
  end.

(** A string without a line feed. *)
Definition singleLine (s : string) : bool := negb (Js.includes s nl).

(** The number of lines of a text that open an interface declaration. *)
Definition interfaceHeaders (text : string) : nat :=
  List.length (List.filter isInterfaceHeader (splitLines text)).

(** Options whose prefix spans two lines. *)
Definition twoLinePrefixOptions : GenerateOptions :=
  prefixOptions ("I" ++ nl ++ "export interface J").

(** ** Outcomes *)

(** [r] returns when [b] holds and throws [e] otherwise. *)
Definition returnsWhen {A : Type} (b : bool) (e : JsError) (r : Result A) : Prop :=
  if b then exists a, r = Ok a else r = Err e.

(** The exception of [type.endsWith(...)] on a value without the method. *)
Definition endsWithError : JsError := NotAFunction "type.endsWith".

(** A definition that leaves an own key in some bucket. *)
Definition leavesKey (def : DefinitionNode) : bool :=
  match assigned def with
  | Some _ => true
  | None => false
  end.

(** The initial map after [updateScalarTypeMap({ constructor: 'Ctor' })]. *)
Definition constructorMap : gmap string string :=
  <["constructor" := "Ctor"]> typeMap.

(** * Properties *)

(** ** Results *)

Lemma bind_Ok {A B : Type} (r : Result A) (k : A -> Result B) (b : B) :
  bind r k = Ok b <-> exists a, r = Ok a /\ k a = Ok b.
Proof.
  destruct r as [a | e]; cbn [bind]; split.
  - intros H. now exists a.
  - now intros (a' & [= <-] & H).
  - discriminate.
  - now intros (a' & [=] & _).
Qed.

Lemma bind_Err {A B : Type} (r : Result A) (k : A -> Result B) (e : JsError) :
  bind r k = Err e <-> r = Err e \/ exists a, r = Ok a /\ k a = Err e.
Proof.
  destruct r as [a | e']; cbn [bind]; split.
  - intros H. right. now exists a.
  - intros [[=] | (a' & [= <-] & H)]. exact H.
  - intros [= <-]. now left.
  - intros [[= <-] | (a' & [=] & _)]. reflexivity.
Qed.

Lemma mapM_Ok {A B : Type} (f : A -> Result B) (l : list A) (ys : list B) :
  mapM f l = Ok ys <-> Forall2 (fun x y => f x = Ok y) l ys.
Proof.
  revert ys. induction l as [|x l IH]; intros ys; cbn [mapM].
  - split.
    + intros [= <-]. constructor.
    + intros H. inversion H. reflexivity.
  - rewrite bind_Ok. split.
    + intros (y & Hy & H). apply bind_Ok in H as (ys' & Hys & [= <-]).
      constructor; [exact Hy | now apply IH].
    + intros H. inversion H as [| x' y l' ys' Hy Hys]; subst.
      exists y. split; [exact Hy |]. apply bind_Ok.
      exists ys'. split; [now apply IH | reflexivity].
Qed.

Lemma mapM_Ok_length {A B : Type} (f : A -> Result B) (l : list A) (ys : list B) :
  mapM f l = Ok ys -> List.length ys = List.length l.
Proof. intros H. apply mapM_Ok in H. symmetry. exact (Forall2_length _ _ _ H). Qed.

Lemma mapM_app {A B : Type} (f : A -> Result B) (l l' : list A) :
  mapM f (l ++ l')%list
  = let! ys := mapM f l in let! ys' := mapM f l' in Ok (ys ++ ys')%list.
Proof.
  induction l as [|x l IH]; cbn [mapM app bind].
  - destruct (mapM f l'); reflexivity.
  - destruct (f x) as [y | e]; cbn [bind]; [| reflexivity].
    rewrite IH. destruct (mapM f l) as [ys | e]; cbn [bind]; [| reflexivity].
    destruct (mapM f l'); reflexivity.
Qed.

(** ** Strings *)

Lemma append_cons (c : ascii) (s t : string) :
  String c s ++ t = String c (s ++ t).
Proof. reflexivity. Qed.

Lemma append_empty_r (s : string) : s ++ "" = s.
Proof.
  induction s as [|c s IH]; [reflexivity |].
  now rewrite append_cons, IH.
Qed.

Lemma append_assoc (a b c : string) : (a ++ b) ++ c = a ++ (b ++ c).
Proof.
  induction a as [|x a IH]; [reflexivity |].
  now rewrite !append_cons, IH.
Qed.

Lemma get_append_r (a b : string) (n : nat) :
  String.get (String.length a + n) (a ++ b) = String.get n b.
Proof.
  induction a as [|x a IH]; [reflexivity |].
  rewrite append_cons. simpl. exact IH.
Qed.

Lemma brackets_snoc (n : nat) : brackets n ++ "[]" = brackets (S n).
Proof.
  induction n as [|n IH]; [reflexivity |].
  change (brackets (S n)) with ("[]" ++ brackets n).
  rewrite append_assoc, IH. reflexivity.
Qed.

Lemma length_substring_le (m : nat) (s : string) :
  (String.length (substring 0 m s) <= m)%nat.
Proof.
  revert s. induction m as [|m IH]; intros [|c s]; simpl; try lia.
  specialize (IH s). lia.
Qed.

Lemma endsWith_length (s suffix : string) :
  Js.endsWith s suffix = true -> (String.length suffix <= String.length s)%nat.
Proof.
  unfold Js.endsWith. intros H. apply andb_true_iff in H as [H _].
  now apply Nat.leb_le in H.
Qed.

Lemma slice_end_shorter (s : string) :
  Js.endsWith s "[]" = true ->
  (String.length (Js.slice_end s 2) < String.length s)%nat.
Proof.
  intros H. apply endsWith_length in H. simpl in H.
  unfold Js.slice_end.
  pose proof (length_substring_le (String.length s - 2) s). lia.
Qed.

(** ** getTypeScriptType: the bound on the recursion is never exhausted *)

Lemma getTypeScriptType_rec_enough (tm : gmap string string)
    (options : GenerateOptions) (n m : nat) :
  forall type : string,
    (String.length type < n)%nat -> (String.length type < m)%nat ->
    getTypeScriptType_rec n tm type options
    = getTypeScriptType_rec m tm type options.
Proof.
  revert m. induction n as [|n IH]; intros m type Hn Hm; [lia |].
  destruct m as [|m]; [lia |]. simpl.
  destruct (Js.endsWith type "[]") eqn:E; [| reflexivity].
  pose proof (slice_end_shorter type E).
  do 3 f_equal. apply IH; lia.
Qed.

(** The defining equation of the source function on a string. *)
Lemma getTypeScriptType_eq (tm : gmap string string) (type : string)
    (options : GenerateOptions) :
  getTypeScriptType tm type options
  = if Js.endsWith type "[]" then
      let! inner := getTypeScriptType tm (Js.slice_end type 2) options in
      Ok (JsString (Js.toString inner ++ "[]"))
    else Ok (Js.or_value (Js.get tm type) (formatTypeName type options)).
Proof.
  unfold getTypeScriptType. cbv beta iota.
  change (getTypeScriptType_rec (S (String.length type)) tm type options)
    with (if Js.endsWith type "[]" then
            JsString (Js.toString (getTypeScriptType_rec (String.length type) tm
                                     (Js.slice_end type 2) options) ++ "[]")
          else Js.or_value (Js.get tm type) (formatTypeName type options)).
  destruct (Js.endsWith type "[]") eqn:E; [| reflexivity].
  pose proof (slice_end_shorter type E). cbn [bind].
  do 4 f_equal. apply getTypeScriptType_rec_enough; lia.
Qed.

(** On a string the call returns; on anything else [type.endsWith] is not a
    function. *)
Lemma getTypeScriptType_returns (tm : gmap string string) (type : JsValue)
    (options : GenerateOptions) :
  (exists v, getTypeScriptType tm type options = Ok v) <-> isString type = true.
Proof.
  destruct type as [s | name]; cbn [getTypeScriptType isString]; split;
    eauto; try discriminate. now intros (v & [=]).
Qed.

(** ** The type-name resolver *)

Lemma or_value_own (tm : gmap string string) (name : string) :
  reachesPrototype tm name = false ->
  Js.or_value (Js.get tm name) name = JsString (Js.or_else (tm !! name) name).
Proof.
  unfold reachesPrototype, Js.get, Js.or_value, Js.or_else.
  destruct (tm !! name) as [v |].
  - intros _. now destruct (Js.truthy v).
  - now intros ->.
Qed.

Lemma or_value_inherited (tm : gmap string string) (name d : string) :
  reachesPrototype tm name = true ->
  Js.or_value (Js.get tm name) d = JsInherited name.
Proof.
  unfold reachesPrototype, Js.get, Js.or_value.
  destruct (tm !! name) as [v |]; [discriminate |]. now intros ->.
Qed.

(** The text of a resolved reference, whatever the lookup finds. *)
Lemma getTypeName_text (tm : gmap string string) (type : TypeNode) :
  Js.toString (getTypeName tm type)
  = Js.toString (Js.or_value (Js.get tm (baseName type)) (baseName type))
      ++ brackets (listWrappers type).
Proof.
  induction type as [name | t IH | t IH]; cbn [getTypeName baseName listWrappers].
  - cbn [brackets]. now rewrite append_empty_r.
  - cbn [Js.toString] in *. rewrite IH, append_assoc. f_equal.
    apply (brackets_snoc (listWrappers t)).
  - exact IH.
Qed.

(** A wrapped reference resolves to a string. *)
Lemma getTypeName_wrapped (tm : gmap string string) (type : TypeNode) :
  (forall name, type <> NamedType name) ->
  getTypeName tm type = JsString (Js.toString (getTypeName tm type)).
Proof.
  destruct type as [name | t | t]; intros H; [now destruct (H name) | |];
    reflexivity.
Qed.

Lemma getTypeName_shape (tm : gmap string string) (type : TypeNode) :
  reachesPrototype tm (baseName type) = false ->
  getTypeName tm type
  = JsString (Js.or_else (tm !! baseName type) (baseName type)
              ++ brackets (listWrappers type)).
Proof.
  intros H.
  assert (Ht := getTypeName_text tm type).
  rewrite (or_value_own _ _ H) in Ht. cbn [Js.toString] in Ht.
  destruct type as [name | t | t].
  - cbn [getTypeName baseName listWrappers brackets] in *.
    rewrite (or_value_own _ _ H), append_empty_r. reflexivity.
  - rewrite getTypeName_wrapped by discriminate. now rewrite Ht.
  - rewrite getTypeName_wrapped by discriminate. now rewrite Ht.
Qed.

Example getTypeName_nested :
  getTypeName typeMap (NonNullType (ListType (NonNullType (NamedType "String"))))
  = "string[]".
Proof. vm_compute. reflexivity. Qed.

(** C1 (as amended).  For every type reference whose base name is an own
    key of the scalar map or is not a member of Object.prototype,
    getTypeName returns a base string followed by exactly
    [listWrappers type] copies of the list suffix, where the base string is
    the scalar-map entry of the base name when that entry exists and is not
    the empty string, and the base name itself when there is no entry or
    the entry is empty; two references with the same base name and the same
    number of list wrappers resolve to the same string, whatever their
    non-null wrappers. *)
Theorem getTypeName_wrappers (tm : gmap string string) (type : TypeNode) :
  reachesPrototype tm (baseName type) = false ->
  (exists base : string,
      getTypeName tm type = JsString (base ++ brackets (listWrappers type))
      /\ (forall v, tm !! baseName type = Some v -> v <> "" -> base = v)
      /\ (tm !! baseName type = None \/ tm !! baseName type = Some "" ->
          base = baseName type))
  /\ (forall type' : TypeNode,
        baseName type' = baseName type ->
        listWrappers type' = listWrappers type ->
        getTypeName tm type' = getTypeName tm type).
Proof.
  intros Hown. split.
  - exists (Js.or_else (tm !! baseName type) (baseName type)).
    split; [now apply getTypeName_shape |]. split.
    + intros v Hv Hne. rewrite Hv. unfold Js.or_else, Js.truthy.
      destruct (String.eqb_spec v ""); [contradiction | reflexivity].
    + intros [H | H]; rewrite H; reflexivity.
  - intros type' Hb Hl.
    rewrite (getTypeName_shape tm type Hown).
    rewrite (getTypeName_shape tm type') by now rewrite Hb.
    now rewrite Hb, Hl.
Qed.

(** The amended statement at [[String!]!] and [[String]] under the initial
    map. *)
Lemma getTypeName_wrappers_witness :
  getTypeName typeMap (NonNullType (ListType (NonNullType (NamedType "String"))))
  = getTypeName typeMap (ListType (NamedType "String")).
Proof.
  apply (proj2 (getTypeName_wrappers typeMap (ListType (NamedType "String"))
                  eq_refl)
               (NonNullType (ListType (NonNullType (NamedType "String")))));
    reflexivity.
Defined.

(** C1 as stated fails when an entry is the empty string: after
    [updateScalarTypeMap({ X: '' })] the entry of [X] exists, yet a list of
    [X] resolves to the base name followed by the suffix, not to the entry
    followed by the suffix. *)
Lemma getTypeName_empty_entry_counterexample :
  let tm := <["X" := ""]> typeMap in
  tm !! "X" = Some ""
  /\ reachesPrototype tm "X" = false
  /\ getTypeName tm (ListType (NamedType "X")) = "X[]"
  /\ Js.toString (getTypeName tm (ListType (NamedType "X")))
     <> scalarEntryOr tm (baseName (ListType (NamedType "X")))
          ++ brackets (listWrappers (ListType (NamedType "X"))).
Proof.
  vm_compute. repeat split; discriminate.
Qed.

(** ** Field declarations and the optional marker *)

Lemma truthyb_true (b : option bool) : Js.truthyb b = true <-> b = Some true.
Proof. destruct b as [[|]|]; simpl; split; congruence. Qed.

(** The rendering of a field whose type is a string. *)
Lemma generateFieldDeclaration_string (tm : gmap string string)
    (field : FieldInfo) (options : GenerateOptions) (s : string) :
  fi_type field = JsString s ->
  exists tsType : JsValue,
    getTypeScriptType tm s options = Ok tsType
    /\ generateFieldDeclaration tm field options
       = Ok ("  " ++ fi_name field
             ++ (if negb (Js.includes s "!") && Js.truthyb (strictNullChecks options)
                 then "?" else "")
             ++ ": " ++ Js.toString tsType ++ ";").
Proof.
  intros Hs. unfold generateFieldDeclaration. rewrite Hs.
  eexists. split; reflexivity.
Qed.

Lemma generateFieldDeclaration_inherited (tm : gmap string string)
    (field : FieldInfo) (options : GenerateOptions) :
  isString (fi_type field) = false ->
  generateFieldDeclaration tm field options = Err (NotAFunction "type.endsWith").
Proof.
  unfold generateFieldDeclaration.
  destruct (fi_type field); [discriminate | reflexivity].
Qed.

(** C2.  A field whose type is a string is rendered as two spaces, the
    field name, a marker, a colon and the type; the marker is the question
    mark exactly when strictNullChecks is true and the flattened type has
    no exclamation mark, and is empty otherwise, so the character right
    after the name is the question mark exactly in that case; a field whose
    type is not a string is not rendered, the call throws.  The bodies of
    the object or input declaration and of the interface declaration are
    the line-feed joins of these field renderings, and a field that throws
    makes the declaration throw.  For [type A { tags: [String!]! }] with
    strictNullChecks the flattened type is [string[]] and the field is
    rendered as [tags?: string[];] inside the interface of types.ts. *)
Theorem generateFieldDeclaration_optional :
  (forall (tm : gmap string string) (field : FieldInfo) (options : GenerateOptions),
      (forall s : string, fi_type field = JsString s ->
         exists (marker : string) (tsType : JsValue) (text : string),
           getTypeScriptType tm (fi_type field) options = Ok tsType
           /\ generateFieldDeclaration tm field options = Ok text
           /\ text = "  " ++ fi_name field ++ marker ++ ": "
                       ++ Js.toString tsType ++ ";"
           /\ (marker = "?" \/ marker = "")
           /\ (marker = "?" <->
               strictNullChecks options = Some true
               /\ Js.includes s "!" = false)
           /\ (String.get (2 + String.length (fi_name field)) text
               = Some "?"%char <->
               strictNullChecks options = Some true
               /\ Js.includes s "!" = false))
      /\ (isString (fi_type field) = false ->
          generateFieldDeclaration tm field options
          = Err (NotAFunction "type.endsWith")))
  /\ (forall (tm : gmap string string) (info : TypeDefinitionInfo)
             (options : GenerateOptions),
        td_kind info <> Kind.SCALAR_TYPE_DEFINITION ->
        (forall lines : list string,
           mapM (fun f => generateFieldDeclaration tm f options) (td_fields info)
           = Ok lines ->
           generateTypeDefinition tm info options
           = Ok (("export interface " ++ formatTypeName (td_name info) options ++ " {")
                 ++ nl ++ Js.join nl lines ++ nl ++ "}"))
        /\ (forall e : JsError,
              mapM (fun f => generateFieldDeclaration tm f options) (td_fields info)
              = Err e ->
              generateTypeDefinition tm info options = Err e))
  /\ (forall (tm : gmap string string) (info : InterfaceTypeInfo)
             (options : GenerateOptions),
        (forall lines : list string,
           mapM (fun f => generateFieldDeclaration tm f options) (if_fields info)
           = Ok lines ->
           exists opening closing : string,
             generateInterfaceDeclaration tm info options
             = Ok (opening ++ nl ++ Js.join nl lines ++ nl ++ closing))
        /\ (forall e : JsError,
              mapM (fun f => generateFieldDeclaration tm f options) (if_fields info)
              = Err e ->
              generateInterfaceDeclaration tm info options = Err e))
  /\ List.map td_fields (obj_values (objects (parseExtendedTypes typeMap tagsDocument)))
     = [ [ {| fi_kind := Kind.OBJECT_TYPE_DEFINITION; fi_name := "tags";
              fi_type := "string[]"; fi_description := None |} ] ]
  /\ generateAll typeMap tagsDocument strictOptions
     = Ok [ {| filename := "types.ts";
               content :=
                 Js.join nl [ "/* Auto-generated by koatty-graphql */"; "";
                              "// Type Definitions"; "";
                              "export interface A {";
                              "  tags?: string[];";
                              "}"; "" ] |} ].
Proof.
  split; [| split; [| split; [| split; vm_compute; reflexivity]]].
  2: { intros tm info options Hk. unfold generateTypeDefinition.
       destruct (String.eqb_spec (td_kind info) Kind.SCALAR_TYPE_DEFINITION);
         [contradiction |].
       split.
       - intros lines ->. cbn [bind]. now rewrite !append_assoc.
       - intros e ->. reflexivity. }
  2: { intros tm info options. unfold generateInterfaceDeclaration. split.
       - intros lines ->. cbn [bind].
         destruct (Js.truthyb (useInterfaceType options)).
         + exists ("export interface " ++ formatTypeName (if_name info) options ++ " {"),
             "}".
           now rewrite !append_assoc.
         + exists ("export type " ++ formatTypeName (if_name info) options ++ " = {"),
             "};".
           now rewrite !append_assoc.
       - intros e ->. reflexivity. }
  intros tm field options.
  split; [| apply generateFieldDeclaration_inherited].
  intros s Hs.
  assert (Hcond :
    negb (Js.includes s "!") && Js.truthyb (strictNullChecks options) = true
    <-> strictNullChecks options = Some true /\ Js.includes s "!" = false).
  { rewrite andb_true_iff, negb_true_iff, truthyb_true. tauto. }
  destruct (generateFieldDeclaration_string tm field options s Hs)
    as (tsType & Hts & Hgen).
  rewrite Hs.
  destruct (negb (Js.includes s "!")
            && Js.truthyb (strictNullChecks options)) eqn:E.
  - exists "?", tsType. eexists. split; [exact Hts |]. split; [exact Hgen |].
    split; [reflexivity |]. split; [now left |].
    split; [tauto |].
    change (2 + String.length (fi_name field))%nat
      with (String.length "  " + String.length (fi_name field))%nat.
    rewrite get_append_r.
    rewrite <- (Nat.add_0_r (String.length (fi_name field))), get_append_r.
    simpl. tauto.
  - exists "", tsType. eexists. split; [exact Hts |]. split; [exact Hgen |].
    split; [reflexivity |]. split; [now right |].
    split.
    + split; [discriminate |]. intros H. apply Hcond in H. discriminate.
    + change (2 + String.length (fi_name field))%nat
        with (String.length "  " + String.length (fi_name field))%nat.
      rewrite get_append_r.
      rewrite <- (Nat.add_0_r (String.length (fi_name field))), get_append_r.
      simpl. split; [discriminate |]. intros H. apply Hcond in H. discriminate.
Qed.

(** The statement at the [tags] field with strictNullChecks: the marker is
    present. *)
Lemma generateFieldDeclaration_optional_witness :
  exists text : string,
    generateFieldDeclaration typeMap
      {| fi_kind := Kind.OBJECT_TYPE_DEFINITION; fi_name := "tags";
         fi_type := "string[]"; fi_description := None |} strictOptions
    = Ok text
    /\ String.get (2 + String.length "tags") text = Some "?"%char.
Proof.
  destruct (proj1 (proj1 generateFieldDeclaration_optional typeMap
              {| fi_kind := Kind.OBJECT_TYPE_DEFINITION; fi_name := "tags";
                 fi_type := "string[]"; fi_description := None |} strictOptions)
              "string[]" eq_refl)
    as (marker & tsType & text & _ & Hgen & _ & _ & _ & Hpos).
  exists text. split; [exact Hgen |].
  apply Hpos. split; reflexivity.
Defined.

(** ** Name formatting of resolved primitives *)

Lemma getTypeScriptType_unmapped (tm : gmap string string) (type : string)
    (options : GenerateOptions) :
  Js.endsWith type "[]" = false -> Js.get tm type = None ->
  getTypeScriptType tm type options = Ok (JsString (formatTypeName type options)).
Proof.
  intros He Hm. rewrite getTypeScriptType_eq, He, Hm. reflexivity.
Qed.

(** C3 (behaviour of the code where it departs from the claim).  Under the
    initial scalar map the resolver turns String into [string], and the
    renderer then looks the already resolved name up among the keys of the
    scalar map, where it is absent: every resolved primitive is name
    formatted like a user type.  With the prefix [I] the field
    [name: String] is rendered as [name: Istring;]. *)
Theorem getTypeScriptType_formats_primitives :
  (forall options : GenerateOptions,
      getTypeScriptType typeMap "string" options
      = Ok (JsString (formatTypeName "string" options))
      /\ getTypeScriptType typeMap "number" options
         = Ok (JsString (formatTypeName "number" options))
      /\ getTypeScriptType typeMap "boolean" options
         = Ok (JsString (formatTypeName "boolean" options)))
  /\ getTypeName typeMap (NamedType "String") = "string"
  /\ getTypeScriptType typeMap "string" (prefixOptions "I") = Ok (JsString "Istring")
  /\ generateAll typeMap userDocument (prefixOptions "I")
     = Ok [ {| filename := "types.ts";
               content :=
                 Js.join nl [ "/* Auto-generated by koatty-graphql */"; "";
                              "// Type Definitions"; "";
                              "export interface IUser {";
                              "  name: Istring;";
                              "}"; "" ] |} ].
Proof.
  split; [| repeat split; vm_compute; reflexivity].
  intros options.
  repeat split; apply getTypeScriptType_unmapped; vm_compute; reflexivity.
Qed.

(** ** The operation extractor *)

Lemma isOperationType_cases (name : string) :
  isOperationType name = true ->
  name = "Query" \/ name = "Mutation" \/ name = "Subscription".
Proof.
  unfold isOperationType, operationTypes. simpl.
  rewrite !orb_true_iff, !String.eqb_eq. intuition discriminate.
Qed.

Lemma isOperationType_false (name : string) :
  isOperationType name = false ->
  name <> "Query" /\ name <> "Mutation" /\ name <> "Subscription".
Proof.
  unfold isOperationType, operationTypes. simpl.
  rewrite !orb_false_iff, !String.eqb_neq. intuition discriminate.
Qed.

Lemma push_fields_Query (g : FieldDefinitionNode -> OperationField)
    (fs : list FieldDefinitionNode) (q m s : list OperationField) :
  fold_left (fun ops field => obj_push ops "Query" (g field)) fs (operationsOf q m s)
  = operationsOf (q ++ List.map g fs)%list m s.
Proof.
  revert q. induction fs as [|f fs IH]; intros q; simpl.
  - now rewrite List.app_nil_r.
  - change (obj_push (operationsOf q m s) "Query" (g f))
      with (operationsOf (q ++ [g f])%list m s).
    rewrite IH, <- List.app_assoc. reflexivity.
Qed.

Lemma push_fields_Mutation (g : FieldDefinitionNode -> OperationField)
    (fs : list FieldDefinitionNode) (q m s : list OperationField) :
  fold_left (fun ops field => obj_push ops "Mutation" (g field)) fs (operationsOf q m s)
  = operationsOf q (m ++ List.map g fs)%list s.
Proof.
  revert m. induction fs as [|f fs IH]; intros m; simpl.
  - now rewrite List.app_nil_r.
  - change (obj_push (operationsOf q m s) "Mutation" (g f))
      with (operationsOf q (m ++ [g f])%list s).
    rewrite IH, <- List.app_assoc. reflexivity.
Qed.

Lemma push_fields_Subscription (g : FieldDefinitionNode -> OperationField)
    (fs : list FieldDefinitionNode) (q m s : list OperationField) :
  fold_left (fun ops field => obj_push ops "Subscription" (g field)) fs
            (operationsOf q m s)
  = operationsOf q m (s ++ List.map g fs)%list.
Proof.
  revert s. induction fs as [|f fs IH]; intros s; simpl.
  - now rewrite List.app_nil_r.
  - change (obj_push (operationsOf q m s) "Subscription" (g f))
      with (operationsOf q m (s ++ [g f])%list).
    rewrite IH, <- List.app_assoc. reflexivity.
Qed.

Lemma parseOperations_def_step (tm : gmap string string)
    (q m s : list OperationField) (def : DefinitionNode) :
  parseOperations_def tm (operationsOf q m s) def
  = operationsOf (q ++ rootFieldsOf tm "Query" def)%list
                 (m ++ rootFieldsOf tm "Mutation" def)%list
                 (s ++ rootFieldsOf tm "Subscription" def)%list.
Proof.
  destruct def as [name fields d | | | | | | ];
    try (simpl; now rewrite !List.app_nil_r).
  unfold parseOperations_def, rootFieldsOf.
  destruct (isOperationType name) eqn:E.
  - apply isOperationType_cases in E as [-> | [-> | ->]]; simpl String.eqb; cbv iota.
    + rewrite push_fields_Query. now rewrite !List.app_nil_r.
    + rewrite push_fields_Mutation. now rewrite !List.app_nil_r.
    + rewrite push_fields_Subscription. now rewrite !List.app_nil_r.
  - apply isOperationType_false in E as (Hq & Hm & Hs).
    apply String.eqb_neq in Hq, Hm, Hs. rewrite Hq, Hm, Hs.
    now rewrite !List.app_nil_r.
Qed.

Lemma parseOperations_fold (tm : gmap string string) (document : DocumentNode) :
  forall q m s : list OperationField,
    fold_left (parseOperations_def tm) document (operationsOf q m s)
    = operationsOf (q ++ rootFields tm "Query" document)%list
                   (m ++ rootFields tm "Mutation" document)%list
                   (s ++ rootFields tm "Subscription" document)%list.
Proof.
  induction document as [|def document IH]; intros q m s; simpl.
  - now rewrite !List.app_nil_r.
  - rewrite parseOperations_def_step, IH, <- !List.app_assoc. reflexivity.
Qed.

(** The extractor computes the three root sequences of its contract. *)
Lemma parseOperations_roots (tm : gmap string string) (document : DocumentNode) :
  parseOperations tm document
  = operationsOf (rootFields tm "Query" document)
                 (rootFields tm "Mutation" document)
                 (rootFields tm "Subscription" document).
Proof. unfold parseOperations. apply (parseOperations_fold tm document [] [] []). Qed.

(** The three keys stay in place, so [operations[k].push] always finds its
    array. *)
Lemma parseOperations_keys (tm : gmap string string) (document : DocumentNode) :
  obj_keys (parseOperations tm document) = operationTypes.
Proof. rewrite parseOperations_roots. reflexivity. Qed.

Lemma rootFields_app (tm : gmap string string) (root : string)
    (pre post : DocumentNode) :
  rootFields tm root (pre ++ post)%list
  = (rootFields tm root pre ++ rootFields tm root post)%list.
Proof. unfold rootFields. apply flat_map_app. Qed.

Lemma parseOperations_get (tm : gmap string string) (document : DocumentNode)
    (root : string) :
  In root operationTypes ->
  obj_get (parseOperations tm document) root = Some (rootFields tm root document).
Proof.
  rewrite parseOperations_roots.
  intros [<- | [<- | [<- | []]]]; reflexivity.
Qed.

(** C5.  The extractor's result has exactly the keys Query, Mutation and
    Subscription, in that order, each an empty sequence for the empty
    document; the sequence under a root is the concatenation, in document
    order, of the fields of the object definitions named exactly that root
    (a definition that contributes a field to a root is an object
    definition carrying that name); extracting from [pre ++ post] appends
    the fields of [post] after those of [pre]; and a field whose argument
    list is absent or empty yields the empty argument sequence. *)
Theorem parseOperations_contract (tm : gmap string string) (document : DocumentNode) :
  obj_keys (parseOperations tm document) = ["Query"; "Mutation"; "Subscription"]
  /\ parseOperations tm [] = [("Query", []); ("Mutation", []); ("Subscription", [])]
  /\ (forall root : string,
        In root operationTypes ->
        obj_get (parseOperations tm document) root
        = Some (rootFields tm root document))
  /\ (forall (root : string) (def : DefinitionNode),
        rootFieldsOf tm root def <> [] ->
        exists fields description,
          def = ObjectTypeDefinition root fields description)
  /\ (forall (root : string) (pre post : DocumentNode),
        In root operationTypes ->
        exists before after : list OperationField,
          obj_get (parseOperations tm pre) root = Some before
          /\ obj_get (parseOperations tm post) root = Some after
          /\ obj_get (parseOperations tm (pre ++ post)%list) root
             = Some (before ++ after)%list)
  /\ (forall field : FieldDefinitionNode,
        fd_arguments field = None \/ fd_arguments field = Some [] ->
        op_args (operationFieldOf tm field) = []).
Proof.
  split; [apply parseOperations_keys |].
  split; [reflexivity |].
  split; [intros root; apply parseOperations_get |].
  split.
  { intros root [name fields d | | | | | | ] H; simpl in H; try congruence.
    destruct (String.eqb_spec name root) as [-> | _]; [eauto | congruence]. }
  split.
  { intros root pre post Hroot.
    exists (rootFields tm root pre), (rootFields tm root post).
    rewrite !parseOperations_get, rootFields_app by assumption. auto. }
  intros field [H | H]; unfold operationFieldOf; simpl; rewrite H; reflexivity.
Qed.

(** The contract at a document with two Query definitions: both contribute,
    in order, and the field without an argument list gets the empty
    sequence. *)
Lemma parseOperations_contract_witness :
  obj_get (parseOperations typeMap twoQueriesDocument) "Query"
  = Some [ {| op_name := "a"; op_args := []; op_returnType := "number" |};
           {| op_name := "b"; op_args := []; op_returnType := "string" |} ].
Proof.
  destruct (parseOperations_contract typeMap twoQueriesDocument)
    as (_ & _ & Hget & _).
  rewrite (Hget "Query"); [reflexivity | simpl; auto].
Defined.

(** ** The orchestrator *)

Lemma hasKeys_true {V : Type} (o : JsObj V) : hasKeys o = true <-> o <> [].
Proof.
  destruct o; unfold hasKeys; simpl; split; intros H; try discriminate;
    try reflexivity; congruence.
Qed.

Lemma hasKeys_false {V : Type} (o : JsObj V) : hasKeys o = false <-> o = [].
Proof.
  destruct o; unfold hasKeys; simpl; split; intros H; try discriminate;
    reflexivity.
Qed.

Lemma hasOperations_operationsOf (q m s : list OperationField) :
  hasOperations (operationsOf q m s) = true <-> q <> [] \/ m <> [] \/ s <> [].
Proof.
  destruct q, m, s; simpl; split; intros H; try reflexivity; try discriminate;
    try (now left); try (now right; left); try (now right; right);
    destruct H as [H | [H | H]]; congruence.
Qed.

Lemma hasOperations_parse (tm : gmap string string) (document : DocumentNode) :
  hasOperations (parseOperations tm document) = true <->
  exists (root : string) (fields : list OperationField),
    obj_get (parseOperations tm document) root = Some fields /\ fields <> [].
Proof.
  rewrite parseOperations_roots, hasOperations_operationsOf. split.
  - intros [H | [H | H]];
      [ exists "Query", (rootFields tm "Query" document)
      | exists "Mutation", (rootFields tm "Mutation" document)
      | exists "Subscription", (rootFields tm "Subscription" document) ];
      (split; [reflexivity | exact H]).
  - intros (root & fields & Hget & Hne).
    unfold operationsOf in Hget. cbn [obj_get] in Hget.
    destruct (String.eqb "Query" root);
      [left; injection Hget as <-; exact Hne |].
    destruct (String.eqb "Mutation" root);
      [right; left; injection Hget as <-; exact Hne |].
    destruct (String.eqb "Subscription" root);
      [right; right; injection Hget as <-; exact Hne |].
    discriminate.
Qed.

Lemma in_unitIf (cond : bool) (unit x : GenerateResult) :
  In x (unitIf cond unit) <-> cond = true /\ x = unit.
Proof.
  destruct cond; simpl; split; intros H.
  - destruct H as [H | []]. auto.
  - left. symmetry. apply H.
  - destruct H.
  - destruct H. discriminate.
Qed.

Lemma unitIf_ext (cond : bool) (unit unit' : GenerateResult) :
  (cond = true -> unit = unit') -> unitIf cond unit = unitIf cond unit'.
Proof. destruct cond; cbn [unitIf]; intros H; [now rewrite H | reflexivity]. Qed.

(** One guarded push: it returns exactly when the content, if it is
    computed at all, is computed without an exception. *)
Lemma pushIf_Ok (cond : bool) (name : string) (c : Result string)
    (results units : list GenerateResult) :
  pushIf cond name c results = Ok units <->
  exists text : string,
    (cond = true -> c = Ok text)
    /\ units = (results ++ unitIf cond {| filename := name; content := text |})%list.
Proof.
  unfold pushIf. destruct cond; cbn [unitIf].
  - rewrite bind_Ok. split.
    + intros (text & Hc & [= <-]). exists text. auto.
    + intros (text & Hc & ->). exists text. auto.
  - rewrite List.app_nil_r. split.
    + intros [= <-]. exists "". split; [discriminate | reflexivity].
    + now intros (_ & _ & ->).
Qed.

(** The units generateAll returns, when it returns. *)
Lemma generateAll_unitIf (tm : gmap string string) (document : DocumentNode)
    (options : GenerateOptions) (units : list GenerateResult) :
  let extendedTypes := parseExtendedTypes tm document in
  let operations := parseOperations tm document in
  generateAll tm document options = Ok units <->
  exists typesText inputsText interfacesText operationsText : string,
    (hasKeys (objects extendedTypes) = true ->
     generateTypeScriptTypes tm (objects extendedTypes) options = Ok typesText)
    /\ (hasKeys (inputs extendedTypes) = true ->
        generateInputTypes tm (inputs extendedTypes) options = Ok inputsText)
    /\ (hasKeys (interfaces extendedTypes) = true ->
        generateInterfaces tm (interfaces extendedTypes) options = Ok interfacesText)
    /\ (hasOperations operations = true ->
        generateOperations tm operations options = Ok operationsText)
    /\ units
       = (unitIf (hasKeys (objects extendedTypes))
            {| filename := "types.ts"; content := typesText |}
          ++ unitIf (hasKeys (inputs extendedTypes))
               {| filename := "inputs.ts"; content := inputsText |}
          ++ unitIf (hasKeys (enums extendedTypes))
               {| filename := "enums.ts";
                  content := generateEnums (enums extendedTypes) options |}
          ++ unitIf (hasKeys (interfaces extendedTypes))
               {| filename := "interfaces.ts"; content := interfacesText |}
          ++ unitIf (hasKeys (unions extendedTypes))
               {| filename := "unions.ts";
                  content := generateUnions (unions extendedTypes) options |}
          ++ unitIf (hasOperations operations)
               {| filename := "operations.ts"; content := operationsText |})%list.
Proof.
  cbv zeta. unfold generateAll. split.
  - intros H.
    apply bind_Ok in H as (r1 & H1 & H). apply bind_Ok in H as (r2 & H2 & H).
    apply bind_Ok in H as (r3 & H3 & H). apply bind_Ok in H as (r4 & H4 & H).
    apply bind_Ok in H as (r5 & H5 & H). apply bind_Ok in H as (r6 & H6 & H).
    injection H as <-.
    apply pushIf_Ok in H1 as (t1 & Hc1 & ->). apply pushIf_Ok in H2 as (t2 & Hc2 & ->).
    apply pushIf_Ok in H3 as (t3 & Hc3 & ->). apply pushIf_Ok in H4 as (t4 & Hc4 & ->).
    apply pushIf_Ok in H5 as (t5 & Hc5 & ->). apply pushIf_Ok in H6 as (t6 & Hc6 & ->).
    exists t1, t2, t4, t6. repeat (split; [assumption |]).
    cbn [app]. rewrite <- !List.app_assoc. do 2 f_equal.
    f_equal; [apply unitIf_ext; intros Hc; specialize (Hc3 Hc); congruence |].
    f_equal. f_equal.
    apply unitIf_ext; intros Hc; specialize (Hc5 Hc); congruence.
  - intros (t1 & t2 & t4 & t6 & Hc1 & Hc2 & Hc4 & Hc6 & ->).
    repeat (apply bind_Ok; eexists; split;
            [apply pushIf_Ok; eexists; split; [eassumption || reflexivity | reflexivity] |]).
    cbn [app]. now rewrite <- !List.app_assoc.
Qed.

Lemma hasOperations_none (tm : gmap string string) (document : DocumentNode) :
  (forall (root : string) (fields : list OperationField),
      obj_get (parseOperations tm document) root = Some fields -> fields = []) ->
  hasOperations (parseOperations tm document) = false.
Proof.
  intros Hall. destruct (hasOperations _) eqn:E; [| reflexivity].
  apply hasOperations_parse in E as (root & fields & Hget & Hne).
  now apply Hall in Hget.
Qed.

(** *** Outcomes of the renderers *)

Lemma hasOperations_lengths (q m s : list OperationField) :
  hasOperations (operationsOf q m s)
  = (0 <? List.length q)%nat || ((0 <? List.length m)%nat
     || ((0 <? List.length s)%nat || false)).
Proof. reflexivity. Qed.

Lemma returnsWhen_bind {A B : Type} (b b' : bool) (e : JsError) (r : Result A)
    (k : A -> Result B) :
  returnsWhen b e r ->
  (forall a, r = Ok a -> returnsWhen b' e (k a)) ->
  returnsWhen (b && b') e (bind r k).
Proof.
  unfold returnsWhen. destruct b; cbn [andb].
  - intros (a & ->) Hk. cbn [bind]. now apply Hk.
  - now intros ->.
Qed.

Lemma returnsWhen_Ok {A : Type} (e : JsError) (a : A) : returnsWhen true e (Ok a).
Proof. cbn. eauto. Qed.

Lemma returnsWhen_eq {A : Type} (b b' : bool) (e : JsError) (r : Result A) :
  b = b' -> returnsWhen b e r -> returnsWhen b' e r.
Proof. now intros ->. Qed.

Lemma returnsWhen_mapM {A B : Type} (p : A -> bool) (e : JsError)
    (f : A -> Result B) (l : list A) :
  (forall x, In x l -> returnsWhen (p x) e (f x)) ->
  returnsWhen (forallb p l) e (mapM f l).
Proof.
  induction l as [|x l IH]; intros H; cbn [forallb mapM].
  - apply returnsWhen_Ok.
  - apply returnsWhen_bind; [apply H; now left |]. intros y _.
    apply (returnsWhen_eq (forallb p l && true)); [apply andb_true_r |].
    apply returnsWhen_bind; [apply IH; intros x' Hx'; apply H; now right |].
    intros ys _. apply returnsWhen_Ok.
Qed.

Lemma getTypeScriptType_returnsWhen (tm : gmap string string) (type : JsValue)
    (options : GenerateOptions) :
  returnsWhen (isString type) endsWithError (getTypeScriptType tm type options).
Proof. destruct type; cbn; eauto. Qed.

Lemma generateFieldDeclaration_returnsWhen (tm : gmap string string)
    (field : FieldInfo) (options : GenerateOptions) :
  returnsWhen (isString (fi_type field)) endsWithError
              (generateFieldDeclaration tm field options).
Proof.
  unfold generateFieldDeclaration. destruct (fi_type field); cbn; eauto.
Qed.

Lemma generateTypeDefinition_returnsWhen (tm : gmap string string)
    (info : TypeDefinitionInfo) (options : GenerateOptions) :
  returnsWhen (stringFields (td_fields info)) endsWithError
              (generateTypeDefinition tm info options).
Proof.
  unfold generateTypeDefinition, stringFields.
  apply (returnsWhen_eq (forallb (fun f => isString (fi_type f)) (td_fields info)
                         && true)); [apply andb_true_r |].
  apply returnsWhen_bind.
  - apply returnsWhen_mapM. intros f _. apply generateFieldDeclaration_returnsWhen.
  - intros lines _. destruct (String.eqb _ _); apply returnsWhen_Ok.
Qed.

Lemma generateInterfaceDeclaration_returnsWhen (tm : gmap string string)
    (info : InterfaceTypeInfo) (options : GenerateOptions) :
  returnsWhen (stringFields (if_fields info)) endsWithError
              (generateInterfaceDeclaration tm info options).
Proof.
  unfold generateInterfaceDeclaration, stringFields.
  apply (returnsWhen_eq (forallb (fun f => isString (fi_type f)) (if_fields info)
                         && true)); [apply andb_true_r |].
  apply returnsWhen_bind.
  - apply returnsWhen_mapM. intros f _. apply generateFieldDeclaration_returnsWhen.
  - intros lines _. destruct (Js.truthyb _); apply returnsWhen_Ok.
Qed.

Lemma renderCategory_returnsWhen {V : Type} (p : V -> bool) (title : string)
    (render : V -> Result string) (defs : JsObj V) :
  (forall v, returnsWhen (p v) endsWithError (render v)) ->
  returnsWhen (forallb p (obj_values defs)) endsWithError
              (renderCategory title render defs).
Proof.
  intros H. unfold renderCategory, categoryLines.
  apply (returnsWhen_eq (forallb p (obj_values defs) && true && true));
    [now rewrite !andb_true_r |].
  apply returnsWhen_bind; [| intros; apply returnsWhen_Ok].
  apply returnsWhen_bind; [| intros; apply returnsWhen_Ok].
  apply returnsWhen_mapM. intros v _. apply H.
Qed.

Lemma operationLine_returnsWhen (tm : gmap string string)
    (options : GenerateOptions) (f : OperationField) :
  returnsWhen (stringSignature f) endsWithError (operationLine tm options f).
Proof.
  unfold operationLine, stringSignature.
  apply returnsWhen_bind.
  - apply returnsWhen_mapM. intros a _. unfold operationArgument.
    apply (returnsWhen_eq (isString (arg_type a) && true)); [apply andb_true_r |].
    apply returnsWhen_bind; [apply getTypeScriptType_returnsWhen |].
    intros; apply returnsWhen_Ok.
  - intros args _.
    apply (returnsWhen_eq (isString (op_returnType f) && true));
      [apply andb_true_r |].
    apply returnsWhen_bind; [apply getTypeScriptType_returnsWhen |].
    intros; apply returnsWhen_Ok.
Qed.

Lemma generateOperations_returnsWhen (tm : gmap string string)
    (operations : OperationsMap) (options : GenerateOptions) :
  returnsWhen (forallb (fun entry => forallb stringSignature (snd entry))
                       (obj_entries operations))
              endsWithError (generateOperations tm operations options).
Proof.
  unfold generateOperations, generateOperations_lines.
  apply (returnsWhen_eq (forallb (fun entry => forallb stringSignature (snd entry))
                                 (obj_entries operations) && true && true));
    [now rewrite !andb_true_r |].
  apply returnsWhen_bind; [| intros; apply returnsWhen_Ok].
  apply returnsWhen_bind; [| intros; apply returnsWhen_Ok].
  apply returnsWhen_mapM. intros [root fields] _. unfold operationBlock. cbn [snd].
  apply (returnsWhen_eq (forallb stringSignature fields && true));
    [apply andb_true_r |].
  apply returnsWhen_bind; [| intros; apply returnsWhen_Ok].
  apply returnsWhen_mapM. intros f _. apply operationLine_returnsWhen.
Qed.

Lemma pushIf_returnsWhen (cond b : bool) (name : string) (c : Result string)
    (results : list GenerateResult) :
  (cond = false -> b = true) ->
  returnsWhen b endsWithError c ->
  returnsWhen b endsWithError (pushIf cond name c results).
Proof.
  unfold pushIf. destruct cond.
  - intros _ H.
    apply (returnsWhen_eq (b && true)); [apply andb_true_r |].
    apply returnsWhen_bind; [exact H | intros; apply returnsWhen_Ok].
  - intros Hb _. rewrite (Hb eq_refl). apply returnsWhen_Ok.
Qed.

Lemma generateAll_returnsWhen (tm : gmap string string) (document : DocumentNode)
    (options : GenerateOptions) :
  returnsWhen (stringTyped tm document) endsWithError
              (generateAll tm document options).
Proof.
  unfold generateAll, stringTyped.
  set (ext := parseExtendedTypes tm document).
  set (ops := parseOperations tm document).
  set (b1 := forallb (fun info => stringFields (td_fields info))
                     (obj_values (objects ext))).
  set (b2 := forallb (fun info => stringFields (td_fields info))
                     (obj_values (inputs ext))).
  set (b4 := forallb (fun info => stringFields (if_fields info))
                     (obj_values (interfaces ext))).
  set (b6 := forallb (fun entry => forallb stringSignature (snd entry))
                     (obj_entries ops)).
  assert (Hempty : forall (V : Type) (o : JsObj V) (p : V -> bool),
             hasKeys o = false -> forallb p (obj_values o) = true).
  { intros V o p H. apply hasKeys_false in H. now subst o. }
  apply (returnsWhen_eq (b1 && (b2 && (true && (b4 && (true && (b6 && true)))))));
    [destruct b1, b2, b4, b6; reflexivity |].
  apply returnsWhen_bind.
  { apply pushIf_returnsWhen; [apply Hempty |].
    unfold generateTypeScriptTypes. apply renderCategory_returnsWhen.
    intros v. apply generateTypeDefinition_returnsWhen. }
  intros r1 _. apply returnsWhen_bind.
  { apply pushIf_returnsWhen; [apply Hempty |].
    unfold generateInputTypes. apply renderCategory_returnsWhen.
    intros v. apply generateTypeDefinition_returnsWhen. }
  intros r2 _. apply returnsWhen_bind.
  { apply pushIf_returnsWhen; [reflexivity | apply returnsWhen_Ok]. }
  intros r3 _. apply returnsWhen_bind.
  { apply pushIf_returnsWhen; [apply Hempty |].
    unfold generateInterfaces. apply renderCategory_returnsWhen.
    intros v. apply generateInterfaceDeclaration_returnsWhen. }
  intros r4 _. apply returnsWhen_bind.
  { apply pushIf_returnsWhen; [reflexivity | apply returnsWhen_Ok]. }
  intros r5 _. apply returnsWhen_bind.
  { apply pushIf_returnsWhen; [| apply generateOperations_returnsWhen].
    subst b6 ops. rewrite parseOperations_roots, hasOperations_lengths.
    unfold operationsOf, obj_entries. cbn [forallb snd].
    destruct (rootFields tm "Query" document),
      (rootFields tm "Mutation" document),
      (rootFields tm "Subscription" document); cbn; congruence. }
  intros r6 _. apply returnsWhen_Ok.
Qed.

(** C6 (behaviour of the code where it departs from the claim).  For
    [type A { x: constructor }] the types category has an entry, the
    resolver returns for the field type the function every object inherits
    under the name [constructor], and generateAll returns no units: the
    renderer calls [endsWith] on that function and the call ends with a
    TypeError. *)
Theorem generateAll_throws_on_inherited_type :
  List.length (obj_keys (objects (parseExtendedTypes typeMap constructorDocument)))
  = 1%nat
  /\ getTypeName typeMap (NamedType "constructor") = JsInherited "constructor"
  /\ generateAll typeMap constructorDocument noOptions
     = Err (NotAFunction "type.endsWith").
Proof. vm_compute. repeat split. Qed.

(** ** Lines of a text *)

Lemma prefix_append (a b : string) : String.prefix a (a ++ b) = true.
Proof.
  induction a as [|c a IH].
  - destruct b; reflexivity.
  - rewrite append_cons. cbn [String.prefix].
    destruct (ascii_dec c c) as [_ | Hne]; [exact IH | now destruct Hne].
Qed.

Lemma prefix_empty (s : string) : String.prefix "" s = true.
Proof. destruct s; reflexivity. Qed.

Lemma includes_char_cons (d c : ascii) (s : string) :
  Js.includes (String c s) (String d "")
  = if ascii_dec d c then true else Js.includes s (String d "").
Proof.
  unfold Js.includes. cbn [index String.prefix].
  destruct (ascii_dec d c); [now rewrite prefix_empty |].
  destruct (index 0 (String d "") s); reflexivity.
Qed.

Lemma includes_char_append (d : ascii) (a b : string) :
  Js.includes (a ++ b) (String d "")
  = Js.includes a (String d "") || Js.includes b (String d "").
Proof.
  induction a as [|c a IH]; [reflexivity |].
  rewrite append_cons, !includes_char_cons.
  destruct (ascii_dec d c); [reflexivity | exact IH].
Qed.

Lemma singleLine_append (a b : string) :
  singleLine (a ++ b) = singleLine a && singleLine b.
Proof.
  unfold singleLine, nl. rewrite includes_char_append. apply negb_orb.
Qed.

Lemma splitLines_nonempty (text : string) : splitLines text <> [].
Proof.
  destruct text as [|c rest]; cbn [splitLines]; [discriminate |].
  destruct (Ascii.eqb c (ascii_of_nat 10)); [discriminate |].
  destruct (splitLines rest); discriminate.
Qed.

Lemma splitLines_single (s : string) : singleLine s = true -> splitLines s = [s].
Proof.
  induction s as [|c s IH]; [reflexivity |].
  unfold singleLine, nl in *. rewrite includes_char_cons.
  destruct (ascii_dec (ascii_of_nat 10) c) as [<- | Hne]; [discriminate |].
  intros H. cbn [splitLines].
  destruct (Ascii.eqb_spec c (ascii_of_nat 10)) as [-> | _]; [now destruct Hne |].
  now rewrite (IH H).
Qed.

Lemma splitLines_append_nl (a b : string) :
  splitLines (a ++ nl ++ b) = (splitLines a ++ splitLines b)%list.
Proof.
  induction a as [|c a IH]; [reflexivity |].
  rewrite append_cons. cbn [splitLines]. rewrite IH.
  destruct (Ascii.eqb c (ascii_of_nat 10)); [reflexivity |].
  pose proof (splitLines_nonempty a) as Hne.
  destruct (splitLines a) as [|line lines]; [now destruct Hne | reflexivity].
Qed.

Lemma join_cons2 (sep a b : string) (l : list string) :
  Js.join sep (a :: b :: l) = a ++ sep ++ Js.join sep (b :: l).
Proof. reflexivity. Qed.

(** Splitting a join gives back the joined strings, each split in turn. *)
Lemma splitLines_join (lines : list string) :
  lines <> [] ->
  splitLines (Js.join nl lines) = flat_map splitLines lines.
Proof.
  induction lines as [|a lines IH]; [congruence |]. intros _.
  destruct lines as [|b lines].
  - cbn [flat_map]. now rewrite List.app_nil_r.
  - rewrite join_cons2, splitLines_append_nl, IH by discriminate. reflexivity.
Qed.

Lemma flat_map_splitLines_single (lines : list string) :
  Forall (fun line => singleLine line = true) lines ->
  flat_map splitLines lines = lines.
Proof.
  induction 1 as [|line lines Hline _ IH]; [reflexivity |].
  cbn [flat_map]. now rewrite (splitLines_single line Hline), IH.
Qed.

(** The lines of a joined body: no interface header among them when no
    joined line is one and none spans two lines. *)
Lemma body_no_headers (sigs : list string) :
  Forall (fun sig => isInterfaceHeader sig = false) sigs ->
  Forall (fun sig => singleLine sig = true) sigs ->
  List.filter isInterfaceHeader (splitLines (Js.join nl sigs)) = [].
Proof.
  intros Hh Hs. destruct sigs as [|sig sigs]; [reflexivity |].
  rewrite splitLines_join by discriminate.
  rewrite (flat_map_splitLines_single _ Hs).
  induction Hh as [|x l Hx _ IH]; [reflexivity |].
  cbn [List.filter]. rewrite Hx. apply IH. now inversion Hs.
Qed.

(** ** The operations unit *)

Lemma header_isInterfaceHeader (rest : string) :
  isInterfaceHeader ("export interface " ++ rest) = true.
Proof. apply prefix_append. Qed.

Lemma indented_not_header (rest : string) :
  isInterfaceHeader ("  " ++ rest) = false.
Proof. reflexivity. Qed.

Lemma operationLine_Ok (tm : gmap string string) (options : GenerateOptions)
    (f : OperationField) (sig : string) :
  operationLine tm options f = Ok sig <->
  exists (args : list string) (returnType : JsValue),
    mapM (operationArgument tm options) (op_args f) = Ok args
    /\ getTypeScriptType tm (op_returnType f) options = Ok returnType
    /\ sig = "  " ++ op_name f ++ "(" ++ Js.join ", " args ++ "): "
               ++ Js.toString returnType ++ ";".
Proof.
  unfold operationLine. rewrite bind_Ok. split.
  - intros (args & Hargs & H). apply bind_Ok in H as (ret & Hret & [= <-]).
    now exists args, ret.
  - intros (args & ret & Hargs & Hret & ->). exists args. split; [exact Hargs |].
    now rewrite Hret.
Qed.

Lemma operationLine_not_header (tm : gmap string string) (options : GenerateOptions)
    (f : OperationField) (sig : string) :
  operationLine tm options f = Ok sig -> isInterfaceHeader sig = false.
Proof.
  intros H. apply operationLine_Ok in H as (args & ret & _ & _ & ->).
  apply indented_not_header.
Qed.

Lemma operationLines_not_header (tm : gmap string string)
    (options : GenerateOptions) (fields : list OperationField)
    (sigs : list string) :
  mapM (operationLine tm options) fields = Ok sigs ->
  Forall (fun sig => isInterfaceHeader sig = false) sigs.
Proof.
  intros H. apply mapM_Ok in H.
  induction H as [|f sig fields sigs Hf _ IH]; constructor; [| exact IH].
  exact (operationLine_not_header tm options f sig Hf).
Qed.

Lemma operationBlock_Ok (tm : gmap string string) (options : GenerateOptions)
    (root : string) (fields : list OperationField) (block : list string) :
  operationBlock tm options (root, fields) = Ok block <->
  exists sigs : list string,
    mapM (operationLine tm options) fields = Ok sigs
    /\ block = [ "export interface " ++ formatTypeName root options ++ " {";
                 Js.join nl sigs; "}"; "" ].
Proof.
  unfold operationBlock. rewrite bind_Ok. split.
  - intros (sigs & Hs & [= <-]). now exists sigs.
  - intros (sigs & Hs & ->). now exists sigs.
Qed.

(** The pushed lines of the operations unit: the banner and one four-line
    block per root, in the order Query, Mutation, Subscription. *)
Lemma generateOperations_lines_roots (tm : gmap string string)
    (q m s : list OperationField) (options : GenerateOptions)
    (lines : list string) :
  let defaultOptions := spread operationsDefaults options in
  let block (root : string) (sigs : list string) :=
    [ "export interface " ++ formatTypeName root defaultOptions ++ " {";
      Js.join nl sigs; "}"; "" ] in
  generateOperations_lines tm (operationsOf q m s) options = Ok lines <->
  exists qs ms ss : list string,
    mapM (operationLine tm defaultOptions) q = Ok qs
    /\ mapM (operationLine tm defaultOptions) m = Ok ms
    /\ mapM (operationLine tm defaultOptions) s = Ok ss
    /\ lines = (banner "// Operations" ++ block "Query" qs ++ block "Mutation" ms
                ++ block "Subscription" ss)%list.
Proof.
  cbv zeta. unfold generateOperations_lines, operationsOf, obj_entries.
  cbn [mapM]. split.
  - intros H. apply bind_Ok in H as (blocks & H & [= <-]).
    apply bind_Ok in H as (b1 & H1 & H). apply bind_Ok in H as (bs1 & H & [= <-]).
    apply bind_Ok in H as (b2 & H2 & H). apply bind_Ok in H as (bs2 & H & [= <-]).
    apply bind_Ok in H as (b3 & H3 & [= <-]).
    apply operationBlock_Ok in H1 as (qs & Hq & ->).
    apply operationBlock_Ok in H2 as (ms & Hm & ->).
    apply operationBlock_Ok in H3 as (ss & Hs & ->).
    exists qs, ms, ss. repeat (split; [assumption |]). reflexivity.
  - intros (qs & ms & ss & Hq & Hm & Hs & ->).
    rewrite (proj2 (operationBlock_Ok tm _ "Query" q _) (ex_intro _ qs (conj Hq eq_refl))).
    rewrite (proj2 (operationBlock_Ok tm _ "Mutation" m _) (ex_intro _ ms (conj Hm eq_refl))).
    rewrite (proj2 (operationBlock_Ok tm _ "Subscription" s _)
               (ex_intro _ ss (conj Hs eq_refl))).
    reflexivity.
Qed.

Lemma operations_unit_content (tm : gmap string string) (document : DocumentNode)
    (options : GenerateOptions) (units : list GenerateResult)
    (unit : GenerateResult) :
  generateAll tm document options = Ok units ->
  In unit units ->
  filename unit = "operations.ts" ->
  hasOperations (parseOperations tm document) = true
  /\ generateOperations tm (parseOperations tm document) options
     = Ok (content unit).
Proof.
  intros Hall. apply generateAll_unitIf in Hall
    as (t1 & t2 & t4 & t6 & _ & _ & _ & Hc6 & ->).
  rewrite !in_app_iff, !in_unitIf.
  intros [H | [H | [H | [H | [H | H]]]]] Hname; destruct H as [Hc ->];
    simpl in Hname; try discriminate.
  split; [exact Hc | exact (Hc6 Hc)].
Qed.

Lemma singleLine_header (name : string) :
  singleLine name = true ->
  singleLine ("export interface " ++ name ++ " {") = true.
Proof. intros H. now rewrite !singleLine_append, H. Qed.

(** C9 (as amended).  When generateAll returns and emits the unit
    operations.ts, every method signature of the three roots was rendered
    and the content is the line-feed join of the banner followed by three
    four-line blocks, for Query, Mutation and Subscription in that order,
    each made of the header [export interface <formatted root name> {],
    the joined method signatures of the root, the closing brace and a blank
    line; the body of a root without fields is the empty string; no method
    signature starts like an interface header; and when neither the three
    formatted root names nor the method signatures contain a line feed,
    exactly three lines of the content open an interface declaration. *)
Theorem operations_unit_three_interfaces (tm : gmap string string)
    (document : DocumentNode) (options : GenerateOptions)
    (units : list GenerateResult) (unit : GenerateResult) :
  generateAll tm document options = Ok units ->
  In unit units ->
  filename unit = "operations.ts" ->
  let defaultOptions := spread operationsDefaults options in
  let block (root : string) (sigs : list string) :=
    [ "export interface " ++ formatTypeName root defaultOptions ++ " {";
      Js.join nl sigs; "}"; "" ] in
  exists qs ms ss : list string,
    mapM (operationLine tm defaultOptions) (rootFields tm "Query" document) = Ok qs
    /\ mapM (operationLine tm defaultOptions) (rootFields tm "Mutation" document)
       = Ok ms
    /\ mapM (operationLine tm defaultOptions) (rootFields tm "Subscription" document)
       = Ok ss
    /\ content unit
       = Js.join nl (banner "// Operations" ++ block "Query" qs
                     ++ block "Mutation" ms ++ block "Subscription" ss)%list
    /\ (rootFields tm "Query" document = [] -> block "Query" qs
        = [ "export interface " ++ formatTypeName "Query" defaultOptions ++ " {";
            ""; "}"; "" ])
    /\ (rootFields tm "Mutation" document = [] -> block "Mutation" ms
        = [ "export interface " ++ formatTypeName "Mutation" defaultOptions ++ " {";
            ""; "}"; "" ])
    /\ (rootFields tm "Subscription" document = [] -> block "Subscription" ss
        = [ "export interface " ++ formatTypeName "Subscription" defaultOptions ++ " {";
            ""; "}"; "" ])
    /\ Forall (fun sig => isInterfaceHeader sig = false) (qs ++ ms ++ ss)%list
    /\ ((forall root, In root operationTypes ->
           singleLine (formatTypeName root defaultOptions) = true) ->
        Forall (fun sig => singleLine sig = true) (qs ++ ms ++ ss)%list ->
        interfaceHeaders (content unit) = 3%nat).
Proof.
  intros Hall Hin Hname. cbv zeta.
  destruct (operations_unit_content tm document options units unit Hall Hin Hname)
    as [_ Hc].
  unfold generateOperations in Hc. apply bind_Ok in Hc as (lines & Hlines & Hc).
  injection Hc as Hc. rewrite parseOperations_roots in Hlines.
  apply generateOperations_lines_roots in Hlines
    as (qs & ms & ss & Hq & Hm & Hs & ->).
  exists qs, ms, ss.
  split; [exact Hq |]. split; [exact Hm |]. split; [exact Hs |].
  split; [now rewrite <- Hc |].
  assert (Hempty : forall fields sigs,
    mapM (operationLine tm (spread operationsDefaults options)) fields = Ok sigs ->
    fields = [] -> sigs = []).
  { intros fields sigs Hmap ->. now injection Hmap as <-. }
  split; [intros He; now rewrite (Hempty _ _ Hq He) |].
  split; [intros He; now rewrite (Hempty _ _ Hm He) |].
  split; [intros He; now rewrite (Hempty _ _ Hs He) |].
  pose proof (operationLines_not_header tm _ _ _ Hq) as Hqh.
  pose proof (operationLines_not_header tm _ _ _ Hm) as Hmh.
  pose proof (operationLines_not_header tm _ _ _ Hs) as Hsh.
  split; [rewrite !Forall_app; auto |].
  intros Hroots Hsingle.
  apply Forall_app in Hsingle as [Hqs Hsingle].
  apply Forall_app in Hsingle as [Hms Hss].
  unfold interfaceHeaders. rewrite <- Hc.
  rewrite splitLines_join by discriminate.
  cbn [banner app flat_map].
  assert (HQ := singleLine_header _ (Hroots "Query" ltac:(cbn; tauto))).
  assert (HM := singleLine_header _ (Hroots "Mutation" ltac:(cbn; tauto))).
  assert (HS := singleLine_header _ (Hroots "Subscription" ltac:(cbn; tauto))).
  rewrite (splitLines_single _ HQ), (splitLines_single _ HM),
    (splitLines_single _ HS).
  change (splitLines "/* Auto-generated by koatty-graphql */")
    with ["/* Auto-generated by koatty-graphql */"].
  change (splitLines "// Operations") with ["// Operations"].
  change (splitLines "}") with ["}"].
  change (splitLines "") with [""].
  rewrite List.app_nil_r.
  repeat (rewrite ?List.filter_app; cbn [app List.filter]).
  rewrite !header_isInterfaceHeader.
  change (isInterfaceHeader "/* Auto-generated by koatty-graphql */") with false.
  change (isInterfaceHeader "// Operations") with false.
  change (isInterfaceHeader "}") with false.
  change (isInterfaceHeader "") with false.
  cbv iota.
  rewrite (body_no_headers qs Hqh Hqs), (body_no_headers ms Hmh Hms),
    (body_no_headers ss Hsh Hss).
  reflexivity.
Qed.

(** The statement at the document with Query and Mutation roots and no
    Subscription, with the default options: the content of operations.ts
    has three lines that open an interface declaration. *)
Lemma operations_unit_three_interfaces_witness :
  exists (units : list GenerateResult) (unit : GenerateResult),
    generateAll typeMap twoQueriesDocument noOptions = Ok units
    /\ In unit units
    /\ filename unit = "operations.ts"
    /\ interfaceHeaders (content unit) = 3%nat.
Proof.
  eexists. eexists.
  split; [vm_compute; reflexivity |].
  split; [right; left; reflexivity |].
  split; [reflexivity |].
  edestruct (operations_unit_three_interfaces typeMap twoQueriesDocument noOptions)
    as (qs & ms & ss & Hq & Hm & Hs & _ & _ & _ & _ & _ & Hcount);
    [vm_compute; reflexivity | right; left; reflexivity | reflexivity |].
  vm_compute in Hq, Hm, Hs.
  injection Hq as <-. injection Hm as <-. injection Hs as <-.
  apply Hcount.
  - intros root [<- | [<- | [<- | []]]]; reflexivity.
  - repeat constructor.
Defined.

(** C9 as stated fails when the prefix option contains a line feed: for the
    same document and the prefix made of [I], a line feed and
    [export interface J], generateAll emits operations.ts and ten lines of
    its content open an interface declaration. *)
Lemma operations_unit_prefix_counterexample :
  exists (units : list GenerateResult) (unit : GenerateResult),
    generateAll typeMap twoQueriesDocument twoLinePrefixOptions = Ok units
    /\ In unit units
    /\ filename unit = "operations.ts"
    /\ hasOperations (parseOperations typeMap twoQueriesDocument) = true
    /\ interfaceHeaders (content unit) = 10%nat.
Proof.
  eexists. eexists.
  split; [vm_compute; reflexivity |].
  split; [right; left; reflexivity |].
  repeat split.
Qed.

(** ** Objects as maps *)

Lemma obj_get_define {V : Type} (o : JsObj V) (k : string) (v : V) (k' : string) :
  obj_get (obj_define o k v) k' = if String.eqb k k' then Some v else obj_get o k'.
Proof.
  induction o as [|[k0 v0] o IH]; [reflexivity |].
  cbn [obj_define]. destruct (String.eqb_spec k0 k) as [-> | Hne]; cbn [obj_get].
  - destruct (String.eqb k k'); reflexivity.
  - rewrite IH. destruct (String.eqb_spec k0 k') as [-> | Hne'].
    + destruct (String.eqb_spec k k'); [congruence | reflexivity].
    + reflexivity.
Qed.

Lemma obj_get_set {V : Type} (o : JsObj V) (k : string) (v : V) (k' : string) :
  obj_get (obj_set o k v) k'
  = if String.eqb k "__proto__" then obj_get o k'
    else if String.eqb k k' then Some v else obj_get o k'.
Proof.
  unfold obj_set. destruct (String.eqb k "__proto__"); [reflexivity |].
  apply obj_get_define.
Qed.

(** ** The document classifier *)

Lemma assigned_Some (def : DefinitionNode) (b : Bucket) (n : string) :
  assigned def = Some (b, n) <-> target def = Some (b, n) /\ n <> "__proto__".
Proof.
  unfold assigned. destruct (target def) as [[b' n'] |].
  - destruct (String.eqb_spec n' "__proto__") as [-> | Hne]; split.
    + discriminate.
    + intros [[= _ <-] Hn]. now destruct Hn.
    + intros [= <- <-]. auto.
    + now intros [[= <- <-] _].
  - split; [discriminate | now intros [[=] _]].
Qed.

Lemma parseExtendedTypes_def_get (tm : gmap string string) (m : ExtendedTypeMap)
    (def : DefinitionNode) (b : Bucket) (n : string) :
  bucket_get (parseExtendedTypes_def tm m def) b n
  = if decide (assigned def = Some (b, n)) then entryOf tm def
    else bucket_get m b n.
Proof.
  destruct def as [name fs d | name fs d | name d | name vs d | name fs d
                  | name ts d | kind];
    destruct b; unfold assigned;
    cbn [parseExtendedTypes_def bucket_get target entryOf
         objects inputs scalars enums interfaces unions];
    try (destruct (String.eqb name "__proto__");
         (case_decide; [discriminate | reflexivity]));
    try (case_decide; [discriminate | reflexivity]);
    rewrite obj_get_set;
    (destruct (String.eqb name "__proto__");
     [ case_decide; [discriminate | reflexivity] |]);
    (destruct (String.eqb_spec name n) as [-> | Hne];
     case_decide; try reflexivity; congruence).
Qed.

Lemma parseExtendedTypes_fold_keep (tm : gmap string string) (b : Bucket) (n : string)
    (post : DocumentNode) :
  forall m : ExtendedTypeMap,
    (forall d, In d post -> assigned d <> Some (b, n)) ->
    bucket_get (fold_left (parseExtendedTypes_def tm) post m) b n = bucket_get m b n.
Proof.
  induction post as [|d post IH]; intros m Hpost; [reflexivity |].
  cbn [fold_left]. rewrite IH by (intros d' Hd'; apply Hpost; now right).
  rewrite parseExtendedTypes_def_get.
  case_decide as Ht; [| reflexivity].
  exfalso. apply (Hpost d); [now left | exact Ht].
Qed.

Lemma parseExtendedTypes_fold_origin (tm : gmap string string) (b : Bucket)
    (n : string) (e : Entry) (document : DocumentNode) :
  forall m : ExtendedTypeMap,
    bucket_get (fold_left (parseExtendedTypes_def tm) document m) b n = Some e ->
    bucket_get m b n = Some e
    \/ exists def, In def document /\ assigned def = Some (b, n)
                   /\ entryOf tm def = Some e.
Proof.
  induction document as [|d document IH]; intros m H; [now left |].
  cbn [fold_left] in H. apply IH in H as [H | (def & Hin & Ht & He)].
  - rewrite parseExtendedTypes_def_get in H.
    case_decide as Ht.
    + right. exists d. split; [now left | auto].
    + now left.
  - right. exists def. split; [now right | auto].
Qed.

Lemma bucket_get_empty (b : Bucket) (n : string) :
  bucket_get emptyExtendedTypeMap b n = None.
Proof. destruct b; reflexivity. Qed.

Lemma target_bucketOfEntry (tm : gmap string string) (def : DefinitionNode)
    (b : Bucket) (n : string) (e : Entry) :
  target def = Some (b, n) -> entryOf tm def = Some e -> b = bucketOfEntry e.
Proof.
  destruct def; cbn [target entryOf]; intros Ht He;
    try discriminate; injection Ht as <- _; injection He as <-; reflexivity.
Qed.

Lemma parseExtendedTypes_skip (tm : gmap string string) (document : DocumentNode) :
  forall m : ExtendedTypeMap,
    fold_left (parseExtendedTypes_def tm) document m
    = fold_left (parseExtendedTypes_def tm) (List.filter recognized document) m.
Proof.
  induction document as [|d document IH]; intros m; [reflexivity |].
  cbn [List.filter fold_left]. destruct d; cbn [recognized target fold_left];
    apply IH.
Qed.

Lemma parseExtendedTypes_last (tm : gmap string string) (pre post : DocumentNode)
    (def : DefinitionNode) (b : Bucket) (n : string) :
  assigned def = Some (b, n) ->
  (forall d, In d post -> assigned d <> Some (b, n)) ->
  bucket_get (parseExtendedTypes tm (pre ++ def :: post)%list) b n = entryOf tm def.
Proof.
  intros Ht Hpost. unfold parseExtendedTypes.
  rewrite fold_left_app. cbn [fold_left].
  rewrite parseExtendedTypes_fold_keep by exact Hpost.
  rewrite parseExtendedTypes_def_get.
  case_decide; [reflexivity | contradiction].
Qed.

Lemma parseExtendedTypes_origin (tm : gmap string string) (document : DocumentNode)
    (b : Bucket) (n : string) (e : Entry) :
  bucket_get (parseExtendedTypes tm document) b n = Some e ->
  exists def, In def document /\ assigned def = Some (b, n)
              /\ entryOf tm def = Some e.
Proof.
  intros H. unfold parseExtendedTypes in H.
  apply parseExtendedTypes_fold_origin in H as [H | H]; [| exact H].
  rewrite bucket_get_empty in H. discriminate.
Qed.

(** C4 (as amended).  For every document: a definition of one of the six
    kinds whose name is not [__proto__] and whose bucket and name are not
    assigned again by a later definition is held, under its name, by the
    bucket of its kind and by no other bucket; a definition followed by
    another of the same kind and name is overwritten by it, so every value
    held by a bucket is the entry of some definition of that kind and name,
    and nothing else is stored; and the definitions of any other kind are
    skipped: the result is that of the document without them.  The
    classifier is total. *)
Theorem parseExtendedTypes_buckets (tm : gmap string string) (document : DocumentNode) :
  (forall (pre post : DocumentNode) (def : DefinitionNode)
          (b : Bucket) (n : string) (e : Entry),
      document = (pre ++ def :: post)%list ->
      target def = Some (b, n) ->
      n <> "__proto__" ->
      entryOf tm def = Some e ->
      (forall d, In d post -> target d <> Some (b, n)) ->
      forall b' : Bucket,
        bucket_get (parseExtendedTypes tm document) b' n = Some e <-> b' = b)
  /\ (forall (b : Bucket) (n : string) (e : Entry),
        bucket_get (parseExtendedTypes tm document) b n = Some e ->
        exists def, In def document /\ target def = Some (b, n)
                    /\ entryOf tm def = Some e)
  /\ parseExtendedTypes tm document
     = parseExtendedTypes tm (List.filter recognized document)
  /\ (forall def : DefinitionNode,
        recognized def = false <-> exists kind, def = OtherDefinition kind).
Proof.
  assert (Horigin :
    forall (b : Bucket) (n : string) (e : Entry),
      bucket_get (parseExtendedTypes tm document) b n = Some e ->
      exists def, In def document /\ target def = Some (b, n)
                  /\ entryOf tm def = Some e).
  { intros b n e H.
    apply parseExtendedTypes_origin in H as (def & Hin & Ha & He).
    apply assigned_Some in Ha as [Ht _]. eauto. }
  split; [| split; [exact Horigin | split]].
  - intros pre post def b n e -> Ht Hn He Hpost b'. split.
    + intros H. apply Horigin in H as (def' & _ & Ht' & He').
      rewrite (target_bucketOfEntry tm def b n e Ht He).
      apply (target_bucketOfEntry tm def' b' n e Ht' He').
    + intros ->.
      rewrite (parseExtendedTypes_last tm pre post def b n).
      * exact He.
      * now apply assigned_Some.
      * intros d Hd Ha. apply assigned_Some in Ha as [Ha _].
        exact (Hpost d Hd Ha).
  - apply parseExtendedTypes_skip.
  - intros def. destruct def; cbn [recognized target]; split;
      try discriminate; try (intros [kind Hk]; discriminate); eauto.
Qed.

(** The amended statement at [type A { y: Int }] inside a document with a
    schema definition, an enum, a directive definition and a union: the
    entry is in the objects bucket and in no other. *)
Lemma parseExtendedTypes_buckets_witness :
  bucket_get (parseExtendedTypes typeMap mixedDocument) Objects "A"
  = entryOf typeMap secondA
  /\ (bucket_get (parseExtendedTypes typeMap mixedDocument) Inputs "A"
      = entryOf typeMap secondA
      <-> Inputs = Objects).
Proof.
  assert (H : forall b' : Bucket,
             bucket_get (parseExtendedTypes typeMap mixedDocument) b' "A"
             = entryOf typeMap secondA
             <-> b' = Objects).
  { apply (proj1 (parseExtendedTypes_buckets typeMap mixedDocument)
             [ OtherDefinition "SchemaDefinition";
               EnumTypeDefinition "Role" (Some ["ADMIN"; "USER"]) None;
               OtherDefinition "DirectiveDefinition" ]
             [ UnionTypeDefinition "U" (Some ["A"]) None ]
             secondA Objects "A").
    - reflexivity.
    - reflexivity.
    - discriminate.
    - reflexivity.
    - intros d [<- | []]. discriminate. }
  split; [apply (H Objects); reflexivity | apply (H Inputs)].
Defined.

(** C4 as stated fails on a document that defines a name twice:
    [type A { x: Int }] is a definition of a recognized kind, yet after
    [type A { y: Int }] no bucket holds its entry under any key. *)
Lemma parseExtendedTypes_duplicate_counterexample :
  In firstA duplicateDocument
  /\ recognized firstA = true
  /\ forall (b : Bucket) (n : string),
       bucket_get (parseExtendedTypes typeMap duplicateDocument) b n
       <> entryOf typeMap firstA.
Proof.
  split; [now left |]. split; [reflexivity |].
  intros b n.
  let m := eval vm_compute in (parseExtendedTypes typeMap duplicateDocument) in
  change (parseExtendedTypes typeMap duplicateDocument) with m.
  destruct b; cbn [bucket_get objects inputs scalars enums interfaces unions
                   obj_get option_map entryOf firstA];
    try discriminate.
  destruct (String.eqb "A" n); cbn [option_map]; [| discriminate].
  intros H. injection H as H. discriminate.
Qed.

(** ** Root operation types are rendered in two units *)

Lemma obj_get_values {V : Type} (o : JsObj V) (k : string) (v : V) :
  obj_get o k = Some v -> In v (obj_values o).
Proof.
  induction o as [|[k0 v0] o IH]; cbn [obj_get obj_values List.map]; [discriminate |].
  destruct (String.eqb k0 k); intros H.
  - injection H as ->. now left.
  - right. now apply IH.
Qed.

Lemma mapM_Ok_In {A B : Type} (f : A -> Result B) (l : list A) (ys : list B)
    (x : A) :
  mapM f l = Ok ys -> In x l -> exists y, f x = Ok y /\ In y ys.
Proof.
  intros H. apply mapM_Ok in H.
  induction H as [|x' y l ys Hy _ IH]; intros Hin; [destruct Hin |].
  destruct Hin as [-> | Hin].
  - exists y. split; [exact Hy | now left].
  - destruct (IH Hin) as (y' & Hy' & Hin'). exists y'. split; [exact Hy' | now right].
Qed.

Lemma mapM_app_Ok {A B : Type} (f : A -> Result B) (l l' : list A) (ys : list B) :
  mapM f (l ++ l')%list = Ok ys <->
  exists a b, mapM f l = Ok a /\ mapM f l' = Ok b /\ ys = (a ++ b)%list.
Proof.
  rewrite mapM_app, bind_Ok. split.
  - intros (a & Ha & H). apply bind_Ok in H as (b & Hb & [= <-]). now exists a, b.
  - intros (a & b & Ha & Hb & ->). exists a. split; [exact Ha |]. now rewrite Hb.
Qed.

(** The text of a category: the join of the banner and, for each value of
    the bucket in key order, its declaration and a blank line. *)
Lemma renderCategory_Ok {V : Type} (title : string) (render : V -> Result string)
    (defs : JsObj V) (text : string) :
  renderCategory title render defs = Ok text <->
  exists declarations : list string,
    mapM render (obj_values defs) = Ok declarations
    /\ text = Js.join nl (pushed title declarations).
Proof.
  unfold renderCategory, categoryLines. rewrite bind_Ok. split.
  - intros (lines & H & [= <-]). apply bind_Ok in H as (ds & Hds & [= <-]).
    now exists ds.
  - intros (ds & Hds & ->). eexists. split; [| reflexivity]. now rewrite Hds.
Qed.

Lemma rootFields_middle (tm : gmap string string) (pre post : DocumentNode)
    (name : string) (fields : option (list FieldDefinitionNode))
    (description : option string) :
  rootFields tm name (pre ++ ObjectTypeDefinition name fields description :: post)%list
  = (rootFields tm name pre
     ++ List.map (operationFieldOf tm) (Js.orEmpty fields)
     ++ rootFields tm name post)%list.
Proof.
  rewrite rootFields_app. f_equal.
  unfold rootFields. cbn [flat_map rootFieldsOf].
  now rewrite String.eqb_refl.
Qed.

Lemma generateTypeDefinition_Ok (tm : gmap string string)
    (info : TypeDefinitionInfo) (options : GenerateOptions) (declaration : string) :
  td_kind info <> Kind.SCALAR_TYPE_DEFINITION ->
  generateTypeDefinition tm info options = Ok declaration <->
  exists fieldLines : list string,
    mapM (fun f => generateFieldDeclaration tm f options) (td_fields info)
    = Ok fieldLines
    /\ declaration
       = "export interface " ++ formatTypeName (td_name info) options ++ " {" ++ nl
           ++ Js.join nl fieldLines ++ nl ++ "}".
Proof.
  intros Hk. unfold generateTypeDefinition.
  destruct (String.eqb_spec (td_kind info) Kind.SCALAR_TYPE_DEFINITION);
    [contradiction |].
  rewrite bind_Ok. split.
  - intros (ls & Hls & [= <-]). now exists ls.
  - intros (ls & Hls & ->). now exists ls.
Qed.

(** The block of a root inside the pushed lines of the operations unit. *)
Lemma operations_block_located (root : string) (header : string -> string)
    (qs ms ss : list string) :
  In root operationTypes ->
  let block (r : string) (sigs : list string) :=
    [header r; Js.join nl sigs; "}"; ""] in
  exists (sigs linesBefore linesAfter : list string),
    (root = "Query" /\ sigs = qs \/ root = "Mutation" /\ sigs = ms
     \/ root = "Subscription" /\ sigs = ss)
    /\ (banner "// Operations" ++ block "Query" qs ++ block "Mutation" ms
        ++ block "Subscription" ss)%list
       = (linesBefore ++ block root sigs ++ linesAfter)%list.
Proof.
  cbv zeta. intros [<- | [<- | [<- | []]]].
  - exists qs, (banner "// Operations"). eexists. split; [tauto | reflexivity].
  - exists ms, (banner "// Operations" ++ [header "Query"; Js.join nl qs; "}"; ""])%list.
    eexists. split; [tauto |]. now rewrite <- !List.app_assoc.
  - exists ss, (banner "// Operations" ++ [header "Query"; Js.join nl qs; "}"; ""]
                ++ [header "Mutation"; Js.join nl ms; "}"; ""])%list, [].
    split; [tauto |]. now rewrite <- !List.app_assoc.
Qed.

(** C10 (as amended).  Let an object definition carry a root name and let
    no later object definition carry the same name.  Then the objects
    bucket holds the definition's entry and the extractor's sequence for
    that root contains its fields in order.  generateAll returns when every
    type it renders is a string, and whenever it returns: types.ts is among
    the units, and its content is the join of the banner and the
    declarations of the bucket, one of which is the structural interface
    rendered from the entry, with one line per field; operations.ts is
    among the units exactly when some root has a non-empty field sequence,
    in particular whenever the definition has a field; and the content of
    operations.ts then holds a four-line block whose header is
    [export interface <formatted root name> {] and whose body joins the
    method signatures of the root, those of the definition's fields among
    them in order. *)
Theorem root_definition_two_units (tm : gmap string string)
    (pre post : DocumentNode) (name : string)
    (fields : option (list FieldDefinitionNode)) (description : option string)
    (options : GenerateOptions) :
  let document :=
    (pre ++ ObjectTypeDefinition name fields description :: post)%list in
  let info :=
    {| td_kind := Kind.OBJECT_TYPE_DEFINITION; td_name := name;
       td_fields := Js.mapOrEmpty (fieldInfoOf tm Kind.OBJECT_TYPE_DEFINITION) fields;
       td_description := description |} in
  let extendedTypes := parseExtendedTypes tm document in
  let operations := parseOperations tm document in
  let typesOptions := spread typesDefaults options in
  let operationsOptions := spread operationsDefaults options in
  In name operationTypes ->
  (forall d, In d post -> target d <> Some (Objects, name)) ->
  obj_get (objects extendedTypes) name = Some info
  /\ (exists before after : list OperationField,
        obj_get operations name
        = Some (before ++ List.map (operationFieldOf tm) (Js.orEmpty fields)
                ++ after)%list)
  /\ (stringTyped tm document = true ->
      exists units : list GenerateResult,
        generateAll tm document options = Ok units)
  /\ (forall units : list GenerateResult,
        generateAll tm document options = Ok units ->
        (exists (typesUnit : GenerateResult) (declarations fieldLines : list string),
            In typesUnit units
            /\ filename typesUnit = "types.ts"
            /\ content typesUnit
               = Js.join nl (pushed "// Type Definitions" declarations)
            /\ mapM (fun f => generateFieldDeclaration tm f typesOptions)
                    (td_fields info)
               = Ok fieldLines
            /\ In ("export interface " ++ formatTypeName name typesOptions ++ " {"
                     ++ nl ++ Js.join nl fieldLines ++ nl ++ "}")
                  declarations)
        /\ ((exists operationsUnit : GenerateResult,
               In operationsUnit units
               /\ filename operationsUnit = "operations.ts") <->
            exists (root : string) (fs : list OperationField),
              obj_get operations root = Some fs /\ fs <> [])
        /\ (Js.orEmpty fields <> [] ->
            exists operationsUnit : GenerateResult,
              In operationsUnit units /\ filename operationsUnit = "operations.ts")
        /\ (forall operationsUnit : GenerateResult,
              In operationsUnit units ->
              filename operationsUnit = "operations.ts" ->
              exists (sigsBefore sigs sigsAfter linesBefore linesAfter : list string),
                mapM (operationLine tm operationsOptions)
                     (List.map (operationFieldOf tm) (Js.orEmpty fields))
                = Ok sigs
                /\ content operationsUnit
                   = Js.join nl
                       (linesBefore
                        ++ [ ("export interface "
                                ++ formatTypeName name operationsOptions
                                ++ " {")%string;
                             Js.join nl (sigsBefore ++ sigs ++ sigsAfter)%list;
                             "}"; "" ]
                        ++ linesAfter)%list)).
Proof.
  cbv zeta. intros Hroot Hpost.
  set (document := (pre ++ ObjectTypeDefinition name fields description :: post)%list)
    in *.
  set (info := {| td_kind := Kind.OBJECT_TYPE_DEFINITION; td_name := name;
                  td_fields := _; td_description := description |}).
  assert (Hname : name <> "__proto__").
  { destruct Hroot as [<- | [<- | [<- | []]]]; discriminate. }
  assert (Hget : obj_get (objects (parseExtendedTypes tm document)) name = Some info).
  { pose proof (parseExtendedTypes_last tm pre post
                  (ObjectTypeDefinition name fields description) Objects name) as H.
    fold document in H. cbn [bucket_get entryOf] in H. fold info in H.
    destruct (obj_get (objects (parseExtendedTypes tm document)) name) as [i |].
    - f_equal. assert (Some (TypeEntry i) = Some (TypeEntry info)) as [= ->];
        [| reflexivity].
      apply H; [now apply assigned_Some |].
      intros d Hd Ha. apply assigned_Some in Ha as [Ha _]. exact (Hpost d Hd Ha).
    - exfalso. assert (None = Some (TypeEntry info)) as [=].
      apply H; [now apply assigned_Some |].
      intros d Hd Ha. apply assigned_Some in Ha as [Ha _]. exact (Hpost d Hd Ha). }
  assert (Hops :
    obj_get (parseOperations tm document) name
    = Some (rootFields tm name pre
            ++ List.map (operationFieldOf tm) (Js.orEmpty fields)
            ++ rootFields tm name post)%list).
  { rewrite parseOperations_get by exact Hroot.
    unfold document. now rewrite rootFields_middle. }
  split; [exact Hget |].
  split; [eauto |].
  split.
  { intros Hst. pose proof (generateAll_returnsWhen tm document options) as Hr.
    rewrite Hst in Hr. exact Hr. }
  intros units Hall.
  pose proof Hall as Hunits.
  apply generateAll_unitIf in Hunits
    as (t1 & t2 & t4 & t6 & Hc1 & _ & _ & Hc6 & Hunits).
  assert (Hkeys : hasKeys (objects (parseExtendedTypes tm document)) = true).
  { apply hasKeys_true. intros Hnil. rewrite Hnil in Hget. discriminate. }
  assert (Hunit :
    (exists operationsUnit : GenerateResult,
        In operationsUnit units /\ filename operationsUnit = "operations.ts")
    <-> hasOperations (parseOperations tm document) = true).
  { split.
    - intros (u & Hin & Hu).
      exact (proj1 (operations_unit_content tm document options units u Hall Hin Hu)).
    - intros Hc. exists {| filename := "operations.ts"; content := t6 |}.
      split; [| reflexivity]. rewrite Hunits, !in_app_iff, !in_unitIf.
      do 5 right. split; [exact Hc | reflexivity]. }
  split.
  { specialize (Hc1 Hkeys). unfold generateTypeScriptTypes in Hc1.
    apply renderCategory_Ok in Hc1 as (declarations & Hds & ->).
    destruct (mapM_Ok_In _ _ _ info Hds (obj_get_values _ _ _ Hget))
      as (declaration & Hd & Hin).
    apply generateTypeDefinition_Ok in Hd as (fieldLines & Hfl & ->);
      [| discriminate].
    exists {| filename := "types.ts";
              content := Js.join nl (pushed "// Type Definitions" declarations) |},
      declarations, fieldLines.
    split; [| repeat split; assumption].
    rewrite Hunits, Hkeys. now left. }
  split; [rewrite Hunit; apply hasOperations_parse |].
  split.
  { intros Hfields. apply Hunit. apply hasOperations_parse.
    eexists _, _. split; [exact Hops |].
    intros Hnil. apply List.app_eq_nil in Hnil as [_ Hnil].
    apply List.app_eq_nil in Hnil as [Hnil _].
    apply List.map_eq_nil in Hnil. contradiction. }
  intros u Hin Hu.
  destruct (operations_unit_content tm document options units u Hall Hin Hu)
    as [_ Hc].
  unfold generateOperations in Hc. apply bind_Ok in Hc as (lines & Hlines & [= Hc]).
  rewrite parseOperations_roots in Hlines.
  apply generateOperations_lines_roots in Hlines
    as (qs & ms & ss & Hq & Hm & Hs & ->).
  destruct (operations_block_located name
              (fun r => "export interface "
                        ++ formatTypeName r (spread operationsDefaults options)
                        ++ " {") qs ms ss Hroot)
    as (sigs & linesBefore & linesAfter & Hsigs & Hlocated).
  assert (Hall_sigs :
    mapM (operationLine tm (spread operationsDefaults options))
         (rootFields tm name document) = Ok sigs).
  { destruct Hsigs as [[-> ->] | [[-> ->] | [-> ->]]]; assumption. }
  unfold document in Hall_sigs. rewrite rootFields_middle in Hall_sigs.
  apply mapM_app_Ok in Hall_sigs as (sb & rest & Hsb & Hrest & ->).
  apply mapM_app_Ok in Hrest as (sd & sa & Hsd & Hsa & ->).
  exists sb, sd, sa, linesBefore, linesAfter.
  split; [exact Hsd |]. rewrite <- Hc. f_equal. exact Hlocated.
Qed.

(** The amended statement at the second Query definition of the document
    with two Query definitions: every rendered type is a string, so
    generateAll returns, and the definition has a field, so operations.ts
    is emitted. *)
Lemma root_definition_two_units_witness :
  exists (units : list GenerateResult) (operationsUnit : GenerateResult),
    generateAll typeMap twoQueriesDocument noOptions = Ok units
    /\ In operationsUnit units
    /\ filename operationsUnit = "operations.ts".
Proof.
  destruct (root_definition_two_units typeMap
              (firstn 2 twoQueriesDocument) (skipn 3 twoQueriesDocument) "Query"
              (Some [ {| fd_name := "b"; fd_arguments := None;
                         fd_type := NamedType "String"; fd_description := None |} ])
              None noOptions
              ltac:(simpl; auto)
              ltac:(intros d [<- | []]; discriminate))
    as (_ & _ & Hreturns & Hunits).
  destruct (Hreturns eq_refl) as (units & Hall).
  destruct (Hunits units Hall) as (_ & _ & Hemitted & _).
  destruct (Hemitted ltac:(discriminate)) as (u & Hin & Hu).
  exists units, u. split; [exact Hall |]. split; [exact Hin | exact Hu].
Defined.

(** C10 as stated fails for a root type without fields: for [type Query]
    alone the definition is in the objects bucket and carries a root name,
    yet generateAll emits types.ts only and renders it once. *)
Lemma bare_root_counterexample :
  In "Query" operationTypes
  /\ obj_keys (objects (parseExtendedTypes typeMap bareQueryDocument)) = ["Query"]
  /\ exists units : list GenerateResult,
       generateAll typeMap bareQueryDocument noOptions = Ok units
       /\ List.map filename units = ["types.ts"]
       /\ ~ In "operations.ts" (List.map filename units).
Proof.
  split; [now left |]. split; [reflexivity |].
  eexists. split; [vm_compute; reflexivity |].
  split; [reflexivity |].
  intros [H | []]. discriminate.
Qed.

(** ** The scalar registry *)

Lemma wf_initial : Registry.wf Registry.initial.
Proof. eexists. split; reflexivity. Qed.

Lemma wf_length (st : Registry.Store) : Registry.wf st -> (0 < List.length st)%nat.
Proof.
  intros (o & Ho & _). destruct st; [discriminate | simpl; lia].
Qed.

Lemma write_frozen (st : Registry.Store) (r : Registry.Ref) (o : Registry.JsObject)
    (f : gmap string string -> gmap string string) :
  st !! r = Some o -> Registry.frozen o = true ->
  Registry.write st r f = (st, Registry.TypeError).
Proof. intros Ho Hf. unfold Registry.write. now rewrite Ho, Hf. Qed.

Lemma mutate_frozen (st : Registry.Store) (r : Registry.Ref) (o : Registry.JsObject)
    (m : Registry.Mutation) :
  st !! r = Some o -> Registry.frozen o = true -> Registry.mutate st r m = st.
Proof.
  intros Ho Hf. destruct m as [k v | k | source]; cbn [Registry.mutate].
  - destruct (String.eqb k "__proto__"); [reflexivity |].
    now rewrite (write_frozen st r o _ Ho Hf).
  - now rewrite (write_frozen st r o _ Ho Hf).
  - unfold Registry.assign. case_decide; [reflexivity |].
    now rewrite (write_frozen st r o _ Ho Hf).
Qed.

Lemma mutateAll_frozen (st : Registry.Store) (r : Registry.Ref) (o : Registry.JsObject)
    (ms : list Registry.Mutation) :
  st !! r = Some o -> Registry.frozen o = true -> Registry.mutateAll st r ms = st.
Proof.
  intros Ho Hf. induction ms as [|m ms IH]; [reflexivity |].
  unfold Registry.mutateAll in *. cbn [fold_left].
  now rewrite (mutate_frozen st r o m Ho Hf).
Qed.

Lemma getScalarTypeMap_fresh (st : Registry.Store) :
  Registry.wf st ->
  let r := fst (Registry.getScalarTypeMap st) in
  let st1 := snd (Registry.getScalarTypeMap st) in
  r <> Registry.typeMapRef
  /\ st1 !! r = Some {| Registry.props := Registry.liveMap st; Registry.frozen := true |}
  /\ st1 !! Registry.typeMapRef = st !! Registry.typeMapRef.
Proof.
  intros Hwf. pose proof (wf_length st Hwf) as Hlen.
  cbn [Registry.getScalarTypeMap fst snd]. split; [| split].
  - unfold Registry.typeMapRef. lia.
  - now apply list_lookup_middle.
  - apply lookup_app_l. exact Hlen.
Qed.

Lemma updateScalarTypeMap_live (overrides : gmap string string)
    (st : Registry.Store) :
  Registry.wf st ->
  snd (Registry.updateScalarTypeMap overrides st) = Registry.Done
  /\ Registry.wf (fst (Registry.updateScalarTypeMap overrides st))
  /\ Registry.liveMap (fst (Registry.updateScalarTypeMap overrides st))
     = Registry.assignable overrides ∪ Registry.liveMap st
  /\ (forall r, r <> Registry.typeMapRef ->
        fst (Registry.updateScalarTypeMap overrides st) !! r = st !! r).
Proof.
  intros Hwf. pose proof (wf_length st Hwf) as Hlen.
  destruct Hwf as (o & Ho & Hf).
  unfold Registry.updateScalarTypeMap, Registry.assign.
  case_decide as He.
  - cbn [fst snd]. split; [reflexivity |]. split; [exists o; auto |].
    split; [| reflexivity]. rewrite He. now rewrite (left_id_L ∅ (∪)).
  - unfold Registry.write. rewrite Ho, Hf. cbn [fst snd].
    split; [reflexivity |]. split; [| split].
    + eexists. split; [apply list_lookup_insert_eq; exact Hlen | reflexivity].
    + unfold Registry.liveMap, Registry.read.
      rewrite list_lookup_insert_eq by exact Hlen. rewrite Ho. reflexivity.
    + intros r Hr. apply list_lookup_insert_ne. congruence.
Qed.

(** The live map after a merge, key by key. *)
Lemma merge_lookup (overrides live : gmap string string) (k : string) :
  (Registry.assignable overrides ∪ live) !! k
  = if String.eqb k "__proto__" then live !! k
    else match overrides !! k with
         | Some v => Some v
         | None => live !! k
         end.
Proof.
  unfold Registry.assignable.
  destruct (String.eqb_spec k "__proto__") as [-> | Hne].
  - apply lookup_union_r. apply lookup_delete_eq.
  - destruct (overrides !! k) as [v |] eqn:E.
    + apply lookup_union_Some_l. rewrite lookup_delete_ne by congruence. exact E.
    + apply lookup_union_r. rewrite lookup_delete_ne by congruence. exact E.
Qed.

(** C7 (as amended).  In a store holding [typeMap]: the getter returns a
    reference to a new frozen object, distinct from [typeMap], whose
    properties are those of the live map; whatever assignments, deletions
    or Object.assign calls the caller then attempts through that reference,
    the snapshot keeps the same properties, the live map is unchanged and
    getTypeName resolves every reference as before; a later setter call
    does not change the snapshot either.  The setter succeeds and leaves a
    live map in which each key of the overrides other than [__proto__] has
    the override's value and every other key other than [__proto__] has its
    former value, and no key disappears.  After the setter is called with
    the single override Date to Date, getTypeName resolves a reference to
    Date as Date. *)
Theorem registry_snapshot_and_merge (st : Registry.Store) :
  Registry.wf st ->
  let r := fst (Registry.getScalarTypeMap st) in
  let st1 := snd (Registry.getScalarTypeMap st) in
  (r <> Registry.typeMapRef
   /\ Registry.read st1 r = Registry.liveMap st
   /\ (exists o, st1 !! r = Some o /\ Registry.frozen o = true)
   /\ Registry.wf st1
   /\ Registry.liveMap st1 = Registry.liveMap st
   /\ (forall ms : list Registry.Mutation,
         let st2 := Registry.mutateAll st1 r ms in
         Registry.read st2 r = Registry.liveMap st
         /\ Registry.liveMap st2 = Registry.liveMap st
         /\ forall type : TypeNode,
              Registry.getTypeNameIn st2 type = Registry.getTypeNameIn st type)
   /\ (forall overrides : gmap string string,
         Registry.read (fst (Registry.updateScalarTypeMap overrides st1)) r
         = Registry.liveMap st))
  /\ (forall overrides : gmap string string,
        let st' := fst (Registry.updateScalarTypeMap overrides st) in
        snd (Registry.updateScalarTypeMap overrides st) = Registry.Done
        /\ Registry.wf st'
        /\ (forall k : string,
              k <> "__proto__" ->
              Registry.liveMap st' !! k
              = match overrides !! k with
                | Some v => Some v
                | None => Registry.liveMap st !! k
                end)
        /\ (forall k : string,
              is_Some (Registry.liveMap st !! k) ->
              is_Some (Registry.liveMap st' !! k)))
  /\ Registry.getTypeNameIn
       (fst (Registry.updateScalarTypeMap {["Date" := "Date"]} st))
       (NamedType "Date")
     = "Date".
Proof.
  intros Hwf. cbv zeta.
  destruct (getScalarTypeMap_fresh st Hwf) as (Hfresh & Hsnap & Hlive).
  cbv zeta in Hfresh, Hsnap, Hlive.
  set (r := fst (Registry.getScalarTypeMap st)) in *.
  set (st1 := snd (Registry.getScalarTypeMap st)) in *.
  assert (Hlive1 : Registry.liveMap st1 = Registry.liveMap st).
  { unfold Registry.liveMap, Registry.read. now rewrite Hlive. }
  assert (Hread1 : Registry.read st1 r = Registry.liveMap st).
  { unfold Registry.read at 1. now rewrite Hsnap. }
  assert (Hwf1 : Registry.wf st1).
  { destruct Hwf as (o & Ho & Hf). exists o. split; [now rewrite Hlive | exact Hf]. }
  split; [| split].
  - split; [exact Hfresh |]. split; [exact Hread1 |].
    split; [eexists; split; [exact Hsnap | reflexivity] |].
    split; [exact Hwf1 |]. split; [exact Hlive1 |]. split.
    + intros ms. cbv zeta.
      rewrite (mutateAll_frozen st1 r _ ms Hsnap eq_refl).
      split; [exact Hread1 |]. split; [exact Hlive1 |].
      intros type. unfold Registry.getTypeNameIn. now rewrite Hlive1.
    + intros overrides.
      destruct (updateScalarTypeMap_live overrides st1 Hwf1) as (_ & _ & _ & Hother).
      unfold Registry.read at 1. rewrite (Hother r Hfresh). exact Hread1.
  - intros overrides. cbv zeta.
    destruct (updateScalarTypeMap_live overrides st Hwf) as (Hdone & Hwf' & Hmap & _).
    split; [exact Hdone |]. split; [exact Hwf' |]. rewrite Hmap. split.
    + intros k Hk. rewrite merge_lookup.
      destruct (String.eqb_spec k "__proto__"); [contradiction | reflexivity].
    + intros k [v Hv]. rewrite merge_lookup.
      destruct (String.eqb k "__proto__"); [eauto |].
      destruct (overrides !! k); eauto.
  - destruct (updateScalarTypeMap_live {["Date" := "Date"]} st Hwf)
      as (_ & _ & Hmap & _).
    unfold Registry.getTypeNameIn. rewrite Hmap. cbn [getTypeName].
    unfold Js.get. rewrite merge_lookup.
    change (String.eqb "Date" "__proto__") with false. cbv iota.
    rewrite lookup_singleton_eq. reflexivity.
Qed.

(** The statement at the initial store: a snapshot is taken, the caller
    tries to redefine String and to delete Int through it, and Int still
    resolves to number. *)
Lemma registry_snapshot_and_merge_witness :
  Registry.getTypeNameIn
    (Registry.mutateAll (snd (Registry.getScalarTypeMap Registry.initial))
       (fst (Registry.getScalarTypeMap Registry.initial))
       [Registry.SetProp "String" "text"; Registry.DeleteProp "Int"])
    (NamedType "Int")
  = Registry.getTypeNameIn Registry.initial (NamedType "Int").
Proof.
  destruct (registry_snapshot_and_merge Registry.initial wf_initial)
    as ((_ & _ & _ & _ & _ & Hmut & _) & _ & _).
  apply (Hmut [Registry.SetProp "String" "text"; Registry.DeleteProp "Int"]).
Defined.

(** C7 as stated fails for an override under the key [__proto__]: the
    setter returns normally, yet the live map has no such entry afterwards,
    and a reference to the name resolves to the inherited object, not to
    the override. *)
Lemma updateScalarTypeMap_proto_counterexample :
  let overrides : gmap string string := {["__proto__" := "Proto"]} in
  let st' := fst (Registry.updateScalarTypeMap overrides Registry.initial) in
  overrides !! "__proto__" = Some "Proto"
  /\ snd (Registry.updateScalarTypeMap overrides Registry.initial) = Registry.Done
  /\ Registry.liveMap st' !! "__proto__" = None
  /\ Registry.getTypeNameIn st' (NamedType "__proto__") = JsInherited "__proto__".
Proof. vm_compute. repeat split. Qed.

(** ** Loading a schema file *)

Lemma loader_missing_source (existsSync : string -> bool)
    (readFileSync : string -> Loader.Thrown + string)
    (parse : string -> Loader.Thrown + DocumentNode) (schemaFile : string) :
  existsSync schemaFile = false ->
  Loader.parseGraphqlDocument existsSync readFileSync parse schemaFile
  = ([Loader.ExistsCall schemaFile],
     inl (Loader.GraphQLParseError ("Schema file not found: " ++ schemaFile) None)).
Proof.
  intros H. unfold Loader.parseGraphqlDocument, Loader.callExistsSync, Loader.bind.
  rewrite H. reflexivity.
Qed.

Lemma loader_unreadable_source (existsSync : string -> bool)
    (readFileSync : string -> Loader.Thrown + string)
    (parse : string -> Loader.Thrown + DocumentNode) (schemaFile : string)
    (e : Loader.Thrown) :
  existsSync schemaFile = true -> readFileSync schemaFile = inl e ->
  Loader.parseGraphqlDocument existsSync readFileSync parse schemaFile
  = ([Loader.ExistsCall schemaFile; Loader.ReadCall schemaFile],
     inl (if Loader.isGraphQLParseError e then e
          else Loader.GraphQLParseError
                 ("Failed to parse schema file: " ++ schemaFile)
                 (if Loader.isError e then Some e else None))).
Proof.
  intros Hx Hr.
  unfold Loader.parseGraphqlDocument, Loader.callExistsSync,
    Loader.callReadFileSync, Loader.bind, Loader.tryCatch.
  rewrite Hx, Hr. cbn. destruct (Loader.isGraphQLParseError e); reflexivity.
Qed.

Lemma loader_parse_attempted (existsSync : string -> bool)
    (readFileSync : string -> Loader.Thrown + string)
    (parse : string -> Loader.Thrown + DocumentNode) (schemaFile source : string) :
  existsSync schemaFile = true -> readFileSync schemaFile = inr source ->
  Loader.parseGraphqlDocument existsSync readFileSync parse schemaFile
  = ([Loader.ExistsCall schemaFile; Loader.ReadCall schemaFile;
      Loader.ParseCall source],
     match parse source with
     | inr document => inr document
     | inl e =>
         inl (if Loader.isGraphQLParseError e then e
              else Loader.GraphQLParseError
                     ("Failed to parse schema file: " ++ schemaFile)
                     (if Loader.isError e then Some e else None))
     end).
Proof.
  intros Hx Hr.
  unfold Loader.parseGraphqlDocument, Loader.callExistsSync,
    Loader.callReadFileSync, Loader.callParse, Loader.bind, Loader.tryCatch.
  rewrite Hx, Hr. cbn.
  destruct (parse source) as [e | document]; [| reflexivity].
  cbn. destruct (Loader.isGraphQLParseError e); reflexivity.
Qed.

(** C8 (as amended).  When the path does not exist, the loader throws the
    missing-source error, naming the path and carrying no cause, after the
    existence test alone: no read and no parse is attempted.  When the file
    is read and the parser rejects its text with an error, the loader throws
    a GraphQLParseError that names the path and carries that error as its
    cause.  The thrown value is the outcome of the call, so it reaches the
    caller.  An invocation makes at most one parse attempt, and exactly one
    precisely when the file exists and is read. *)
Theorem parseGraphqlDocument_errors (existsSync : string -> bool)
    (readFileSync : string -> Loader.Thrown + string)
    (parse : string -> Loader.Thrown + DocumentNode) (schemaFile : string) :
  let run := Loader.parseGraphqlDocument existsSync readFileSync parse schemaFile in
  (existsSync schemaFile = false ->
   run = ([Loader.ExistsCall schemaFile],
          inl (Loader.GraphQLParseError
                 ("Schema file not found: " ++ schemaFile) None)))
  /\ (forall source name message : string,
        existsSync schemaFile = true ->
        readFileSync schemaFile = inr source ->
        parse source = inl (Loader.ErrorValue name message) ->
        run = ([Loader.ExistsCall schemaFile; Loader.ReadCall schemaFile;
                Loader.ParseCall source],
               inl (Loader.GraphQLParseError
                      ("Failed to parse schema file: " ++ schemaFile)
                      (Some (Loader.ErrorValue name message)))))
  /\ (forall (source : string) (document : DocumentNode),
        existsSync schemaFile = true ->
        readFileSync schemaFile = inr source ->
        parse source = inr document ->
        run = ([Loader.ExistsCall schemaFile; Loader.ReadCall schemaFile;
                Loader.ParseCall source],
               inr document))
  /\ (Loader.parseAttempts (fst run) <= 1)%nat
  /\ (Loader.parseAttempts (fst run) = 1%nat <->
      existsSync schemaFile = true
      /\ exists source, readFileSync schemaFile = inr source).
Proof.
  cbv zeta. split; [apply loader_missing_source |].
  split.
  { intros source name message Hx Hr Hp.
    rewrite (loader_parse_attempted _ _ _ _ _ Hx Hr), Hp. reflexivity. }
  split.
  { intros source document Hx Hr Hp.
    rewrite (loader_parse_attempted _ _ _ _ _ Hx Hr), Hp. reflexivity. }
  destruct (existsSync schemaFile) eqn:Hx.
  - destruct (readFileSync schemaFile) as [e | source] eqn:Hr.
    + rewrite (loader_unreadable_source _ _ _ _ _ Hx Hr). cbn.
      split; [lia |]. split; [discriminate |].
      intros (_ & source & Hs). discriminate.
    + rewrite (loader_parse_attempted _ _ _ _ _ Hx Hr). cbn.
      split; [lia |]. split; [eauto | reflexivity].
  - rewrite (loader_missing_source _ _ _ _ Hx). cbn.
    split; [lia |]. split; [discriminate |]. intros (H & _). discriminate.
Qed.

(** The amended statement at a file system holding [schema.graphql] with a
    text the parser rejects: the error is wrapped with its cause. *)
Lemma parseGraphqlDocument_errors_witness :
  Loader.parseGraphqlDocument onlySchemaExists readBrokenSchema rejectingParse
    "schema.graphql"
  = ([Loader.ExistsCall "schema.graphql"; Loader.ReadCall "schema.graphql";
      Loader.ParseCall "type {"],
     inl (Loader.GraphQLParseError
            "Failed to parse schema file: schema.graphql"
            (Some (Loader.ErrorValue "GraphQLError"
                     "Syntax Error: Expected Name, found {.")))).
Proof.
  apply (proj1 (proj2
    (parseGraphqlDocument_errors onlySchemaExists readBrokenSchema rejectingParse
       "schema.graphql")) "type {" "GraphQLError"
       "Syntax Error: Expected Name, found {."); reflexivity.
Defined.

(** C8 as stated fails when the path exists and the file cannot be read:
    the invocation makes no parse attempt, not exactly one, and it throws
    the wrapped error that names a parse failure although the parser never
    ran and the cause is the error of the read. *)
Lemma parseGraphqlDocument_unreadable_counterexample :
  everythingExists "schema.graphql" = true
  /\ Loader.parseGraphqlDocument everythingExists readDenied rejectingParse
       "schema.graphql"
     = ([Loader.ExistsCall "schema.graphql"; Loader.ReadCall "schema.graphql"],
        inl (Loader.GraphQLParseError "Failed to parse schema file: schema.graphql"
               (Some (Loader.ErrorValue "Error" "EACCES: permission denied"))))
  /\ Loader.parseAttempts
       (fst (Loader.parseGraphqlDocument everythingExists readDenied
               rejectingParse "schema.graphql"))
     = 0%nat
  /\ Loader.parseAttempts
       (fst (Loader.parseGraphqlDocument everythingExists readDenied
               rejectingParse "schema.graphql"))
     <> 1%nat.
Proof.
  split; [reflexivity |]. split; [reflexivity |]. split; [reflexivity |].
  vm_compute. discriminate.
Qed.

(** * Further properties of the generator *)

(** ** List suffixes in the renderer *)

Lemma string_length_append (a b : string) :
  String.length (a ++ b) = (String.length a + String.length b)%nat.
Proof.
  induction a as [|x a IH]; [reflexivity |].
  rewrite append_cons. simpl. now rewrite IH.
Qed.

Lemma substring_append_l (a b : string) :
  substring 0 (String.length a) (a ++ b) = a.
Proof.
  induction a as [|x a IH]; [destruct b; reflexivity |].
  rewrite append_cons. simpl. now rewrite IH.
Qed.

Lemma substring_append_r (a b : string) (m : nat) :
  substring (String.length a) m (a ++ b) = substring 0 m b.
Proof.
  induction a as [|x a IH]; [reflexivity |].
  rewrite append_cons. simpl. exact IH.
Qed.

Lemma substring_whole (s : string) : substring 0 (String.length s) s = s.
Proof.
  induction s as [|x s IH]; [reflexivity |]. simpl. now rewrite IH.
Qed.

Lemma endsWith_append (s suffix : string) : Js.endsWith (s ++ suffix) suffix = true.
Proof.
  unfold Js.endsWith. rewrite string_length_append.
  replace (String.length s + String.length suffix - String.length suffix)%nat
    with (String.length s) by lia.
  rewrite substring_append_r, substring_whole, String.eqb_refl, andb_true_r.
  apply Nat.leb_le. lia.
Qed.

Lemma slice_end_append (s suffix : string) :
  Js.slice_end (s ++ suffix) (String.length suffix) = s.
Proof.
  unfold Js.slice_end. rewrite string_length_append.
  replace (String.length s + String.length suffix - String.length suffix)%nat
    with (String.length s) by lia.
  apply substring_append_l.
Qed.

Lemma getTypeScriptType_snoc (tm : gmap string string) (type : string)
    (options : GenerateOptions) :
  getTypeScriptType tm (type ++ "[]") options
  = let! inner := getTypeScriptType tm type options in
    Ok (JsString (Js.toString inner ++ "[]")).
Proof.
  rewrite getTypeScriptType_eq, endsWith_append.
  change 2%nat with (String.length "[]"). now rewrite slice_end_append.
Qed.

(** The value rendered for a string with [n] more list suffixes. *)
Lemma getTypeScriptType_brackets (tm : gmap string string) (type : string)
    (options : GenerateOptions) (n : nat) (v : JsValue) :
  getTypeScriptType tm type options = Ok v ->
  getTypeScriptType tm (type ++ brackets n) options
  = Ok (match n with
        | O => v
        | S _ => JsString (Js.toString v ++ brackets n)
        end).
Proof.
  intros Hv. induction n as [|n IH].
  - cbn [brackets]. now rewrite append_empty_r.
  - rewrite <- brackets_snoc, <- append_assoc, getTypeScriptType_snoc, IH.
    cbn [bind]. destruct n as [|n]; [reflexivity |].
    cbn [Js.toString]. now rewrite append_assoc.
Qed.

Lemma getTypeScriptType_brackets_text (tm : gmap string string) (type : string)
    (options : GenerateOptions) (n : nat) (v : JsValue) :
  getTypeScriptType tm type options = Ok v ->
  exists w : JsValue,
    getTypeScriptType tm (type ++ brackets n) options = Ok w
    /\ Js.toString w = Js.toString v ++ brackets n.
Proof.
  intros Hv. rewrite (getTypeScriptType_brackets tm type options n v Hv).
  eexists. split; [reflexivity |].
  destruct n; [| reflexivity]. cbn [brackets]. now rewrite append_empty_r.
Qed.

Lemma getTypeScriptType_plain (tm : gmap string string) (type : string)
    (options : GenerateOptions) :
  Js.endsWith type "[]" = false ->
  getTypeScriptType tm type options
  = Ok (Js.or_value (Js.get tm type) (formatTypeName type options)).
Proof. intros He. now rewrite getTypeScriptType_eq, He. Qed.

(** X1.  Peeling a list suffix is exact: a string extended by the two
    characters of a list suffix ends with that suffix and slicing it off
    gives the string back, so getTypeScriptType renders the string without
    its [n] trailing suffixes and puts the [n] suffixes back, for every
    string, map and options: the call on a string returns, and the text of
    its result is the text rendered for the string without the suffixes
    followed by the [n] suffixes; with a suffix the result is that text as
    a string. *)
Theorem getTypeScriptType_list_suffix (tm : gmap string string) (type : string)
    (options : GenerateOptions) (n : nat) :
  Js.endsWith (type ++ "[]") "[]" = true
  /\ Js.slice_end (type ++ "[]") 2 = type
  /\ exists v w : JsValue,
       getTypeScriptType tm type options = Ok v
       /\ getTypeScriptType tm (type ++ brackets n) options = Ok w
       /\ Js.toString w = Js.toString v ++ brackets n
       /\ (n <> 0%nat -> w = JsString (Js.toString v ++ brackets n)).
Proof.
  split; [apply endsWith_append |].
  split; [apply (slice_end_append type "[]") |].
  destruct (proj2 (getTypeScriptType_returns tm type options) eq_refl) as (v & Hv).
  exists v. eexists. split; [exact Hv |].
  split; [apply (getTypeScriptType_brackets tm type options n v Hv) |].
  destruct n as [|n]; split; try reflexivity; try congruence.
  cbn [brackets]. now rewrite append_empty_r.
Qed.

(** ** Rendering what the resolver produced *)

Lemma getTypeName_isString (tm : gmap string string) (type : TypeNode) :
  isString (getTypeName tm type) = false <->
  exists name, type = NamedType name /\ reachesPrototype tm name = true.
Proof.
  destruct type as [name | t | t]; cbn [getTypeName isString].
  - unfold reachesPrototype, Js.get, Js.or_value. split.
    + intros H. exists name. split; [reflexivity |].
      destruct (tm !! name) as [v |]; [now destruct (Js.truthy v) |].
      now destruct (Proto.has name).
    + intros (name' & [= <-] & H).
      destruct (tm !! name) as [v |]; [discriminate |]. now rewrite H.
  - split; [discriminate | now intros (name & [=] & _)].
  - split; [discriminate | now intros (name & [=] & _)].
Qed.

(** A resolved reference that is a string is the text of the resolved base
    name followed by the list suffixes. *)
Lemma getTypeName_string (tm : gmap string string) (type : TypeNode) :
  isString (getTypeName tm type) = true ->
  getTypeName tm type
  = JsString (Js.toString (Js.or_value (Js.get tm (baseName type)) (baseName type))
              ++ brackets (listWrappers type)).
Proof.
  intros H. rewrite <- getTypeName_text.
  now destruct (getTypeName tm type).
Qed.

(** X2.  Rendering what the resolver produced.  The resolver's result is a
    string except for a bare reference to a name found in Object.prototype,
    on which the renderer throws.  On a string, when the text of the
    resolved base name does not itself end with a list suffix,
    getTypeScriptType looks that text up in the scalar map a second time,
    uses what it finds as it is when it is truthy, name-formats the text
    otherwise, and appends one list suffix per list wrapper. *)
Theorem getTypeScriptType_of_getTypeName (tm : gmap string string)
    (type : TypeNode) (options : GenerateOptions) :
  let resolved :=
    Js.toString (Js.or_value (Js.get tm (baseName type)) (baseName type)) in
  (isString (getTypeName tm type) = true ->
   Js.endsWith resolved "[]" = false ->
   exists w : JsValue,
     getTypeScriptType tm (getTypeName tm type) options = Ok w
     /\ Js.toString w
        = Js.toString (Js.or_value (Js.get tm resolved)
                                   (formatTypeName resolved options))
            ++ brackets (listWrappers type))
  /\ (isString (getTypeName tm type) = false ->
      getTypeScriptType tm (getTypeName tm type) options
      = Err (NotAFunction "type.endsWith"))
  /\ (isString (getTypeName tm type) = false <->
      exists name, type = NamedType name /\ reachesPrototype tm name = true).
Proof.
  cbv zeta. split; [| split; [| apply getTypeName_isString]].
  - intros Hs He. rewrite (getTypeName_string tm type Hs).
    apply getTypeScriptType_brackets_text.
    apply (getTypeScriptType_plain tm _ options He).
  - intros Hs. destruct (getTypeName tm type); [discriminate | reflexivity].
Qed.

(** The statement at [[Stamp!]] under a map sending Stamp to Date and Date
    to string: the name is resolved twice. *)
Lemma getTypeScriptType_of_getTypeName_witness :
  getTypeName chainedMap (ListType (NonNullType (NamedType "Stamp"))) = "Date[]"
  /\ exists w : JsValue,
       getTypeScriptType chainedMap
         (getTypeName chainedMap (ListType (NonNullType (NamedType "Stamp"))))
         (prefixOptions "I")
       = Ok w
       /\ Js.toString w = "string[]".
Proof.
  split; [vm_compute; reflexivity |].
  destruct (proj1 (getTypeScriptType_of_getTypeName chainedMap
                     (ListType (NonNullType (NamedType "Stamp"))) (prefixOptions "I"))
              eq_refl eq_refl) as (w & Hw & Htext).
  exists w. split; [exact Hw |]. rewrite Htext. vm_compute. reflexivity.
Defined.

Lemma typeMap_values (name v : string) :
  typeMap !! name = Some v -> v = "string" \/ v = "number" \/ v = "boolean".
Proof.
  unfold typeMap. intros H.
  repeat (rewrite lookup_insert in H; case_decide;
          [injection H as <-; auto |]).
  rewrite lookup_empty in H. discriminate.
Qed.

Lemma typeMap_values_unmapped (v : string) :
  v = "string" \/ v = "number" \/ v = "boolean" ->
  Js.get typeMap v = None /\ Js.endsWith v "[]" = false /\ Js.truthy v = true.
Proof. intros [-> | [-> | ->]]; vm_compute; auto. Qed.

(** The text of a member of Object.prototype is no key of the initial map,
    no inherited name and no list. *)
Lemma proto_text_unmapped (name : string) :
  Proto.has name = true ->
  Js.get typeMap (Proto.text name) = None
  /\ Js.endsWith (Proto.text name) "[]" = false.
Proof.
  intros H. unfold Proto.has in H. apply existsb_exists in H as (x & Hin & Hx).
  apply String.eqb_eq in Hx as <-.
  repeat (destruct Hin as [<- | Hin]; [vm_compute; auto |]). destruct Hin.
Qed.

(** X3.  Under the initial scalar map and with empty or absent prefix and
    suffix, rendering a flattened type gives the flattened type back: for a
    reference that the resolver turns into a string and whose base name
    does not end with a list suffix, getTypeScriptType returns exactly what
    getTypeName produced. *)
Theorem getTypeScriptType_initial_identity (type : TypeNode)
    (options : GenerateOptions) :
  isString (getTypeName typeMap type) = true ->
  Js.endsWith (baseName type) "[]" = false ->
  Js.or_else (prefix options) "" = "" ->
  Js.or_else (suffix options) "" = "" ->
  getTypeScriptType typeMap (getTypeName typeMap type) options
  = Ok (getTypeName typeMap type).
Proof.
  intros Hstr He Hp Hs.
  assert (Hfmt : forall name, formatTypeName name options = name).
  { intros name. unfold formatTypeName. rewrite Hp, Hs.
    now rewrite append_empty_r. }
  assert (Hbase : forall resolved : string,
    Js.get typeMap resolved = None -> Js.endsWith resolved "[]" = false ->
    getTypeScriptType typeMap resolved options = Ok (JsString resolved)).
  { intros resolved Hget Hends.
    rewrite (getTypeScriptType_plain typeMap resolved options Hends), Hget.
    cbn [Js.or_value]. now rewrite Hfmt. }
  rewrite (getTypeName_string typeMap type Hstr).
  set (text := Js.toString (Js.or_value (Js.get typeMap (baseName type))
                                        (baseName type))).
  assert (Htext : Js.get typeMap text = None /\ Js.endsWith text "[]" = false).
  { assert (Hcases :
      (exists v, typeMap !! baseName type = Some v /\ text = v)
      \/ (Proto.has (baseName type) = true /\ text = Proto.text (baseName type))
      \/ (Js.get typeMap (baseName type) = None /\ text = baseName type)).
    { subst text. unfold Js.get, Js.or_value.
      destruct (typeMap !! baseName type) as [v |] eqn:E.
      - left. exists v. split; [reflexivity |].
        destruct (typeMap_values_unmapped v (typeMap_values _ _ E)) as (_ & _ & Ht).
        now rewrite Ht.
      - destruct (Proto.has (baseName type)); [right; left | right; right]; auto. }
    destruct Hcases as [(v & E & ->) | [[Ep ->] | [Hn ->]]].
    - destruct (typeMap_values_unmapped v (typeMap_values _ _ E)) as (Hn & Hv & _).
      auto.
    - now apply proto_text_unmapped.
    - auto. }
  destruct Htext as [Hget Hends].
  rewrite (getTypeScriptType_brackets typeMap text options _ _
             (Hbase text Hget Hends)).
  destruct (listWrappers type); [| reflexivity].
  cbn [brackets]. now rewrite append_empty_r.
Qed.

(** The statement at [[User!]!] without options. *)
Lemma getTypeScriptType_initial_identity_witness :
  getTypeScriptType typeMap
    (getTypeName typeMap (NonNullType (ListType (NonNullType (NamedType "User")))))
    noOptions
  = Ok (getTypeName typeMap
          (NonNullType (ListType (NonNullType (NamedType "User"))))).
Proof.
  apply (getTypeScriptType_initial_identity
           (NonNullType (ListType (NonNullType (NamedType "User")))) noOptions);
    reflexivity.
Defined.

(** ** Composition and invariants of the classifier *)

Lemma target_entryOf (tm : gmap string string) (def : DefinitionNode)
    (b : Bucket) (n : string) :
  target def = Some (b, n) -> exists e, entryOf tm def = Some e.
Proof. destruct def; cbn [target entryOf]; intros H; try discriminate; eauto. Qed.

Lemma assigned_entryOf (tm : gmap string string) (def : DefinitionNode)
    (b : Bucket) (n : string) :
  assigned def = Some (b, n) -> exists e, entryOf tm def = Some e.
Proof. intros H. apply assigned_Some in H as [H _]. eapply target_entryOf, H. Qed.

Lemma parseExtendedTypes_fold_merge (tm : gmap string string) (b : Bucket)
    (n : string) (document : DocumentNode) :
  forall m : ExtendedTypeMap,
    bucket_get (fold_left (parseExtendedTypes_def tm) document m) b n
    = match bucket_get (parseExtendedTypes tm document) b n with
      | Some e => Some e
      | None => bucket_get m b n
      end.
Proof.
  unfold parseExtendedTypes.
  induction document as [|d document IH]; intros m.
  - cbn [fold_left]. now rewrite bucket_get_empty.
  - cbn [fold_left].
    rewrite (IH (parseExtendedTypes_def tm m d)),
      (IH (parseExtendedTypes_def tm emptyExtendedTypeMap d)).
    destruct (bucket_get (fold_left _ document emptyExtendedTypeMap) b n);
      [reflexivity |].
    rewrite !parseExtendedTypes_def_get, bucket_get_empty.
    case_decide as Ht; [| reflexivity].
    destruct (assigned_entryOf tm d b n Ht) as [e ->]. reflexivity.
Qed.

(** X4.  Classifying a concatenation: the entry a bucket holds under a name
    after [pre ++ post] is the one it holds after [post] alone when there
    is one, and otherwise the one it holds after [pre] alone; later
    definitions win, earlier ones are kept where not redefined. *)
Theorem parseExtendedTypes_app (tm : gmap string string) (pre post : DocumentNode)
    (b : Bucket) (n : string) :
  bucket_get (parseExtendedTypes tm (pre ++ post)%list) b n
  = match bucket_get (parseExtendedTypes tm post) b n with
    | Some e => Some e
    | None => bucket_get (parseExtendedTypes tm pre) b n
    end.
Proof.
  unfold parseExtendedTypes at 1. rewrite fold_left_app.
  apply parseExtendedTypes_fold_merge.
Qed.

(** X5.  Every value a bucket holds under a key carries that key as its
    name and the kind tag of its bucket, each of its fields carries the same
    kind tag, and the values of the scalars bucket have no fields. *)
Theorem parseExtendedTypes_entry_tags (tm : gmap string string)
    (document : DocumentNode) (b : Bucket) (n : string) (e : Entry) :
  bucket_get (parseExtendedTypes tm document) b n = Some e ->
  entryName e = n
  /\ entryKind e = bucketKind b
  /\ (forall f, In f (entryFields e) -> fi_kind f = bucketKind b)
  /\ (b = Scalars -> entryFields e = []).
Proof.
  intros H. apply parseExtendedTypes_origin in H as (def & _ & Ht & He).
  apply assigned_Some in Ht as [Ht _].
  destruct def as [name fs d | name fs d | name d | name vs d | name fs d
                  | name ts d | kind];
    cbn [target entryOf] in Ht, He; try discriminate;
    injection Ht as <- <-; injection He as <-;
    cbn [entryName entryKind entryFields bucketKind td_name td_kind td_fields
         en_name en_kind if_name if_kind if_fields un_name un_kind];
    (split; [reflexivity |]); (split; [reflexivity |]);
    (split; [| try discriminate; reflexivity]);
    try (intros f []);
    destruct fs as [fs |]; cbn; try (intros f []);
    intros f Hf; apply in_map_iff in Hf as (x & <- & _); reflexivity.
Qed.

(** The statement at the document with a schema definition, an enum, a
    directive definition, an object and a union. *)
Lemma parseExtendedTypes_entry_tags_witness :
  entryName (EnumEntry {| en_kind := Kind.ENUM_TYPE_DEFINITION; en_name := "Role";
                          en_values := ["ADMIN"; "USER"]; en_description := None |})
  = "Role"
  /\ entryKind (EnumEntry {| en_kind := Kind.ENUM_TYPE_DEFINITION; en_name := "Role";
                             en_values := ["ADMIN"; "USER"]; en_description := None |})
     = bucketKind Enums.
Proof.
  destruct (parseExtendedTypes_entry_tags typeMap mixedDocument Enums "Role"
              (EnumEntry {| en_kind := Kind.ENUM_TYPE_DEFINITION; en_name := "Role";
                            en_values := ["ADMIN"; "USER"]; en_description := None |})
              eq_refl) as (Hn & Hk & _).
  split; [exact Hn | exact Hk].
Defined.

(** ** Key order of the buckets *)

Lemma obj_keys_define {V : Type} (o : JsObj V) (k : string) (v : V) :
  obj_keys (obj_define o k v) = addKey (obj_keys o) k.
Proof.
  unfold addKey, hasKey, obj_keys.
  induction o as [|[k0 v0] o IH]; [reflexivity |].
  cbn [obj_define List.map existsb fst].
  destruct (String.eqb k0 k); cbn [List.map fst orb]; [reflexivity |].
  rewrite IH. destruct (existsb _ (List.map fst o)); reflexivity.
Qed.

Lemma obj_keys_set {V : Type} (o : JsObj V) (k : string) (v : V) :
  obj_keys (obj_set o k v)
  = if String.eqb k "__proto__" then obj_keys o else addKey (obj_keys o) k.
Proof.
  unfold obj_set. destruct (String.eqb k "__proto__"); [reflexivity |].
  apply obj_keys_define.
Qed.

Lemma bucket_keys_def (tm : gmap string string) (m : ExtendedTypeMap)
    (def : DefinitionNode) (b : Bucket) :
  bucket_keys (parseExtendedTypes_def tm m def) b
  = match assigned def with
    | Some (b', n) => if decide (b' = b) then addKey (bucket_keys m b) n
                      else bucket_keys m b
    | None => bucket_keys m b
    end.
Proof.
  destruct def as [name fs d | name fs d | name d | name vs d | name fs d
                  | name ts d | kind];
    destruct b; unfold assigned;
    cbn [parseExtendedTypes_def bucket_keys target
         objects inputs scalars enums interfaces unions];
    try reflexivity;
    try (destruct (String.eqb name "__proto__"); [reflexivity |];
         case_decide; [discriminate | reflexivity]);
    rewrite obj_keys_set;
    (destruct (String.eqb name "__proto__"); [reflexivity |]);
    (case_decide; [reflexivity | congruence]).
Qed.

Lemma bucket_keys_fold (tm : gmap string string) (b : Bucket)
    (document : DocumentNode) :
  forall m : ExtendedTypeMap,
    bucket_keys (fold_left (parseExtendedTypes_def tm) document m) b
    = fold_left addKey (namesFor b document) (bucket_keys m b).
Proof.
  induction document as [|d document IH]; intros m; [reflexivity |].
  cbn [fold_left namesFor flat_map]. rewrite IH, bucket_keys_def.
  fold (namesFor b document).
  destruct (assigned d) as [[b' n] |]; [| reflexivity].
  case_decide; reflexivity.
Qed.

Lemma hasKey_app (keys : list string) (x y : string) :
  hasKey (keys ++ [x])%list y = hasKey keys y || String.eqb x y.
Proof.
  unfold hasKey. rewrite existsb_app. cbn [existsb]. now rewrite orb_false_r.
Qed.

Lemma filter_filter_absorb (keys : list string) (x : string) (l : list string) :
  hasKey keys x = true ->
  List.filter (fun y => negb (hasKey keys y))
              (List.filter (fun y => negb (String.eqb x y)) l)
  = List.filter (fun y => negb (hasKey keys y)) l.
Proof.
  intros Hx. induction l as [|y l IH]; [reflexivity |].
  cbn [List.filter]. destruct (String.eqb_spec x y) as [<- | Hne]; cbn [negb].
  - rewrite Hx. cbn [negb]. exact IH.
  - cbn [List.filter]. now rewrite IH.
Qed.

Lemma filter_snoc_key (keys : list string) (x : string) (l : list string) :
  List.filter (fun y => negb (hasKey (keys ++ [x])%list y)) l
  = List.filter (fun y => negb (hasKey keys y))
                (List.filter (fun y => negb (String.eqb x y)) l).
Proof.
  induction l as [|y l IH]; [reflexivity |].
  cbn [List.filter]. rewrite hasKey_app, IH.
  destruct (String.eqb x y); cbn [negb List.filter].
  - now rewrite orb_true_r.
  - now rewrite orb_false_r.
Qed.

Lemma addKey_fold (l : list string) :
  forall keys : list string,
    fold_left addKey l keys
    = (keys ++ List.filter (fun y => negb (hasKey keys y)) (firstOccurrences l))%list.
Proof.
  induction l as [|x l IH]; intros keys.
  - cbn. now rewrite List.app_nil_r.
  - cbn [fold_left firstOccurrences List.filter]. rewrite IH. unfold addKey.
    destruct (hasKey keys x) eqn:Hx; cbn [negb].
    + now rewrite filter_filter_absorb.
    + rewrite filter_snoc_key, <- List.app_assoc. reflexivity.
Qed.

Lemma firstOccurrences_NoDup (l : list string) : List.NoDup (firstOccurrences l).
Proof.
  induction l as [|x l IH]; [constructor |].
  cbn [firstOccurrences]. constructor.
  - intros Hin. apply filter_In in Hin as [_ Hne].
    now rewrite String.eqb_refl in Hne.
  - now apply List.NoDup_filter.
Qed.

Lemma bucket_keys_first (tm : gmap string string) (document : DocumentNode)
    (b : Bucket) :
  bucket_keys (parseExtendedTypes tm document) b
  = firstOccurrences (namesFor b document).
Proof.
  unfold parseExtendedTypes. rewrite bucket_keys_fold, addKey_fold.
  replace (bucket_keys emptyExtendedTypeMap b) with (@nil string)
    by (destruct b; reflexivity).
  cbn [app hasKey existsb negb].
  induction (firstOccurrences (namesFor b document)) as [|y l IH];
    [reflexivity |].
  cbn [List.filter]. now rewrite IH.
Qed.

Lemma namesFor_In (b : Bucket) (document : DocumentNode) (n : string) :
  In n (namesFor b document) <->
  exists def, In def document /\ target def = Some (b, n) /\ n <> "__proto__".
Proof.
  unfold namesFor. rewrite in_flat_map. split.
  - intros (def & Hin & Hn). exists def. split; [exact Hin |].
    apply assigned_Some.
    destruct (assigned def) as [[b' n'] |]; [| destruct Hn].
    case_decide; [| destruct Hn]. destruct Hn as [<- | []]. now subst.
  - intros (def & Hin & Ha). apply assigned_Some in Ha.
    exists def. split; [exact Hin |]. rewrite Ha.
    case_decide; [now left | congruence].
Qed.

(** X6.  The keys of a bucket are the names, other than [__proto__], of
    the definitions of its kind, in the order of their first occurrence in
    the document and without repetition: redefining a name changes the
    value stored under it but not its place among the keys, and a
    definition named [__proto__] leaves no key. *)
Theorem parseExtendedTypes_key_order (tm : gmap string string)
    (document : DocumentNode) (b : Bucket) :
  bucket_keys (parseExtendedTypes tm document) b
  = firstOccurrences (namesFor b document)
  /\ List.NoDup (bucket_keys (parseExtendedTypes tm document) b)
  /\ (forall n : string,
        In n (namesFor b document) <->
        exists def, In def document /\ target def = Some (b, n)
                    /\ n <> "__proto__")
  /\ ~ In "__proto__" (bucket_keys (parseExtendedTypes tm document) b).
Proof.
  split; [apply bucket_keys_first |].
  split; [rewrite bucket_keys_first; apply firstOccurrences_NoDup |].
  split; [intros n; apply namesFor_In |].
  rewrite bucket_keys_first. intros Hin.
  assert (Hsub : forall l x, In x (firstOccurrences l) -> In x l).
  { induction l as [|y l IH]; intros x Hx; [destruct Hx |].
    cbn [firstOccurrences] in Hx. destruct Hx as [-> | Hx]; [now left |].
    apply filter_In in Hx as [Hx _]. right. now apply IH. }
  apply Hsub, namesFor_In in Hin as (def & _ & _ & Hne). now apply Hne.
Qed.

(** ** What generateAll reads of a document *)

Lemma sameRendered_step (tm : gmap string string) (m m' : ExtendedTypeMap)
    (def : DefinitionNode) :
  sameRendered m m' ->
  sameRendered (parseExtendedTypes_def tm m def)
               (if rendered def then parseExtendedTypes_def tm m' def else m').
Proof.
  intros (Ho & Hi & He & Hf & Hu).
  destruct def; cbn [rendered target parseExtendedTypes_def]; unfold sameRendered;
    cbn [objects inputs enums interfaces unions];
    rewrite ?Ho, ?Hi, ?He, ?Hf, ?Hu; auto.
Qed.

Lemma sameRendered_fold (tm : gmap string string) (document : DocumentNode) :
  forall m m' : ExtendedTypeMap,
    sameRendered m m' ->
    sameRendered (fold_left (parseExtendedTypes_def tm) document m)
                 (fold_left (parseExtendedTypes_def tm)
                            (List.filter rendered document) m').
Proof.
  induction document as [|d document IH]; intros m m' H; [exact H |].
  cbn [fold_left List.filter].
  pose proof (sameRendered_step tm m m' d H) as Hstep.
  destruct (rendered d); cbn [fold_left]; now apply IH.
Qed.

Lemma rootFields_filter_rendered (tm : gmap string string) (root : string)
    (document : DocumentNode) :
  rootFields tm root (List.filter rendered document) = rootFields tm root document.
Proof.
  unfold rootFields.
  induction document as [|d document IH]; [reflexivity |].
  cbn [List.filter flat_map].
  destruct d; cbn [rendered target flat_map rootFieldsOf app];
    rewrite IH; reflexivity.
Qed.

Lemma rendered_filter_same (tm : gmap string string) (document : DocumentNode) :
  sameRendered (parseExtendedTypes tm document)
               (parseExtendedTypes tm (List.filter rendered document))
  /\ parseOperations tm document
     = parseOperations tm (List.filter rendered document).
Proof.
  split.
  - apply sameRendered_fold. repeat split.
  - now rewrite !parseOperations_roots, !rootFields_filter_rendered.
Qed.

(** X7.  generateAll never reads scalar definitions or definitions of an
    unrecognized kind: removing them from the document leaves every output
    unit unchanged, so a schema's custom scalars get no declaration in any
    unit. *)
Theorem generateAll_ignores_scalars (tm : gmap string string)
    (document : DocumentNode) (options : GenerateOptions) :
  generateAll tm document options
  = generateAll tm (List.filter rendered document) options.
Proof.
  destruct (rendered_filter_same tm document) as ((Ho & Hi & He & Hf & Hu) & Hops).
  unfold generateAll. rewrite Ho, Hi, He, Hf, Hu, Hops. reflexivity.
Qed.

Lemma bucket_get_kept (tm : gmap string string) (b : Bucket) (n : string)
    (document : DocumentNode) :
  forall m : ExtendedTypeMap,
    bucket_get m b n <> None
    \/ (exists d, In d document /\ assigned d = Some (b, n)) ->
    bucket_get (fold_left (parseExtendedTypes_def tm) document m) b n <> None.
Proof.
  induction document as [|d document IH]; intros m H.
  - destruct H as [H | (d & [] & _)]. exact H.
  - cbn [fold_left]. apply IH.
    rewrite parseExtendedTypes_def_get.
    destruct H as [H | (d' & [<- | Hin] & Ht)].
    + left. case_decide as Ht; [| exact H].
      destruct (assigned_entryOf tm d b n Ht) as [e ->]. discriminate.
    + left. case_decide; [| contradiction].
      destruct (assigned_entryOf tm d b n Ht) as [e ->]. discriminate.
    + right. eauto.
Qed.

Lemma bucket_get_keys (m : ExtendedTypeMap) (b : Bucket) (n : string) :
  bucket_get m b n <> None -> bucket_keys m b <> [].
Proof.
  destruct b; cbn [bucket_get bucket_keys]; unfold obj_keys;
    intros H Hnil; apply List.map_eq_nil in Hnil; rewrite Hnil in H;
    now apply H.
Qed.

Lemma defined_bucket_nonempty (tm : gmap string string) (document : DocumentNode)
    (d : DefinitionNode) (b : Bucket) (n : string) :
  In d document -> assigned d = Some (b, n) ->
  bucket_keys (parseExtendedTypes tm document) b <> [].
Proof.
  intros Hin Ht. apply (bucket_get_keys _ b n).
  unfold parseExtendedTypes. apply bucket_get_kept. right. eauto.
Qed.

Lemma rootFields_defined (tm : gmap string string) (root : string)
    (document : DocumentNode) :
  rootFields tm root document <> [] ->
  exists d, In d document /\ target d = Some (Objects, root).
Proof.
  unfold rootFields.
  induction document as [|d document IH]; intros Hroot; [now destruct Hroot |].
  cbn [flat_map] in Hroot.
  destruct (rootFieldsOf tm root d) eqn:E.
  - destruct (IH Hroot) as (d' & Hin & Ht). exists d'. split; [now right | exact Ht].
  - exists d. split; [now left |].
    destruct d as [name fs ds | | | | | | ]; cbn [rootFieldsOf] in E;
      try discriminate.
    destruct (String.eqb_spec name root) as [-> | _]; [reflexivity | discriminate].
Qed.

Lemma hasOperations_object (tm : gmap string string) (document : DocumentNode) :
  hasOperations (parseOperations tm document) = true ->
  objects (parseExtendedTypes tm document) <> [].
Proof.
  intros H. rewrite parseOperations_roots, hasOperations_operationsOf in H.
  assert (Hroot : exists root, root <> "__proto__"
                               /\ rootFields tm root document <> []).
  { destruct H as [H | [H | H]]; eexists; (split; [| exact H]); discriminate. }
  destruct Hroot as (root & Hne & Hroot).
  destruct (rootFields_defined tm root document Hroot) as (d & Hin & Ht).
  assert (Ha : assigned d = Some (Objects, root)) by now apply assigned_Some.
  pose proof (defined_bucket_nonempty tm document d Objects root Hin Ha) as Hk.
  cbn [bucket_keys] in Hk. intros Hnil. rewrite Hnil in Hk. now apply Hk.
Qed.

Lemma namesFor_nil (b : Bucket) (document : DocumentNode) :
  b <> Scalars ->
  (forall d, In d document -> emitting d = false) ->
  namesFor b document = [].
Proof.
  intros Hb Hall. destruct (namesFor b document) as [|n l] eqn:E; [reflexivity |].
  exfalso.
  assert (Hin : In n (namesFor b document)) by (rewrite E; now left).
  apply namesFor_In in Hin as (def & Hin & Ha). apply assigned_Some in Ha.
  specialize (Hall def Hin). unfold emitting in Hall. rewrite Ha in Hall.
  destruct b; congruence.
Qed.

Lemma obj_keys_nil {V : Type} (o : JsObj V) : obj_keys o = [] -> o = [].
Proof. destruct o; [reflexivity | discriminate]. Qed.

(** X8.  generateAll returns no unit at all exactly when the document has
    no object, input, enum, interface or union definition under a name
    other than [__proto__]; a document made of scalar definitions,
    unrecognized definitions and definitions named [__proto__] only
    produces nothing, and does so without an exception. *)
Theorem generateAll_nil_iff (tm : gmap string string) (document : DocumentNode)
    (options : GenerateOptions) :
  generateAll tm document options = Ok []
  <-> forall d, In d document -> emitting d = false.
Proof.
  split.
  - intros Hnil d Hin. destruct (emitting d) eqn:Hr; [| reflexivity]. exfalso.
    assert (Hb : exists b n, assigned d = Some (b, n) /\ b <> Scalars).
    { unfold emitting in Hr. destruct (assigned d) as [[b n] |]; [| discriminate].
      exists b, n. split; [reflexivity |]. intros ->. discriminate. }
    destruct Hb as (b & n & Ht & Hb).
    pose proof (defined_bucket_nonempty tm document d b n Hin Ht) as Hk.
    apply generateAll_unitIf in Hnil as (t1 & t2 & t4 & t6 & _ & _ & _ & _ & Hnil).
    assert (Hkeys : forall (V : Type) (o : JsObj V),
               obj_keys o <> [] -> hasKeys o = true).
    { intros V o Ho. apply hasKeys_true. intros ->. now apply Ho. }
    destruct b; cbn [bucket_keys] in Hk; try contradiction;
      apply Hkeys in Hk; rewrite Hk in Hnil; cbn [unitIf] in Hnil;
      repeat match type of Hnil with
             | context [unitIf ?c ?u] => destruct c; cbn [unitIf app] in Hnil
             end; discriminate.
  - intros Hall.
    assert (Hempty : forall b, b <> Scalars ->
                       bucket_keys (parseExtendedTypes tm document) b = []).
    { intros b Hb. rewrite bucket_keys_first, (namesFor_nil b document Hb Hall).
      reflexivity. }
    assert (Ho := obj_keys_nil _ (Hempty Objects ltac:(discriminate))).
    assert (Hi := obj_keys_nil _ (Hempty Inputs ltac:(discriminate))).
    assert (He := obj_keys_nil _ (Hempty Enums ltac:(discriminate))).
    assert (Hf := obj_keys_nil _ (Hempty Interfaces ltac:(discriminate))).
    assert (Hu := obj_keys_nil _ (Hempty Unions ltac:(discriminate))).
    cbn [bucket_keys] in Ho, Hi, He, Hf, Hu.
    assert (Hops : hasOperations (parseOperations tm document) = false).
    { destruct (hasOperations _) eqn:E; [| reflexivity].
      now destruct (hasOperations_object tm document E). }
    unfold generateAll. rewrite Ho, Hi, He, Hf, Hu, Hops. reflexivity.
Qed.

(** X9.  operations.ts never comes alone: whenever generateAll returns and
    emits it, a root object definition has a field, that definition is in
    the objects bucket, and types.ts is emitted as the first unit, with the
    text generateTypeScriptTypes renders for the objects bucket. *)
Theorem generateAll_operations_after_types (tm : gmap string string)
    (document : DocumentNode) (options : GenerateOptions)
    (units : list GenerateResult) :
  generateAll tm document options = Ok units ->
  In "operations.ts" (List.map filename units) ->
  exists (typesText : string) (rest : list GenerateResult),
    generateTypeScriptTypes tm (objects (parseExtendedTypes tm document)) options
    = Ok typesText
    /\ units = {| filename := "types.ts"; content := typesText |} :: rest.
Proof.
  intros Hall.
  apply generateAll_unitIf in Hall as (t1 & t2 & t4 & t6 & Hc1 & _ & _ & _ & ->).
  pose proof (hasOperations_object tm document) as Hobj.
  destruct (hasOperations (parseOperations tm document)).
  - intros _. specialize (Hobj eq_refl). apply hasKeys_true in Hobj.
    rewrite Hobj. cbn [unitIf app]. exists t1. eauto.
  - clear Hobj.
    destruct (hasKeys (objects _)), (hasKeys (inputs _)), (hasKeys (enums _)),
      (hasKeys (interfaces _)), (hasKeys (unions _));
      cbn; intros H; intuition discriminate.
Qed.

(** The statement at the document with Query and Mutation roots. *)
Lemma generateAll_operations_after_types_witness :
  exists (units : list GenerateResult) (typesText : string)
         (rest : list GenerateResult),
    generateAll typeMap twoQueriesDocument noOptions = Ok units
    /\ generateTypeScriptTypes typeMap
         (objects (parseExtendedTypes typeMap twoQueriesDocument)) noOptions
       = Ok typesText
    /\ units = {| filename := "types.ts"; content := typesText |} :: rest.
Proof.
  eexists.
  assert (Hall : generateAll typeMap twoQueriesDocument noOptions = Ok _)
    by (vm_compute; reflexivity).
  destruct (generateAll_operations_after_types typeMap twoQueriesDocument noOptions
              _ Hall ltac:(vm_compute; right; left; reflexivity))
    as (typesText & rest & Htypes & Hunits).
  exists typesText, rest. split; [exact Hall |]. split; [exact Htypes | exact Hunits].
Defined.

(** ** Shape of the emitted text *)

Lemma join_snoc_empty (sep : string) (l : list string) :
  l <> [] -> Js.join sep (l ++ [""])%list = Js.join sep l ++ sep.
Proof.
  induction l as [|x l IH]; [congruence |]. intros _.
  destruct l as [|y l].
  - cbn [app]. rewrite join_cons2. unfold Js.join. cbn [String.concat].
    now rewrite append_empty_r.
  - change ((x :: y :: l) ++ [""])%list with (x :: y :: (l ++ [""]))%list.
    rewrite !join_cons2.
    change (y :: (l ++ [""]))%list with ((y :: l) ++ [""])%list.
    rewrite IH by discriminate. now rewrite !append_assoc.
Qed.

Lemma pushed_shape (title : string) (declarations : list string) :
  declarations <> [] ->
  exists body : list string,
    pushed title declarations
    = ("/* Auto-generated by koatty-graphql */" :: "" :: body ++ [""])%list.
Proof.
  intros Hne. unfold pushed, banner.
  assert (Hflat : exists l, flat_map (fun d => [d; ""]) declarations
                            = (l ++ [""])%list).
  { induction declarations as [|d ds IH]; [congruence |].
    cbn [flat_map]. destruct ds as [|d' ds].
    - exists [d]. reflexivity.
    - destruct (IH ltac:(discriminate)) as [l ->].
      exists (d :: "" :: l). reflexivity. }
  destruct Hflat as [l ->]. exists (title :: "" :: l). reflexivity.
Qed.

Lemma framed_lines_content (body : list string) :
  exists middle : string,
    Js.join nl ("/* Auto-generated by koatty-graphql */" :: "" :: body ++ [""])%list
    = "/* Auto-generated by koatty-graphql */" ++ nl ++ middle ++ nl.
Proof.
  change ("/* Auto-generated by koatty-graphql */" :: "" :: body ++ [""])%list
    with (("/* Auto-generated by koatty-graphql */" :: "" :: body) ++ [""])%list.
  rewrite join_snoc_empty by discriminate.
  rewrite join_cons2. exists (Js.join nl ("" :: body)).
  now rewrite !append_assoc.
Qed.

Lemma pushed_framed (title : string) (declarations : list string) :
  declarations <> [] ->
  exists middle : string,
    Js.join nl (pushed title declarations)
    = "/* Auto-generated by koatty-graphql */" ++ nl ++ middle ++ nl.
Proof.
  intros H. destruct (pushed_shape title declarations H) as [body ->].
  apply framed_lines_content.
Qed.

Lemma renderCategory_framed {V : Type} (title : string) (render : V -> Result string)
    (defs : JsObj V) (text : string) :
  hasKeys defs = true ->
  renderCategory title render defs = Ok text ->
  exists middle : string,
    text = "/* Auto-generated by koatty-graphql */" ++ nl ++ middle ++ nl.
Proof.
  intros H Hr. apply hasKeys_true in H.
  apply renderCategory_Ok in Hr as (ds & Hds & ->).
  apply pushed_framed. apply mapM_Ok_length in Hds.
  destruct defs; [congruence |]. destruct ds; [discriminate | discriminate].
Qed.

Lemma renderPureCategory_framed {V : Type} (title : string) (render : V -> string)
    (defs : JsObj V) :
  hasKeys defs = true ->
  exists middle : string,
    renderPureCategory title render defs
    = "/* Auto-generated by koatty-graphql */" ++ nl ++ middle ++ nl.
Proof.
  intros H. apply hasKeys_true in H. unfold renderPureCategory.
  apply pushed_framed. destruct defs; [congruence | discriminate].
Qed.

Lemma generateOperations_framed (tm : gmap string string) (document : DocumentNode)
    (options : GenerateOptions) (text : string) :
  generateOperations tm (parseOperations tm document) options = Ok text ->
  exists middle : string,
    text = "/* Auto-generated by koatty-graphql */" ++ nl ++ middle ++ nl.
Proof.
  unfold generateOperations. intros H.
  apply bind_Ok in H as (lines & Hlines & [= <-]).
  rewrite parseOperations_roots in Hlines.
  apply generateOperations_lines_roots in Hlines as (qs & ms & ss & _ & _ & _ & ->).
  unfold banner. cbn [app].
  match goal with
  | |- context [Js.join nl (_ :: "" :: ?t :: "" :: ?h :: ?f :: "}" :: "" :: ?h2
                             :: ?f2 :: "}" :: "" :: ?h3 :: ?f3 :: "}" :: "" :: [])] =>
      change (Js.join nl ("/* Auto-generated by koatty-graphql */" :: "" :: t :: ""
                          :: h :: f :: "}" :: "" :: h2 :: f2 :: "}" :: ""
                          :: h3 :: f3 :: "}" :: "" :: []))
        with (Js.join nl ("/* Auto-generated by koatty-graphql */" :: ""
                          :: [t; ""; h; f; "}"; ""; h2; f2; "}"; ""; h3; f3; "}"]
                          ++ [""])%list)
  end.
  apply framed_lines_content.
Qed.

(** X10.  Every unit generateAll returns starts with the comment line
    [/* Auto-generated by koatty-graphql */] followed by a line feed and
    ends with a line feed. *)
Theorem generateAll_units_framed (tm : gmap string string) (document : DocumentNode)
    (options : GenerateOptions) (units : list GenerateResult)
    (unit : GenerateResult) :
  generateAll tm document options = Ok units ->
  In unit units ->
  exists middle : string,
    content unit = "/* Auto-generated by koatty-graphql */" ++ nl ++ middle ++ nl.
Proof.
  intros Hall.
  apply generateAll_unitIf in Hall
    as (t1 & t2 & t4 & t6 & Hc1 & Hc2 & Hc4 & Hc6 & ->).
  rewrite !in_app_iff, !in_unitIf.
  intros [H | [H | [H | [H | [H | H]]]]]; destruct H as [Hc ->];
    cbn [content].
  - specialize (Hc1 Hc). unfold generateTypeScriptTypes in Hc1.
    exact (renderCategory_framed _ _ _ _ Hc Hc1).
  - specialize (Hc2 Hc). unfold generateInputTypes in Hc2.
    exact (renderCategory_framed _ _ _ _ Hc Hc2).
  - unfold generateEnums. now apply renderPureCategory_framed.
  - specialize (Hc4 Hc). unfold generateInterfaces in Hc4.
    exact (renderCategory_framed _ _ _ _ Hc Hc4).
  - unfold generateUnions. now apply renderPureCategory_framed.
  - exact (generateOperations_framed tm document options _ (Hc6 Hc)).
Qed.

(** The statement at the types unit of the document with two Query
    definitions. *)
Lemma generateAll_units_framed_witness :
  exists (units : list GenerateResult) (unit : GenerateResult) (middle : string),
    generateAll typeMap twoQueriesDocument noOptions = Ok units
    /\ In unit units
    /\ filename unit = "types.ts"
    /\ content unit = "/* Auto-generated by koatty-graphql */" ++ nl ++ middle ++ nl.
Proof.
  let v := eval vm_compute in (generateAll typeMap twoQueriesDocument noOptions) in
  match v with
  | Ok (?u :: ?rest) =>
      assert (Hall : generateAll typeMap twoQueriesDocument noOptions
                     = Ok (u :: rest)) by (vm_compute; reflexivity);
      destruct (generateAll_units_framed typeMap twoQueriesDocument noOptions
                  (u :: rest) u Hall (or_introl eq_refl)) as (middle & Hmiddle);
      exists (u :: rest), u, middle
  end.
  split; [exact Hall |]. split; [now left |].
  split; [reflexivity | exact Hmiddle].
Defined.

(** ** All outcomes of the loader *)

Lemma loader_run_cases (existsSync : string -> bool)
    (readFileSync : string -> Loader.Thrown + string)
    (parse : string -> Loader.Thrown + DocumentNode) (schemaFile : string) :
  Loader.parseGraphqlDocument existsSync readFileSync parse schemaFile
  = if existsSync schemaFile then
      match readFileSync schemaFile with
      | inl e =>
          ([Loader.ExistsCall schemaFile; Loader.ReadCall schemaFile],
           inl (if Loader.isGraphQLParseError e then e
                else Loader.GraphQLParseError
                       ("Failed to parse schema file: " ++ schemaFile)
                       (if Loader.isError e then Some e else None)))
      | inr source =>
          ([Loader.ExistsCall schemaFile; Loader.ReadCall schemaFile;
            Loader.ParseCall source],
           match parse source with
           | inr document => inr document
           | inl e =>
               inl (if Loader.isGraphQLParseError e then e
                    else Loader.GraphQLParseError
                           ("Failed to parse schema file: " ++ schemaFile)
                           (if Loader.isError e then Some e else None))
           end)
      end
    else
      ([Loader.ExistsCall schemaFile],
       inl (Loader.GraphQLParseError ("Schema file not found: " ++ schemaFile) None)).
Proof.
  destruct (existsSync schemaFile) eqn:Hx.
  - destruct (readFileSync schemaFile) as [e | source] eqn:Hr.
    + now apply loader_unreadable_source.
    + rewrite (loader_parse_attempted _ _ parse _ _ Hx Hr). reflexivity.
  - now apply loader_missing_source.
Qed.

(** X11.  Whatever the collaborators do, a failing call of
    parseGraphqlDocument throws a GraphQLParseError: either the
    missing-source error, or a GraphQLParseError a collaborator threw,
    passed on unchanged, or the parse-failure error naming the path, whose
    cause is the thrown value when that is an Error and is absent
    otherwise. *)
Theorem parseGraphqlDocument_throws_GraphQLParseError
    (existsSync : string -> bool)
    (readFileSync : string -> Loader.Thrown + string)
    (parse : string -> Loader.Thrown + DocumentNode) (schemaFile : string)
    (e : Loader.Thrown) :
  snd (Loader.parseGraphqlDocument existsSync readFileSync parse schemaFile) = inl e ->
  Loader.isGraphQLParseError e = true
  /\ (e = Loader.GraphQLParseError ("Schema file not found: " ++ schemaFile) None
      \/ (exists thrown,
            (readFileSync schemaFile = inl thrown
             \/ exists source, readFileSync schemaFile = inr source
                               /\ parse source = inl thrown)
            /\ (Loader.isGraphQLParseError thrown = true /\ e = thrown
                \/ Loader.isGraphQLParseError thrown = false
                   /\ e = Loader.GraphQLParseError
                            ("Failed to parse schema file: " ++ schemaFile)
                            (if Loader.isError thrown then Some thrown else None)))).
Proof.
  rewrite loader_run_cases.
  destruct (existsSync schemaFile).
  - destruct (readFileSync schemaFile) as [t | source] eqn:Hr; cbn [snd].
    + destruct (Loader.isGraphQLParseError t) eqn:Ht; intros H; injection H as <-;
        (split; [first [exact Ht | reflexivity] |]); right; exists t;
        (split; [now left |]); [left | right]; auto.
    + destruct (parse source) as [t | document] eqn:Hp; [| discriminate].
      destruct (Loader.isGraphQLParseError t) eqn:Ht; intros H; injection H as <-;
        (split; [first [exact Ht | reflexivity] |]); right; exists t;
        (split; [right; eauto |]); [left | right]; auto.
  - cbn [snd]. intros H. injection H as <-. split; [reflexivity | now left].
Qed.

(** The statement at the file system without [missing.graphql]. *)
Lemma parseGraphqlDocument_throws_GraphQLParseError_witness :
  Loader.isGraphQLParseError
    (Loader.GraphQLParseError "Schema file not found: missing.graphql" None)
  = true.
Proof.
  apply (parseGraphqlDocument_throws_GraphQLParseError onlySchemaExists
           readBrokenSchema rejectingParse "missing.graphql").
  reflexivity.
Defined.

(** X12.  The collaborators are called in the order existsSync,
    readFileSync, parse, each at most once: a missing path is never read, a
    file that could not be read is never parsed, and the parser receives
    exactly the text that was read; the call returns a document exactly
    when the path exists, the read succeeds and the parser accepts the text,
    and then it returns the parser's document. *)
Theorem parseGraphqlDocument_calls (existsSync : string -> bool)
    (readFileSync : string -> Loader.Thrown + string)
    (parse : string -> Loader.Thrown + DocumentNode) (schemaFile : string) :
  let run := Loader.parseGraphqlDocument existsSync readFileSync parse schemaFile in
  fst run
  = (Loader.ExistsCall schemaFile
     :: if existsSync schemaFile then
          Loader.ReadCall schemaFile
          :: match readFileSync schemaFile with
             | inr source => [Loader.ParseCall source]
             | inl _ => []
             end
        else [])
  /\ (forall document : DocumentNode,
        snd run = inr document <->
        existsSync schemaFile = true
        /\ exists source, readFileSync schemaFile = inr source
                          /\ parse source = inr document).
Proof.
  cbv zeta. rewrite loader_run_cases.
  destruct (existsSync schemaFile).
  - destruct (readFileSync schemaFile) as [t | source]; cbn [fst snd].
    + split; [reflexivity |]. intros document. split; [discriminate |].
      intros (_ & source & Hs & _). discriminate.
    + split; [reflexivity |]. intros document.
      destruct (parse source) as [t | document'] eqn:Hp; split.
      * discriminate.
      * intros (_ & source' & Hs & Hp'). injection Hs as <-. congruence.
      * intros H. injection H as <-. eauto.
      * intros (_ & source' & Hs & Hp'). injection Hs as <-. congruence.
  - cbn [fst snd]. split; [reflexivity |]. intros document.
    split; [discriminate |]. intros (H & _). discriminate.
Qed.

(** X13.  A path that exists but cannot be read is reported like a parse
    failure: when readFileSync throws an error, the loader throws the
    GraphQLParseError [Failed to parse schema file: <path>] with that error
    as cause, and the parser is not called. *)
Theorem parseGraphqlDocument_unreadable (existsSync : string -> bool)
    (readFileSync : string -> Loader.Thrown + string)
    (parse : string -> Loader.Thrown + DocumentNode) (schemaFile : string)
    (name message : string) :
  existsSync schemaFile = true ->
  readFileSync schemaFile = inl (Loader.ErrorValue name message) ->
  let run := Loader.parseGraphqlDocument existsSync readFileSync parse schemaFile in
  snd run
  = inl (Loader.GraphQLParseError ("Failed to parse schema file: " ++ schemaFile)
           (Some (Loader.ErrorValue name message)))
  /\ Loader.parseAttempts (fst run) = 0%nat.
Proof.
  intros Hx Hr. cbv zeta. rewrite loader_run_cases, Hx, Hr. split; reflexivity.
Qed.

(** The statement at a file system that denies every read. *)
Lemma parseGraphqlDocument_unreadable_witness :
  snd (Loader.parseGraphqlDocument everythingExists readDenied rejectingParse
         "schema.graphql")
  = inl (Loader.GraphQLParseError "Failed to parse schema file: schema.graphql"
           (Some (Loader.ErrorValue "Error" "EACCES: permission denied")))
  /\ Loader.parseAttempts
       (fst (Loader.parseGraphqlDocument everythingExists readDenied rejectingParse
               "schema.graphql"))
     = 0%nat.
Proof.
  apply (parseGraphqlDocument_unreadable everythingExists readDenied rejectingParse
           "schema.graphql" "Error" "EACCES: permission denied"); reflexivity.
Defined.

(** ** Composition of registry operations *)

Lemma liveMap_update (overrides : gmap string string) (st : Registry.Store) :
  Registry.wf st ->
  Registry.liveMap (fst (Registry.updateScalarTypeMap overrides st))
  = Registry.assignable overrides ∪ Registry.liveMap st.
Proof. intros Hwf. now destruct (updateScalarTypeMap_live overrides st Hwf) as (_ & _ & H & _). Qed.

Lemma wf_update (overrides : gmap string string) (st : Registry.Store) :
  Registry.wf st -> Registry.wf (fst (Registry.updateScalarTypeMap overrides st)).
Proof. intros Hwf. now destruct (updateScalarTypeMap_live overrides st Hwf) as (_ & H & _). Qed.

Lemma assignable_union (a b : gmap string string) :
  Registry.assignable (a ∪ b) = Registry.assignable a ∪ Registry.assignable b.
Proof. unfold Registry.assignable. apply delete_union. Qed.

(** X14.  Setter calls compose by merging: after
    [updateScalarTypeMap(first)] and then [updateScalarTypeMap(second)] the
    live map is the one a single call with [second] merged over [first]
    leaves, and repeating a call changes nothing. *)
Theorem updateScalarTypeMap_compose (st : Registry.Store)
    (first second : gmap string string) :
  Registry.wf st ->
  Registry.liveMap
    (fst (Registry.updateScalarTypeMap second
            (fst (Registry.updateScalarTypeMap first st))))
  = Registry.liveMap (fst (Registry.updateScalarTypeMap (second ∪ first) st))
  /\ Registry.liveMap
       (fst (Registry.updateScalarTypeMap first
               (fst (Registry.updateScalarTypeMap first st))))
     = Registry.liveMap (fst (Registry.updateScalarTypeMap first st)).
Proof.
  intros Hwf.
  rewrite !liveMap_update by (try apply wf_update; exact Hwf).
  split.
  - now rewrite assignable_union, (assoc_L (∪)).
  - now rewrite (assoc_L (∪)), (idemp_L (∪)).
Qed.

(** The statement at the initial store, overriding Date and then Int and
    Date. *)
Lemma updateScalarTypeMap_compose_witness :
  Registry.liveMap
    (fst (Registry.updateScalarTypeMap {["Int" := "bigint"; "Date" := "Date"]}
            (fst (Registry.updateScalarTypeMap {["Date" := "string"]}
                    Registry.initial))))
  = Registry.liveMap
      (fst (Registry.updateScalarTypeMap
              ({["Int" := "bigint"; "Date" := "Date"]} ∪ {["Date" := "string"]})
              Registry.initial)).
Proof.
  apply (proj1 (updateScalarTypeMap_compose Registry.initial
                  {["Date" := "string"]}
                  {["Int" := "bigint"; "Date" := "Date"]} wf_initial)).
Defined.

(** The resolver reads the map at the base name only. *)
Lemma getTypeName_ext (tm tm' : gmap string string) (type : TypeNode) :
  Js.get tm (baseName type) = Js.get tm' (baseName type) ->
  getTypeName tm type = getTypeName tm' type.
Proof.
  induction type as [name | t IH | t IH]; cbn [getTypeName baseName]; intros H.
  - now rewrite H.
  - now rewrite (IH H).
  - now rewrite (IH H).
Qed.

(** X15.  The setter changes the resolution of the overridden names only: a
    reference whose base name is not a key of the overrides resolves as
    before the call, and a reference whose base name, other than
    [__proto__], is overridden by a non-empty string resolves to that
    string followed by one list suffix per list wrapper. *)
Theorem updateScalarTypeMap_resolution (st : Registry.Store)
    (overrides : gmap string string) (type : TypeNode) :
  Registry.wf st ->
  let st' := fst (Registry.updateScalarTypeMap overrides st) in
  (overrides !! baseName type = None ->
   Registry.getTypeNameIn st' type = Registry.getTypeNameIn st type)
  /\ (forall v : string,
        overrides !! baseName type = Some v -> v <> "" ->
        baseName type <> "__proto__" ->
        Registry.getTypeNameIn st' type
        = JsString (v ++ brackets (listWrappers type))).
Proof.
  intros Hwf. cbv zeta. unfold Registry.getTypeNameIn.
  rewrite liveMap_update by exact Hwf. split.
  - intros Hnone. apply getTypeName_ext. unfold Js.get.
    rewrite merge_lookup, Hnone. now destruct (String.eqb _ "__proto__").
  - intros v Hv Hne Hproto.
    assert (Hlook : (Registry.assignable overrides ∪ Registry.liveMap st)
                      !! baseName type = Some v).
    { rewrite merge_lookup, Hv.
      destruct (String.eqb_spec (baseName type) "__proto__");
        [contradiction | reflexivity]. }
    rewrite getTypeName_shape by (unfold reachesPrototype; now rewrite Hlook).
    rewrite Hlook. unfold Js.or_else, Js.truthy.
    destruct (String.eqb_spec v ""); [contradiction | reflexivity].
Qed.

(** The statement at the initial store with Date overridden: Int is
    resolved as before. *)
Lemma updateScalarTypeMap_resolution_witness :
  Registry.getTypeNameIn
    (fst (Registry.updateScalarTypeMap {["Date" := "Date"]} Registry.initial))
    (ListType (NamedType "Int"))
  = Registry.getTypeNameIn Registry.initial (ListType (NamedType "Int")).
Proof.
  apply (proj1 (updateScalarTypeMap_resolution Registry.initial
                  {["Date" := "Date"]} (ListType (NamedType "Int")) wf_initial)).
  reflexivity.
Defined.

(** X16.  Snapshots are independent objects: a snapshot taken before a
    setter call and one taken after it have different references, neither
    of them [typeMap]; in the final store the first still holds the map as
    it was before the call and the second holds the merged map. *)
Theorem getScalarTypeMap_snapshots_independent (st : Registry.Store)
    (overrides : gmap string string) :
  Registry.wf st ->
  let r1 := fst (Registry.getScalarTypeMap st) in
  let st1 := snd (Registry.getScalarTypeMap st) in
  let st2 := fst (Registry.updateScalarTypeMap overrides st1) in
  let r2 := fst (Registry.getScalarTypeMap st2) in
  let st3 := snd (Registry.getScalarTypeMap st2) in
  r1 <> r2
  /\ r1 <> Registry.typeMapRef /\ r2 <> Registry.typeMapRef
  /\ Registry.read st3 r1 = Registry.liveMap st
  /\ Registry.read st3 r2 = Registry.assignable overrides ∪ Registry.liveMap st
  /\ Registry.liveMap st3 = Registry.assignable overrides ∪ Registry.liveMap st.
Proof.
  intros Hwf. cbv zeta.
  destruct (getScalarTypeMap_fresh st Hwf) as (Hr1 & Hs1 & Hl1). cbv zeta in *.
  set (r1 := fst (Registry.getScalarTypeMap st)) in *.
  set (st1 := snd (Registry.getScalarTypeMap st)) in *.
  assert (Hwf1 : Registry.wf st1).
  { destruct Hwf as (o & Ho & Hf). exists o. split; [now rewrite Hl1 | exact Hf]. }
  assert (Hlive1 : Registry.liveMap st1 = Registry.liveMap st).
  { unfold Registry.liveMap, Registry.read. now rewrite Hl1. }
  destruct (updateScalarTypeMap_live overrides st1 Hwf1) as (_ & Hwf2 & Hl2 & Hother).
  set (st2 := fst (Registry.updateScalarTypeMap overrides st1)) in *.
  destruct (getScalarTypeMap_fresh st2 Hwf2) as (Hr2 & Hs2 & Hl3). cbv zeta in *.
  set (r2 := fst (Registry.getScalarTypeMap st2)) in *.
  set (st3 := snd (Registry.getScalarTypeMap st2)) in *.
  assert (Hlen : (r1 < r2)%nat).
  { subst r1 r2. cbn [Registry.getScalarTypeMap fst].
    assert (Hsome : is_Some (st2 !! List.length st)).
    { pose proof (Hother (List.length st) Hr1) as Hx.
      unfold Registry.Ref in Hx. rewrite Hx. subst st1.
      cbn [Registry.getScalarTypeMap snd].
      rewrite list_lookup_middle by reflexivity. eauto. }
    apply lookup_lt_is_Some in Hsome. exact Hsome. }
  split; [lia |]. split; [exact Hr1 |]. split; [exact Hr2 |].
  split; [| split].
  - unfold Registry.read.
    replace (st3 !! r1) with (st2 !! r1).
    + rewrite (Hother r1 Hr1), Hs1. reflexivity.
    + subst st3. cbn [Registry.getScalarTypeMap snd].
      symmetry. apply lookup_app_l. subst r2.
      cbn [Registry.getScalarTypeMap fst] in Hlen. exact Hlen.
  - unfold Registry.read. rewrite Hs2. cbn [Registry.props].
    now rewrite Hl2, Hlive1.
  - unfold Registry.liveMap, Registry.read. rewrite Hl3.
    change (match st2 !! Registry.typeMapRef with
            | Some o => Registry.props o
            | None => ∅
            end) with (Registry.liveMap st2).
    now rewrite Hl2, Hlive1.
Qed.

(** The statement at the initial store with Date overridden between the two
    snapshots. *)
Lemma getScalarTypeMap_snapshots_independent_witness :
  fst (Registry.getScalarTypeMap Registry.initial)
  <> fst (Registry.getScalarTypeMap
            (fst (Registry.updateScalarTypeMap {["Date" := "Date"]}
                    (snd (Registry.getScalarTypeMap Registry.initial)))))
  /\ Registry.read
       (snd (Registry.getScalarTypeMap
               (fst (Registry.updateScalarTypeMap {["Date" := "Date"]}
                       (snd (Registry.getScalarTypeMap Registry.initial))))))
       (fst (Registry.getScalarTypeMap Registry.initial))
     = Registry.liveMap Registry.initial.
Proof.
  destruct (getScalarTypeMap_snapshots_independent Registry.initial
              {["Date" := "Date"]} wf_initial) as (H1 & _ & _ & H4 & _).
  split; [exact H1 | exact H4].
Defined.

(** ** The single-map classifier *)

Lemma parseTypeDefinitions_def_get (tm : gmap string string)
    (typeMaps : JsObj TypeDefinitionInfo) (def : DefinitionNode) (n : string) :
  obj_get (parseTypeDefinitions_def tm typeMaps def) n
  = match typeDefinitionOf tm def with
    | Some (n', info) => if String.eqb n' n then Some info else obj_get typeMaps n
    | None => obj_get typeMaps n
    end.
Proof.
  destruct def as [name fs d | name fs d | name d | name vs d | name fs d
                  | name ts d | kind];
    unfold typeDefinitionOf, assigned;
    cbn [parseTypeDefinitions_def target entryOf];
    try (destruct (String.eqb name "__proto__"); reflexivity);
    try reflexivity;
    rewrite obj_get_set; destruct (String.eqb name "__proto__"); reflexivity.
Qed.

Lemma typeDefinitionOf_target (tm : gmap string string) (def : DefinitionNode)
    (n : string) (info : TypeDefinitionInfo) :
  typeDefinitionOf tm def = Some (n, info) ->
  assigned def = Some (bucketOfEntry (TypeEntry info), n)
  /\ entryOf tm def = Some (TypeEntry info)
  /\ isTypeBucket (bucketOfEntry (TypeEntry info)) = true.
Proof.
  destruct def as [name fs d | name fs d | name d | name vs d | name fs d
                  | name ts d | kind];
    unfold typeDefinitionOf, assigned; cbn [target entryOf];
    try discriminate;
    destruct (String.eqb name "__proto__"); intros H;
    try discriminate; injection H as <- <-; repeat split.
Qed.

Lemma typeDefinitionOf_none (tm : gmap string string) (def : DefinitionNode)
    (b : Bucket) (n : string) :
  typeDefinitionOf tm def = None -> isTypeBucket b = true ->
  assigned def <> Some (b, n).
Proof.
  destruct def as [name fs d | name fs d | name d | name vs d | name fs d
                  | name ts d | kind];
    unfold typeDefinitionOf, assigned; cbn [target entryOf];
    try discriminate;
    destruct (String.eqb name "__proto__"); intros H Hb;
    try discriminate; destruct b; try discriminate.
Qed.

Lemma typeMapsAgree_step (tm : gmap string string)
    (typeMaps : JsObj TypeDefinitionInfo) (m : ExtendedTypeMap)
    (def : DefinitionNode) :
  typeMapsAgree typeMaps m ->
  typeMapsAgree (parseTypeDefinitions_def tm typeMaps def)
                (parseExtendedTypes_def tm m def).
Proof.
  intros Hagree n. specialize (Hagree n).
  rewrite parseTypeDefinitions_def_get.
  destruct (typeDefinitionOf tm def) as [[n' info] |] eqn:E.
  - destruct (typeDefinitionOf_target tm def n' info E) as (Ht & He & Hb).
    destruct (String.eqb_spec n' n) as [-> | Hne].
    + split; [| exact Hb]. rewrite parseExtendedTypes_def_get.
      case_decide; [exact He | contradiction].
    + destruct (obj_get typeMaps n) as [info0 |].
      * destruct Hagree as [Hg Hb0]. split; [| exact Hb0].
        rewrite parseExtendedTypes_def_get. case_decide; [congruence | exact Hg].
      * intros b Hb'. rewrite parseExtendedTypes_def_get.
        case_decide; [congruence | now apply Hagree].
  - destruct (obj_get typeMaps n) as [info0 |].
    + destruct Hagree as [Hg Hb0]. split; [| exact Hb0].
      rewrite parseExtendedTypes_def_get.
      case_decide as Ht; [| exact Hg].
      now apply (typeDefinitionOf_none tm def _ n E) in Hb0.
    + intros b Hb'. rewrite parseExtendedTypes_def_get.
      case_decide as Ht; [| now apply Hagree].
      now apply (typeDefinitionOf_none tm def b n E) in Hb'.
Qed.

Lemma typeMapsAgree_fold (tm : gmap string string) (document : DocumentNode) :
  forall (typeMaps : JsObj TypeDefinitionInfo) (m : ExtendedTypeMap),
    typeMapsAgree typeMaps m ->
    typeMapsAgree (fold_left (parseTypeDefinitions_def tm) document typeMaps)
                  (fold_left (parseExtendedTypes_def tm) document m).
Proof.
  induction document as [|d document IH]; intros typeMaps m H; [exact H |].
  cbn [fold_left]. apply IH. now apply typeMapsAgree_step.
Qed.

(** X17.  parseTypeDefinitions against parseExtendedTypes on the same
    document: every value of the single map is, under the same name, the
    value held by the objects, inputs or scalars bucket named by its kind
    tag; a name absent from the single map is absent from those three
    buckets; and a name present in one of the three buckets is present in
    the single map.  Where an object, an input and a scalar share a name,
    each bucket keeps its own entry and the single map keeps one of them. *)
Theorem parseTypeDefinitions_in_buckets (tm : gmap string string)
    (document : DocumentNode) (n : string) :
  (forall info : TypeDefinitionInfo,
      obj_get (parseTypeDefinitions tm document) n = Some info ->
      isTypeBucket (bucketOfEntry (TypeEntry info)) = true
      /\ bucket_get (parseExtendedTypes tm document)
                    (bucketOfEntry (TypeEntry info)) n
         = Some (TypeEntry info))
  /\ (obj_get (parseTypeDefinitions tm document) n = None ->
      forall b, isTypeBucket b = true ->
                bucket_get (parseExtendedTypes tm document) b n = None)
  /\ (forall (b : Bucket) (e : Entry),
        isTypeBucket b = true ->
        bucket_get (parseExtendedTypes tm document) b n = Some e ->
        exists info, obj_get (parseTypeDefinitions tm document) n = Some info).
Proof.
  assert (Hagree : typeMapsAgree (parseTypeDefinitions tm document)
                                 (parseExtendedTypes tm document)).
  { apply typeMapsAgree_fold. intros n' b. cbn [obj_get].
    intros _. apply bucket_get_empty. }
  specialize (Hagree n). split; [| split].
  - intros info H. rewrite H in Hagree. destruct Hagree as [Hg Hb]. auto.
  - intros H. rewrite H in Hagree. exact Hagree.
  - intros b e Hb Hg.
    destruct (obj_get (parseTypeDefinitions tm document) n) as [info |];
      [eauto |].
    rewrite (Hagree b Hb) in Hg. discriminate.
Qed.

(** The statement at [type A { y: Int }  scalar A]: the single map holds
    the scalar, which is also what the scalars bucket holds. *)
Lemma parseTypeDefinitions_in_buckets_witness :
  bucket_get (parseExtendedTypes typeMap sharedNameDocument) Scalars "A"
  = Some (TypeEntry {| td_kind := Kind.SCALAR_TYPE_DEFINITION; td_name := "A";
                       td_fields := []; td_description := None |})
  /\ obj_get (parseTypeDefinitions typeMap sharedNameDocument) "A"
     = Some {| td_kind := Kind.SCALAR_TYPE_DEFINITION; td_name := "A";
               td_fields := []; td_description := None |}.
Proof.
  split; [| reflexivity].
  apply (proj1 (parseTypeDefinitions_in_buckets typeMap sharedNameDocument "A")
           {| td_kind := Kind.SCALAR_TYPE_DEFINITION; td_name := "A";
              td_fields := []; td_description := None |}).
  reflexivity.
Defined.

(** ** generateOperations on any operations object *)

Lemma join_indented (sigs : list string) :
  Forall (fun sig => exists rest, sig = "  " ++ rest) sigs ->
  isInterfaceHeader (Js.join nl sigs) = false.
Proof.
  intros H. destruct H as [|sig sigs (rest & ->) _]; [reflexivity |].
  destruct sigs as [|sig' sigs]; [apply indented_not_header |].
  rewrite join_cons2, append_assoc. apply indented_not_header.
Qed.

Lemma operationLines_indented (tm : gmap string string) (options : GenerateOptions)
    (fields : list OperationField) (sigs : list string) :
  mapM (operationLine tm options) fields = Ok sigs ->
  Forall (fun sig => exists rest, sig = "  " ++ rest) sigs.
Proof.
  intros H. apply mapM_Ok in H.
  induction H as [|f sig fields sigs Hf _ IH]; constructor; [| exact IH].
  apply operationLine_Ok in Hf as (args & ret & _ & _ & ->). eauto.
Qed.

Lemma operationBlock_lines (tm : gmap string string) (options : GenerateOptions)
    (entry : string * list OperationField) (block : list string) :
  operationBlock tm options entry = Ok block ->
  List.length block = 4%nat
  /\ List.length (List.filter isInterfaceHeader block) = 1%nat.
Proof.
  destruct entry as [root fields]. intros H.
  apply operationBlock_Ok in H as (sigs & Hs & ->).
  split; [reflexivity |]. cbn [List.filter].
  rewrite header_isInterfaceHeader,
    (join_indented sigs (operationLines_indented tm options fields sigs Hs)).
  reflexivity.
Qed.

(** X18.  For every operations object, whatever its keys, when
    generateOperations renders every signature it pushes the four banner
    lines and four lines per entry, and exactly one pushed line per entry
    opens an interface declaration. *)
Theorem generateOperations_lines_count (tm : gmap string string)
    (operations : OperationsMap) (options : GenerateOptions)
    (lines : list string) :
  generateOperations_lines tm operations options = Ok lines ->
  List.length lines = (4 + 4 * List.length (obj_entries operations))%nat
  /\ List.length (List.filter isInterfaceHeader lines)
     = List.length (obj_entries operations).
Proof.
  unfold generateOperations_lines, obj_entries. intros H.
  apply bind_Ok in H as (blocks & Hblocks & [= <-]).
  change ("/* Auto-generated by koatty-graphql */"
          :: "" :: "// Operations" :: "" :: concat blocks)
    with (banner "// Operations" ++ concat blocks)%list.
  rewrite List.filter_app, !List.length_app.
  change (List.length (banner "// Operations")) with 4%nat.
  change (List.length (List.filter isInterfaceHeader (banner "// Operations")))
    with 0%nat.
  apply mapM_Ok in Hblocks.
  induction Hblocks as [|entry block operations blocks Hb _ [IHl IHh]];
    [split; reflexivity |].
  destruct (operationBlock_lines tm _ entry block Hb) as [Hlen Hhead].
  cbn [List.concat]. rewrite List.filter_app, !List.length_app, Hlen, Hhead.
  cbn [List.length]. split; lia.
Qed.

(** The statement at the operations of the document with Query and Mutation
    roots. *)
Lemma generateOperations_lines_count_witness :
  exists lines : list string,
    generateOperations_lines typeMap (parseOperations typeMap twoQueriesDocument)
      noOptions = Ok lines
    /\ List.length lines = 16%nat.
Proof.
  eexists.
  assert (H : generateOperations_lines typeMap
                (parseOperations typeMap twoQueriesDocument) noOptions = Ok _)
    by (vm_compute; reflexivity).
  split; [exact H |].
  exact (proj1 (generateOperations_lines_count typeMap _ noOptions _ H)).
Defined.

(** ** Optional markers under strictNullChecks *)

Lemma includes_bang_brackets (n : nat) : Js.includes (brackets n) "!" = false.
Proof.
  induction n as [|n IH]; [reflexivity |].
  cbn [brackets]. now rewrite (includes_char_append "!"%char), IH.
Qed.

(** X19.  The resolver drops non-null wrappers, so the renderer's test for
    an exclamation mark never sees one: when the resolver returns a string
    and the text of the resolved base name has no exclamation mark, the
    flattened type has none either, and with strictNullChecks every field
    built from a field definition is rendered with the optional marker, a
    non-null field like any other. *)
Theorem strictNullChecks_marks_every_field (tm : gmap string string)
    (kind : string) (f : FieldDefinitionNode) (options : GenerateOptions) :
  strictNullChecks options = Some true ->
  isString (getTypeName tm (fd_type f)) = true ->
  Js.includes
    (Js.toString (Js.or_value (Js.get tm (baseName (fd_type f)))
                              (baseName (fd_type f)))) "!"
  = false ->
  exists (flattened : string) (tsType : JsValue),
    getTypeName tm (fd_type f) = JsString flattened
    /\ Js.includes flattened "!" = false
    /\ getTypeScriptType tm flattened options = Ok tsType
    /\ generateFieldDeclaration tm (fieldInfoOf tm kind f) options
       = Ok ("  " ++ fd_name f ++ "?" ++ ": " ++ Js.toString tsType ++ ";").
Proof.
  intros Hs Hstr Hb.
  pose proof (getTypeName_string tm (fd_type f) Hstr) as Hshape.
  eexists. 
  destruct (generateFieldDeclaration_string tm (fieldInfoOf tm kind f) options _
              Hshape) as (tsType & Hts & Hgen).
  exists tsType. split; [exact Hshape |].
  assert (Hn : Js.includes
                 (Js.toString (Js.or_value (Js.get tm (baseName (fd_type f)))
                                           (baseName (fd_type f)))
                  ++ brackets (listWrappers (fd_type f))) "!" = false).
  { change "!" with (String "!"%char "").
    rewrite includes_char_append.
    change (String "!"%char "") with "!".
    now rewrite Hb, includes_bang_brackets. }
  split; [exact Hn |]. split; [exact Hts |].
  rewrite Hgen, Hn, Hs. reflexivity.
Qed.

(** The statement at the field [id: ID!] with strictNullChecks: the
    non-null field is rendered as optional. *)
Lemma strictNullChecks_marks_every_field_witness :
  generateFieldDeclaration typeMap
    (fieldInfoOf typeMap Kind.OBJECT_TYPE_DEFINITION
       {| fd_name := "id"; fd_arguments := Some [];
          fd_type := NonNullType (NamedType "ID"); fd_description := None |})
    strictOptions
  = Ok "  id?: string;".
Proof.
  destruct (strictNullChecks_marks_every_field typeMap Kind.OBJECT_TYPE_DEFINITION
              {| fd_name := "id"; fd_arguments := Some [];
                 fd_type := NonNullType (NamedType "ID"); fd_description := None |}
              strictOptions eq_refl eq_refl eq_refl)
    as (flattened & tsType & Hflat & _ & Hts & Hgen).
  rewrite Hgen. vm_compute in Hflat. injection Hflat as <-.
  vm_compute in Hts. injection Hts as <-. reflexivity.
Defined.

(** ** Name formatting *)

Lemma append_cancel_l (a x y : string) : a ++ x = a ++ y -> x = y.
Proof.
  induction a as [|c a IH]; [auto |].
  rewrite !append_cons. intros H. injection H as H. auto.
Qed.

Lemma append_cancel_r (a : string) :
  forall x y : string, x ++ a = y ++ a -> x = y.
Proof.
  induction x as [|c x IH]; intros [|d y] H.
  - reflexivity.
  - apply (f_equal String.length) in H.
    rewrite !string_length_append in H. simpl in H. lia.
  - apply (f_equal String.length) in H.
    rewrite !string_length_append in H. simpl in H. lia.
  - rewrite !append_cons in H. injection H as -> H. f_equal. now apply IH.
Qed.

(** X20.  Name formatting never merges two names: under the same options,
    two names have the same formatted name exactly when they are equal. *)
Theorem formatTypeName_injective (options : GenerateOptions) (a b : string) :
  formatTypeName a options = formatTypeName b options <-> a = b.
Proof.
  split; [| now intros ->].
  unfold formatTypeName. intros H.
  apply append_cancel_l in H. now apply append_cancel_r in H.
Qed.

(** ** The first release of the extractor against the current one *)

Lemma V1_fold_thrown {A : Type} (step : option OperationsMap -> A -> option OperationsMap)
    (l : list A) :
  (forall a, step None a = None) -> fold_left step l None = None.
Proof.
  intros Hstep. induction l as [|a l IH]; [reflexivity |].
  cbn [fold_left]. now rewrite Hstep.
Qed.

Lemma V1_pushSelection_fold (tm : gmap string string) (name : string)
    (fs : list FieldDefinitionNode) :
  forall operations : OperationsMap,
    fold_left (V1.pushSelection tm name) fs (Some operations)
    = if existsb lacksArguments fs then None
      else Some (fold_left (fun ops field => obj_push ops name (operationFieldOf tm field))
                           fs operations).
Proof.
  induction fs as [|f fs IH]; intros operations; [reflexivity |].
  cbn [fold_left existsb]. unfold V1.pushSelection at 2, V1.operationOf, lacksArguments.
  unfold operationFieldOf at 2.
  destruct (fd_arguments f) as [arguments |]; cbn [orb].
  - apply IH.
  - apply V1_fold_thrown. reflexivity.
Qed.

Lemma V1_parseOperations_fold (tm : gmap string string) (document : DocumentNode) :
  forall operations : OperationsMap,
    fold_left (V1.parseOperations_def tm) document (Some operations)
    = if existsb incompleteRoot document then None
      else Some (fold_left (parseOperations_def tm) document operations).
Proof.
  induction document as [|def document IH]; intros operations; [reflexivity |].
  cbn [fold_left existsb].
  destruct def as [name fields d | | | | | | ];
    cbn [V1.parseOperations_def parseOperations_def incompleteRoot orb];
    try apply IH.
  destruct (isOperationType name); cbn [andb orb]; [| apply IH].
  destruct fields as [fs |]; cbn [Js.orEmpty].
  - rewrite V1_pushSelection_fold.
    destruct (existsb lacksArguments fs); cbn [orb]; [| apply IH].
    apply V1_fold_thrown. reflexivity.
  - apply V1_fold_thrown. reflexivity.
Qed.

(** X21.  The first release of parseOperations and the current one: the
    first release throws exactly when some root object definition has no
    field list or has a field without an argument list, and whenever it
    returns, it returns what the current parseOperations returns. *)
Theorem V1_parseOperations_agrees (tm : gmap string string) (document : DocumentNode) :
  (V1.parseOperations tm document = None <->
   exists def, In def document /\ incompleteRoot def = true)
  /\ (forall operations : OperationsMap,
        V1.parseOperations tm document = Some operations ->
        operations = parseOperations tm document).
Proof.
  unfold V1.parseOperations, parseOperations.
  rewrite V1_parseOperations_fold.
  destruct (existsb incompleteRoot document) eqn:E.
  - split.
    + split; [intros _; now apply existsb_exists in E | reflexivity].
    + discriminate.
  - split.
    + split; [discriminate |].
      intros Hex. apply existsb_exists in Hex. congruence.
    + intros operations H. now injection H as <-.
Qed.

(** The statement at the document with two Query definitions, one of whose
    fields has no argument list: the first release throws. *)
Lemma V1_parseOperations_agrees_witness :
  V1.parseOperations typeMap twoQueriesDocument = None.
Proof.
  apply (proj1 (V1_parseOperations_agrees typeMap twoQueriesDocument)).
  exists (ObjectTypeDefinition "Query"
            (Some [ {| fd_name := "b"; fd_arguments := None;
                       fd_type := NamedType "String"; fd_description := None |} ])
            None).
  split; [| reflexivity]. simpl. auto.
Defined.

(** ** Root types in the two units *)

Lemma rootFieldsOf_target (tm : gmap string string) (root : string)
    (def : DefinitionNode) :
  target def <> Some (Objects, root) -> rootFieldsOf tm root def = [].
Proof.
  destruct def as [name fs d | | | | | | ]; cbn [target rootFieldsOf];
    try reflexivity.
  intros H. destruct (String.eqb_spec name root) as [-> | _];
    [now destruct H | reflexivity].
Qed.

Lemma rootFields_none (tm : gmap string string) (root : string)
    (document : DocumentNode) :
  (forall d, In d document -> target d <> Some (Objects, root)) ->
  rootFields tm root document = [].
Proof.
  unfold rootFields. induction document as [|d document IH]; intros H;
    [reflexivity |].
  cbn [flat_map]. rewrite (rootFieldsOf_target tm root d (H d (or_introl eq_refl))).
  apply IH. intros d' Hd'. apply H. now right.
Qed.
(** X22.  A root type defined once is described alike in both models: when
    exactly one object definition carries a root name, the sequence
    parseOperations extracts for that root and the field list of its entry
    in the objects bucket list the same field names with the same flattened
    types, in the same order. *)
Theorem root_fields_consistent (tm : gmap string string) (pre post : DocumentNode)
    (root : string) (fields : option (list FieldDefinitionNode))
    (description : option string) :
  let document :=
    (pre ++ ObjectTypeDefinition root fields description :: post)%list in
  In root operationTypes ->
  (forall d, In d (pre ++ post)%list -> target d <> Some (Objects, root)) ->
  exists (info : TypeDefinitionInfo) (operations : list OperationField),
    obj_get (objects (parseExtendedTypes tm document)) root = Some info
    /\ obj_get (parseOperations tm document) root = Some operations
    /\ List.map (fun f => (op_name f, op_returnType f)) operations
       = List.map (fun i => (fi_name i, fi_type i)) (td_fields info).
Proof.
  cbv zeta. intros Hroot Hothers.
  assert (Hpre : forall d, In d pre -> target d <> Some (Objects, root))
    by (intros d Hd; apply Hothers, in_or_app; now left).
  assert (Hpost : forall d, In d post -> target d <> Some (Objects, root))
    by (intros d Hd; apply Hothers, in_or_app; now right).
  assert (Hname : root <> "__proto__").
  { destruct Hroot as [<- | [<- | [<- | []]]]; discriminate. }
  pose proof (parseExtendedTypes_last tm pre post
                (ObjectTypeDefinition root fields description) Objects root) as Hget.
  cbn [bucket_get entryOf] in Hget.
  assert (Hget' := Hget ltac:(now apply assigned_Some)
                     ltac:(intros d Hd Ha; apply assigned_Some in Ha as [Ha _];
                           exact (Hpost d Hd Ha))).
  clear Hget.
  destruct (obj_get (objects (parseExtendedTypes tm _)) root) as [info |];
    [injection Hget' as -> | discriminate].
  eexists _, _. split; [reflexivity |]. split.
  - rewrite parseOperations_get by exact Hroot.
    rewrite rootFields_middle, (rootFields_none tm root pre Hpre),
      (rootFields_none tm root post Hpost), List.app_nil_r. reflexivity.
  - cbn [td_fields app]. destruct fields as [fs |]; cbn; [| reflexivity].
    rewrite !List.map_map. reflexivity.
Qed.

(** The statement at the Mutation definition of the document with two Query
    definitions. *)
Lemma root_fields_consistent_witness :
  exists (info : TypeDefinitionInfo) (operations : list OperationField),
    obj_get (objects (parseExtendedTypes typeMap twoQueriesDocument)) "Mutation"
    = Some info
    /\ obj_get (parseOperations typeMap twoQueriesDocument) "Mutation"
       = Some operations
    /\ List.map (fun f => (op_name f, op_returnType f)) operations
       = List.map (fun i => (fi_name i, fi_type i)) (td_fields info).
Proof.
  refine (root_fields_consistent typeMap
            (firstn 1 twoQueriesDocument) (skipn 2 twoQueriesDocument) "Mutation"
            (Some [ {| fd_name := "m";
                       fd_arguments :=
                         Some [ {| iv_name := "x";
                                   iv_type := NonNullType (NamedType "ID");
                                   iv_description := None |} ];
                       fd_type := NamedType "Boolean"; fd_description := None |} ])
            None _ _).
  - simpl. auto.
  - intros d [<- | [<- | [<- | []]]]; discriminate.
Defined.

(** ** One interface per object or input name *)

Lemma obj_set_Forall {V : Type} (P : string * V -> Prop) (o : JsObj V)
    (k : string) (v : V) :
  Forall P o -> P (k, v) -> Forall P (obj_set o k v).
Proof.
  unfold obj_set. intros Ho Hv.
  destruct (String.eqb k "__proto__"); [exact Ho |].
  induction o as [|[k0 v0] o IH]; cbn [obj_define].
  - constructor; [exact Hv | constructor].
  - apply Forall_cons_iff in Ho as [H0 Ho].
    destruct (String.eqb_spec k0 k) as [-> | Hne]; constructor; auto.
Qed.

(** Every entry of the objects and inputs buckets sits under its own name
    and carries the kind tag of its bucket. *)
Lemma typed_buckets_entries (tm : gmap string string) (document : DocumentNode) :
  forall m : ExtendedTypeMap,
    Forall (fun kv => td_name (snd kv) = fst kv
                      /\ td_kind (snd kv) = Kind.OBJECT_TYPE_DEFINITION)
           (objects m) ->
    Forall (fun kv => td_name (snd kv) = fst kv
                      /\ td_kind (snd kv) = Kind.INPUT_OBJECT_TYPE_DEFINITION)
           (inputs m) ->
    let m' := fold_left (parseExtendedTypes_def tm) document m in
    Forall (fun kv => td_name (snd kv) = fst kv
                      /\ td_kind (snd kv) = Kind.OBJECT_TYPE_DEFINITION)
           (objects m')
    /\ Forall (fun kv => td_name (snd kv) = fst kv
                         /\ td_kind (snd kv) = Kind.INPUT_OBJECT_TYPE_DEFINITION)
              (inputs m').
Proof.
  induction document as [|d document IH]; intros m Ho Hi; [now split |].
  cbn [fold_left]. apply IH;
    destruct d; cbn [parseExtendedTypes_def objects inputs]; auto;
    now apply obj_set_Forall.
Qed.

(** One declaration per key, each an interface named after its key. *)
Lemma declarations_by_key (tm : gmap string string) (options : GenerateOptions)
    (defs : JsObj TypeDefinitionInfo) :
  Forall (fun kv => td_name (snd kv) = fst kv
                    /\ td_kind (snd kv) <> Kind.SCALAR_TYPE_DEFINITION) defs ->
  forall declarations : list string,
    mapM (fun info => generateTypeDefinition tm info options) (obj_values defs)
    = Ok declarations ->
    Forall2 (fun name declaration =>
               exists fieldLines : list string,
                 declaration
                 = "export interface " ++ formatTypeName name options ++ " {" ++ nl
                     ++ Js.join nl fieldLines ++ nl ++ "}")
            (obj_keys defs) declarations.
Proof.
  induction 1 as [|[k v] defs [Hname Hkind] _ IH]; intros declarations H.
  - injection H as <-. constructor.
  - cbn [obj_values obj_keys List.map fst snd mapM] in *.
    apply bind_Ok in H as (d & Hd & H).
    apply bind_Ok in H as (ds & Hds & [= <-]).
    constructor; [| now apply IH].
    apply generateTypeDefinition_Ok in Hd as (fieldLines & _ & ->);
      [| exact Hkind].
    exists fieldLines. now rewrite Hname.
Qed.

Lemma interface_declarations_headers (names declarations : list string)
    (options : GenerateOptions) :
  Forall2 (fun name declaration =>
             exists fieldLines : list string,
               declaration
               = "export interface " ++ formatTypeName name options ++ " {" ++ nl
                   ++ Js.join nl fieldLines ++ nl ++ "}")
          names declarations ->
  List.length declarations = List.length names
  /\ Forall (fun declaration => isInterfaceHeader declaration = true) declarations.
Proof.
  induction 1 as [|name d names ds (fieldLines & ->) _ [IHl IHh]].
  - split; [reflexivity | constructor].
  - split; [cbn [List.length]; now rewrite IHl |].
    constructor; [apply header_isInterfaceHeader | exact IHh].
Qed.

(** X23.  types.ts and inputs.ts declare one interface per distinct name:
    when the unit is rendered, its text is the join of the banner and of
    one declaration per key of the bucket, each followed by a blank line;
    the keys are the distinct object names, respectively input names, of
    the document other than [__proto__], in the order of their first
    occurrence; and the declaration of a name is an interface under the
    formatted name, never a scalar alias. *)
Theorem types_one_interface_per_name (tm : gmap string string)
    (document : DocumentNode) (options : GenerateOptions) :
  (forall text : string,
      generateTypeScriptTypes tm (objects (parseExtendedTypes tm document)) options
      = Ok text ->
      exists declarations : list string,
        text = Js.join nl (pushed "// Type Definitions" declarations)
        /\ Forall2 (fun name declaration =>
                      exists fieldLines : list string,
                        declaration
                        = "export interface "
                            ++ formatTypeName name (spread typesDefaults options)
                            ++ " {" ++ nl ++ Js.join nl fieldLines ++ nl ++ "}")
                   (firstOccurrences (namesFor Objects document)) declarations
        /\ List.length declarations
           = List.length (firstOccurrences (namesFor Objects document))
        /\ Forall (fun declaration => isInterfaceHeader declaration = true)
                  declarations)
  /\ (forall text : string,
        generateInputTypes tm (inputs (parseExtendedTypes tm document)) options
        = Ok text ->
        exists declarations : list string,
          text = Js.join nl (pushed "// Input Types" declarations)
          /\ Forall2 (fun name declaration =>
                        exists fieldLines : list string,
                          declaration
                          = "export interface "
                              ++ formatTypeName name (spread inputsDefaults options)
                              ++ " {" ++ nl ++ Js.join nl fieldLines ++ nl ++ "}")
                     (firstOccurrences (namesFor Inputs document)) declarations
          /\ List.length declarations
             = List.length (firstOccurrences (namesFor Inputs document))
          /\ Forall (fun declaration => isInterfaceHeader declaration = true)
                    declarations).
Proof.
  destruct (typed_buckets_entries tm document emptyExtendedTypeMap
              ltac:(constructor) ltac:(constructor)) as [Ho Hi].
  cbv zeta in Ho, Hi. fold (parseExtendedTypes tm document) in Ho, Hi.
  rewrite <- (bucket_keys_first tm document Objects),
    <- (bucket_keys_first tm document Inputs).
  cbn [bucket_keys]. split.
  - intros text H. unfold generateTypeScriptTypes in H.
    apply renderCategory_Ok in H as (declarations & Hds & ->).
    exists declarations. split; [reflexivity |].
    assert (HF := declarations_by_key tm (spread typesDefaults options) _
                    ltac:(eapply Forall_impl; [exact Ho |]; cbn;
                          intros kv [Hn Hk]; split; [exact Hn |];
                          rewrite Hk; discriminate)
                    declarations Hds).
    split; [exact HF |]. now apply interface_declarations_headers in HF.
  - intros text H. unfold generateInputTypes in H.
    apply renderCategory_Ok in H as (declarations & Hds & ->).
    exists declarations. split; [reflexivity |].
    assert (HF := declarations_by_key tm (spread inputsDefaults options) _
                    ltac:(eapply Forall_impl; [exact Hi |]; cbn;
                          intros kv [Hn Hk]; split; [exact Hn |];
                          rewrite Hk; discriminate)
                    declarations Hds).
    split; [exact HF |]. now apply interface_declarations_headers in HF.
Qed.

(** The statement at the document with two Query definitions: types.ts
    declares the three distinct object names. *)
Lemma types_one_interface_per_name_witness :
  exists (text : string) (declarations : list string),
    generateTypeScriptTypes typeMap
      (objects (parseExtendedTypes typeMap twoQueriesDocument)) noOptions
    = Ok text
    /\ text = Js.join nl (pushed "// Type Definitions" declarations)
    /\ List.length declarations = 3%nat.
Proof.
  eexists.
  assert (H : generateTypeScriptTypes typeMap
                (objects (parseExtendedTypes typeMap twoQueriesDocument)) noOptions
              = Ok _) by (vm_compute; reflexivity).
  destruct (proj1 (types_one_interface_per_name typeMap twoQueriesDocument noOptions)
              _ H) as (declarations & Htext & _ & Hlen & _).
  exists declarations. split; [exact H |]. split; [exact Htext | exact Hlen].
Defined.


(** ** The emitted files depend on the document only *)

Lemma rootFields_length (tm tm' : gmap string string) (root : string)
    (document : DocumentNode) :
  List.length (rootFields tm root document)
  = List.length (rootFields tm' root document).
Proof.
  unfold rootFields. induction document as [|d document IH]; [reflexivity |].
  cbn [flat_map]. rewrite !List.length_app, IH. f_equal.
  destruct d as [name fs ds | | | | | | ]; cbn [rootFieldsOf]; try reflexivity.
  destruct (String.eqb name root); [| reflexivity].
  now rewrite !List.length_map.
Qed.

Lemma hasKeys_bucket (m : ExtendedTypeMap) :
  hasKeys (objects m) = (0 <? List.length (bucket_keys m Objects))%nat
  /\ hasKeys (inputs m) = (0 <? List.length (bucket_keys m Inputs))%nat
  /\ hasKeys (enums m) = (0 <? List.length (bucket_keys m Enums))%nat
  /\ hasKeys (interfaces m) = (0 <? List.length (bucket_keys m Interfaces))%nat
  /\ hasKeys (unions m) = (0 <? List.length (bucket_keys m Unions))%nat.
Proof. repeat split. Qed.

(** X24.  Which files generateAll emits, when it returns, depends on the
    document only: two runs on the same document that both return list the
    same file names, whatever the scalar maps and the options.  Whether a
    run returns does depend on the scalar map: for
    [type A { x: constructor }] the run under the initial map throws, and
    the run under a map with an entry for [constructor] returns types.ts. *)
Theorem generateAll_files_depend_on_document :
  (forall (tm tm' : gmap string string) (document : DocumentNode)
          (options options' : GenerateOptions) (units units' : list GenerateResult),
      generateAll tm document options = Ok units ->
      generateAll tm' document options' = Ok units' ->
      List.map filename units = List.map filename units')
  /\ generateAll typeMap constructorDocument noOptions = Err endsWithError
  /\ exists units : list GenerateResult,
       generateAll constructorMap constructorDocument noOptions = Ok units
       /\ List.map filename units = ["types.ts"].
Proof.
  split; [| split; [vm_compute; reflexivity |
                    eexists; split; [vm_compute; reflexivity | reflexivity]]].
  intros tm tm' document options options' units units' H H'.
  apply generateAll_unitIf in H as (t1 & t2 & t4 & t6 & _ & _ & _ & _ & ->).
  apply generateAll_unitIf in H' as (t1' & t2' & t4' & t6' & _ & _ & _ & _ & ->).
  destruct (hasKeys_bucket (parseExtendedTypes tm document))
    as (-> & -> & -> & -> & ->).
  destruct (hasKeys_bucket (parseExtendedTypes tm' document))
    as (-> & -> & -> & -> & ->).
  rewrite !bucket_keys_first, !parseOperations_roots, !hasOperations_lengths.
  rewrite (rootFields_length tm tm' "Query"), (rootFields_length tm tm' "Mutation"),
    (rootFields_length tm tm' "Subscription").
  repeat match goal with
         | |- context [(0 <? ?n)%nat] =>
             let b := fresh "b" in
             set (b := (0 <? n)%nat); clearbody b
         end.
  repeat match goal with b : bool |- _ => destruct b end; reflexivity.
Qed.

(** ** The order of the units *)

(** X25.  When generateAll returns, it returns, in this order, the units
    types.ts, inputs.ts, enums.ts, interfaces.ts, unions.ts and
    operations.ts, each present exactly when its category has an entry: the
    list of file names is a subsequence of the fixed six, a bucket's file is
    listed if and only if the bucket is not empty, operations.ts is listed
    if and only if some root has a non-empty field sequence, and the result
    has fewer than six units as soon as one category is empty. *)
Theorem generateAll_order (tm : gmap string string) (document : DocumentNode)
    (options : GenerateOptions) (units : list GenerateResult) :
  generateAll tm document options = Ok units ->
  let extendedTypes := parseExtendedTypes tm document in
  let operations := parseOperations tm document in
  let names := List.map filename units in
  sublist names categoryFiles
  /\ (In "types.ts" names <-> objects extendedTypes <> [])
  /\ (In "inputs.ts" names <-> inputs extendedTypes <> [])
  /\ (In "enums.ts" names <-> enums extendedTypes <> [])
  /\ (In "interfaces.ts" names <-> interfaces extendedTypes <> [])
  /\ (In "unions.ts" names <-> unions extendedTypes <> [])
  /\ (In "operations.ts" names <->
      exists (root : string) (fields : list OperationField),
        obj_get operations root = Some fields /\ fields <> [])
  /\ (objects extendedTypes = [] \/ inputs extendedTypes = []
      \/ enums extendedTypes = [] \/ interfaces extendedTypes = []
      \/ unions extendedTypes = []
      \/ (forall (root : string) (fields : list OperationField),
             obj_get operations root = Some fields -> fields = []) ->
      (List.length units < 6)%nat).
Proof.
  intros Hall. cbv zeta.
  rewrite <- !hasKeys_true, <- hasOperations_parse, <- !hasKeys_false.
  assert (Hops :
    (forall (root : string) (fields : list OperationField),
        obj_get (parseOperations tm document) root = Some fields -> fields = [])
    -> hasOperations (parseOperations tm document) = false)
    by apply hasOperations_none.
  apply generateAll_unitIf in Hall as (t1 & t2 & t4 & t6 & _ & _ & _ & _ & ->).
  destruct (hasKeys (objects _)), (hasKeys (inputs _)), (hasKeys (enums _)),
    (hasKeys (interfaces _)), (hasKeys (unions _)), (hasOperations _);
    (split;
     [ cbn; unfold categoryFiles;
       repeat first [apply sublist_nil | apply sublist_skip | apply sublist_cons]
     | cbn; repeat split; intros; try reflexivity; try discriminate; try lia;
       intuition discriminate ]).
Qed.

(** The statement at the document with Query and Mutation roots: there is no
    input type, so fewer than six units are produced. *)
Lemma generateAll_order_witness :
  exists units : list GenerateResult,
    generateAll typeMap twoQueriesDocument noOptions = Ok units
    /\ (List.length units < 6)%nat.
Proof.
  eexists.
  assert (Hall : generateAll typeMap twoQueriesDocument noOptions = Ok _)
    by (vm_compute; reflexivity).
  split; [exact Hall |].
  destruct (generateAll_order typeMap twoQueriesDocument noOptions _ Hall)
    as (_ & _ & _ & _ & _ & _ & _ & Hlen).
  apply Hlen. right. left. reflexivity.
Defined.

(** ** When generateAll returns *)

(** X26.  generateAll returns exactly when every type it passes to
    getTypeScriptType is a string: the field types held by the objects,
    inputs and interfaces buckets and the argument and return types of the
    root fields; otherwise it throws the TypeError of [type.endsWith], and
    it throws nothing else. *)
Theorem generateAll_returns_iff (tm : gmap string string) (document : DocumentNode)
    (options : GenerateOptions) :
  ((exists units, generateAll tm document options = Ok units) <->
   stringTyped tm document = true)
  /\ (generateAll tm document options = Err endsWithError <->
      stringTyped tm document = false)
  /\ (forall e : JsError,
        generateAll tm document options = Err e -> e = endsWithError).
Proof.
  pose proof (generateAll_returnsWhen tm document options) as H.
  unfold returnsWhen in H.
  destruct (stringTyped tm document).
  - destruct H as (units & ->). split; [| split].
    + split; eauto.
    + split; discriminate.
    + discriminate.
  - rewrite H. split; [| split].
    + split; [now intros (units & [=]) | discriminate].
    + split; reflexivity.
    + now intros e [= <-].
Qed.

(** ** Names found in Object.prototype *)

(** X27.  A reference to a name that is no own key of the scalar map and
    is a member of Object.prototype: the bare reference resolves to the
    inherited member itself, on which the renderer throws; under a
    wrapper the resolver returns the member's text followed by the list
    suffixes, a string, so a non-null wrapper changes the result. *)
Theorem getTypeName_inherited (tm : gmap string string) (name : string) :
  reachesPrototype tm name = true ->
  getTypeName tm (NamedType name) = JsInherited name
  /\ (forall options : GenerateOptions,
        getTypeScriptType tm (getTypeName tm (NamedType name)) options
        = Err endsWithError)
  /\ (forall type : TypeNode,
        baseName type = name ->
        (forall n, type <> NamedType n) ->
        getTypeName tm type
        = JsString (Proto.text name ++ brackets (listWrappers type)))
  /\ getTypeName tm (NonNullType (NamedType name)) = JsString (Proto.text name)
  /\ getTypeName tm (NonNullType (NamedType name))
     <> getTypeName tm (NamedType name).
Proof.
  intros H.
  assert (Hbare : getTypeName tm (NamedType name) = JsInherited name).
  { cbn [getTypeName]. now apply or_value_inherited. }
  split; [exact Hbare |]. split; [intros options; now rewrite Hbare |].
  split; [| split].
  - intros type <- Hw. rewrite (getTypeName_wrapped tm type Hw), getTypeName_text.
    now rewrite (or_value_inherited tm _ _ H).
  - cbn [getTypeName] in *. now rewrite Hbare.
  - cbn [getTypeName] in *. rewrite Hbare. discriminate.
Qed.

(** The statement at the name [constructor] under the initial map. *)
Lemma getTypeName_inherited_witness :
  getTypeName typeMap (NamedType "constructor") = JsInherited "constructor"
  /\ getTypeName typeMap (ListType (NamedType "constructor"))
     = JsString "function Object() { [native code] }[]".
Proof.
  destruct (getTypeName_inherited typeMap "constructor" eq_refl)
    as (Hbare & _ & Hwrapped & _).
  split; [exact Hbare |].
  apply (Hwrapped (ListType (NamedType "constructor")) eq_refl). discriminate.
Defined.

(** ** Definitions named __proto__ *)

Lemma parseExtendedTypes_def_unassigned (tm : gmap string string)
    (m : ExtendedTypeMap) (def : DefinitionNode) :
  leavesKey def = false -> parseExtendedTypes_def tm m def = m.
Proof.
  unfold leavesKey, assigned.
  destruct def as [name fs d | name fs d | name d | name vs d | name fs d
                  | name ts d | kind];
    cbn [target parseExtendedTypes_def]; try reflexivity;
    unfold obj_set; destruct (String.eqb name "__proto__");
    try discriminate; intros _; now destruct m.
Qed.

Lemma parseTypeDefinitions_def_unassigned (tm : gmap string string)
    (typeMaps : JsObj TypeDefinitionInfo) (def : DefinitionNode) :
  leavesKey def = false -> parseTypeDefinitions_def tm typeMaps def = typeMaps.
Proof.
  unfold leavesKey, assigned.
  destruct def as [name fs d | name fs d | name d | name vs d | name fs d
                  | name ts d | kind];
    cbn [target parseTypeDefinitions_def]; try reflexivity;
    unfold obj_set; destruct (String.eqb name "__proto__");
    try discriminate; reflexivity.
Qed.

(** X28.  A type definition named [__proto__] is lost: both classifiers
    return what they return for the document without the definitions that
    leave no key, which are those of an unrecognized kind and those named
    [__proto__], so no bucket has the key [__proto__]; for
    [type __proto__ { x: Int }] alone every bucket is empty and generateAll
    returns no unit. *)
Theorem parseExtendedTypes_proto_definitions (tm : gmap string string)
    (document : DocumentNode) :
  parseExtendedTypes tm document
  = parseExtendedTypes tm (List.filter leavesKey document)
  /\ parseTypeDefinitions tm document
     = parseTypeDefinitions tm (List.filter leavesKey document)
  /\ (forall def : DefinitionNode,
        leavesKey def = false <->
        (exists kind, def = OtherDefinition kind)
        \/ exists b, target def = Some (b, "__proto__"))
  /\ (forall b : Bucket,
        bucket_get (parseExtendedTypes tm document) b "__proto__" = None)
  /\ parseExtendedTypes tm protoDocument = emptyExtendedTypeMap
  /\ generateAll tm protoDocument noOptions = Ok [].
Proof.
  split; [| split; [| split; [| split; [| split; reflexivity]]]].
  - unfold parseExtendedTypes. generalize emptyExtendedTypeMap.
    induction document as [|d document IH]; intros m; [reflexivity |].
    cbn [fold_left List.filter]. destruct (leavesKey d) eqn:E.
    + cbn [fold_left]. apply IH.
    + rewrite (parseExtendedTypes_def_unassigned tm m d E). apply IH.
  - unfold parseTypeDefinitions. generalize (@nil (string * TypeDefinitionInfo)).
    induction document as [|d document IH]; intros m; [reflexivity |].
    cbn [fold_left List.filter]. destruct (leavesKey d) eqn:E.
    + cbn [fold_left]. apply IH.
    + rewrite (parseTypeDefinitions_def_unassigned tm m d E). apply IH.
  - intros def. unfold leavesKey, assigned.
    destruct def as [name fs d | name fs d | name d | name vs d | name fs d
                    | name ts d | kind];
      cbn [target];
      try (destruct (String.eqb_spec name "__proto__") as [-> | Hne]; split;
           [ intros _; right; eauto
           | reflexivity
           | discriminate
           | intros [[kind [=]] | [b [= _ Hb]]]; congruence ]).
    split; [eauto | reflexivity].
  - intros b. destruct (bucket_get _ b "__proto__") as [e |] eqn:E; [| reflexivity].
    apply parseExtendedTypes_origin in E as (def & _ & Ha & _).
    apply assigned_Some in Ha as [_ Hne]. now destruct Hne.
Qed.

